(** * L-Store: a shallow embedding of the storage and transaction core

    The Python sources under [implementation/] are embedded as Rocq
    functions.  Python objects that are mutated in place live in explicit
    state records; every method becomes a function in a state-and-error
    monad whose errors are the Python exceptions the method can raise (and
    the two ways a sequential run can fail to return: a blocked
    [threading.Lock.acquire] and an exhausted loop budget). *)

From Stdlib Require Import ZArith Lia Bool List.
From Stdlib.Strings Require Import Byte.
From stdpp Require Import base option list gmap strings.

Local Open Scope Z_scope.

(** ** Outcomes of a Python call *)

Inductive error : Type :=
  | KeyError | IndexError | ValueError | TypeError | OverflowError
  | RuntimeError | ZeroDivisionError | FileNotFoundError | AttributeError
  | Deadlock      (* [acquire] on a lock that is already held *)
  | OutOfFuel.    (* loop budget of the model exhausted *)

Inductive res (St A : Type) : Type :=
  | Ok (a : A) (s : St)
  | Err (e : error).
Arguments Ok {St A} a s.
Arguments Err {St A} e.

Definition M (St A : Type) : Type := St -> res St A.

Definition ret {St A} (a : A) : M St A := fun s => Ok a s.
Definition raise {St A} (e : error) : M St A := fun _ => Err e.
Definition bind {St A B} (m : M St A) (k : A -> M St B) : M St B :=
  fun s => match m s with
           | Ok a s' => k a s'
           | Err e => Err e
           end.
Definition get {St} : M St St := fun s => Ok s s.
Definition gets {St A} (f : St -> A) : M St A := fun s => Ok (f s) s.
Definition put {St} (s : St) : M St unit := fun _ => Ok tt s.
Definition modify {St} (f : St -> St) : M St unit := fun s => Ok tt (f s).

Declare Scope py_scope.
Delimit Scope py_scope with py.
Notation "'let*' x := m 'in' k" := (bind m (fun x => k))
  (at level 10, x pattern, m at level 100, k at level 200, only parsing)
  : py_scope.
Notation "m ;;; k" := (bind m (fun _ => k))
  (at level 100, k at level 200, right associativity, only parsing)
  : py_scope.
Local Open Scope py_scope.

(** Running a computation on a component of a larger state. *)
Definition zoom {St Sub A} (proj : St -> Sub) (upd : Sub -> St -> St)
    (m : M Sub A) : M St A :=
  fun s => match m (proj s) with
           | Ok a sub' => Ok a (upd sub' s)
           | Err e => Err e
           end.

(** [for x in xs: body x] *)
Fixpoint for_each {St A} (xs : list A) (body : A -> M St unit) : M St unit :=
  match xs with
  | [] => ret tt
  | x :: xs' => body x ;;; for_each xs' body
  end.

(** ** lock_manager.py *)

Inductive lock_mode : Type := S_lock | X_lock.

Definition lock_mode_eqb (a b : lock_mode) : bool :=
  match a, b with
  | S_lock, S_lock | X_lock, X_lock => true
  | _, _ => false
  end.

(** A transaction id is the integer [Table.use_num_transactions] hands
    out, or [None] for a transaction that never got a query. *)
Abbreviation txn_id := (option Z).

(** [self.locks : {rid : [(mode, transaction id)]}] and
    [self.lock_owners : {transaction id : [rid]}]. *)
Record LockManager : Type := mkLockManager {
  locks : gmap Z (list (lock_mode * txn_id));
  lock_owners : gmap txn_id (list Z)
}.

Definition LockManager_init : LockManager :=
  {| locks := ∅; lock_owners := ∅ |}.

(** [__add_lock_owner] *)
Definition add_lock_owner (key : Z) (transaction_id : txn_id)
    (lm : LockManager) : LockManager :=
  match lock_owners lm !! transaction_id with
  | None =>
      {| locks := locks lm;
         lock_owners := <[transaction_id := [key]]> (lock_owners lm) |}
  | Some ks =>
      {| locks := locks lm;
         lock_owners := <[transaction_id := ks ++ [key]]> (lock_owners lm) |}
  end.

Definition set_locks (key : Z) (l : list (lock_mode * txn_id))
    (lm : LockManager) : LockManager :=
  {| locks := <[key := l]> (locks lm); lock_owners := lock_owners lm |}.

(** The inner [for l in self.locks[key]] of [acquire_shared_lock]. *)
Inductive shared_decision : Type :=
  | SharedReject | SharedAlreadyHeld | SharedGrant.

Fixpoint shared_scan (transaction_id : txn_id)
    (l : list (lock_mode * txn_id)) : shared_decision :=
  match l with
  | [] => SharedGrant
  | (m, owner) :: l' =>
      if bool_decide (owner = transaction_id) then SharedAlreadyHeld
      else if lock_mode_eqb m X_lock
              && negb (bool_decide (owner = transaction_id))
           then SharedReject
           else shared_scan transaction_id l'
  end.

Fixpoint acquire_shared_lock (keys : list Z) (transaction_id : txn_id)
    (lm : LockManager) : bool * LockManager :=
  match keys with
  | [] => (true, lm)
  | key :: keys' =>
      match locks lm !! key with
      | None =>
          acquire_shared_lock keys' transaction_id
            (add_lock_owner key transaction_id
               (set_locks key [(S_lock, transaction_id)] lm))
      | Some l =>
          match shared_scan transaction_id l with
          | SharedReject => (false, lm)
          | SharedAlreadyHeld => acquire_shared_lock keys' transaction_id lm
          | SharedGrant =>
              acquire_shared_lock keys' transaction_id
                (add_lock_owner key transaction_id
                   (set_locks key (l ++ [(S_lock, transaction_id)]) lm))
          end
      end
  end.

(** The inner [for i, l in enumerate(self.locks[key])] of
    [acquire_exclusive_lock]; [n] is [len(self.locks[key])], which the
    loop body does not change.  The result is the list as the loop leaves
    it and whether the request survived ([false]: the [return False]). *)
Fixpoint exclusive_scan (transaction_id : txn_id) (n : nat)
    (l : list (lock_mode * txn_id)) : bool * list (lock_mode * txn_id) :=
  match l with
  | [] => (true, [])
  | (m, owner) :: l' =>
      if lock_mode_eqb m X_lock && bool_decide (owner = transaction_id)
      then (true, l)
      else if negb (bool_decide (owner = transaction_id)) then (false, l)
      else
        let e := if lock_mode_eqb m S_lock
                    && bool_decide (owner = transaction_id)
                    && Nat.eqb n 1
                 then (X_lock, transaction_id) else (m, owner) in
        let '(ok, rest) := exclusive_scan transaction_id n l' in
        (ok, e :: rest)
  end.

Fixpoint acquire_exclusive_lock (keys : list Z) (transaction_id : txn_id)
    (lm : LockManager) : bool * LockManager :=
  match keys with
  | [] => (true, lm)
  | key :: keys' =>
      match locks lm !! key with
      | None =>
          acquire_exclusive_lock keys' transaction_id
            (add_lock_owner key transaction_id
               (set_locks key [(X_lock, transaction_id)] lm))
      | Some l =>
          let '(ok, l') := exclusive_scan transaction_id (length l) l in
          if ok then acquire_exclusive_lock keys' transaction_id
                       (set_locks key l' lm)
          else (false, set_locks key l' lm)
      end
  end.

(** The [while i < len(self.locks[lock])] loop of [release_held_locks]
    pops every entry of the transaction and keeps the others in order. *)
Definition drop_owner (transaction_id : txn_id)
    (l : list (lock_mode * txn_id)) : list (lock_mode * txn_id) :=
  List.filter (fun e => negb (bool_decide (snd e = transaction_id))) l.

Definition release_one (transaction_id : txn_id) (key : Z)
    : M LockManager unit :=
  fun lm =>
    match locks lm !! key with
    | None => Err KeyError
    | Some l =>
        let l' := drop_owner transaction_id l in
        Ok tt
          {| locks := if Nat.eqb (length l') 0 then delete key (locks lm)
                      else <[key := l']> (locks lm);
             lock_owners := lock_owners lm |}
    end.

Definition release_held_locks (transaction_id : txn_id)
    : M LockManager unit :=
  fun lm =>
    match lock_owners lm !! transaction_id with
    | None => Ok tt lm
    | Some ks =>
        (for_each ks (release_one transaction_id) ;;;
         modify (fun lm' =>
           {| locks := locks lm';
              lock_owners := delete transaction_id (lock_owners lm') |})) lm
    end.

(** ** Python values *)

(** The results the embedded methods hand back: [True]/[False], an
    integer, or [None]. *)
Inductive pyval : Type :=
  | PyBool (b : bool)
  | PyInt (z : Z)
  | PyNone.

(** [bool] is a subclass of [int]: [False] counts as 0 and [True] as 1 in
    arithmetic and in [==]. *)
Definition int_of_pyval (v : pyval) : option Z :=
  match v with
  | PyBool b => Some (if b then 1 else 0)
  | PyInt z => Some z
  | PyNone => None
  end.

Definition py_eq (a b : pyval) : bool :=
  match int_of_pyval a, int_of_pyval b with
  | Some x, Some y => x =? y
  | None, None => true
  | _, _ => false
  end.

Definition truthy (v : pyval) : bool :=
  match v with
  | PyBool b => b
  | PyInt z => negb (z =? 0)
  | PyNone => false
  end.

(** [l[i]] with Python's negative indices; [None] is [IndexError]. *)
Definition py_nth {A} (l : list A) (i : Z) : option A :=
  let n := Z.of_nat (length l) in
  if i <? 0 then (if n + i <? 0 then None else l !! Z.to_nat (n + i))
  else l !! Z.to_nat i.

(** [l[i] = x]; [None] is [IndexError]. *)
Definition py_set {A} (l : list A) (i : Z) (x : A) : option (list A) :=
  let n := Z.of_nat (length l) in
  let j := if i <? 0 then n + i else i in
  if (0 <=? j) && (j <? n) then Some (<[Z.to_nat j := x]> l) else None.

(** Slice bounds: a negative bound counts from the end, and both are
    clamped to the length. *)
Definition py_index (n i : Z) : Z :=
  if i <? 0 then Z.max 0 (n + i) else Z.min i n.

(** [l[a:b]] *)
Definition py_slice {A} (l : list A) (a b : Z) : list A :=
  let n := Z.of_nat (length l) in
  let a' := py_index n a in
  let b' := py_index n b in
  take (Z.to_nat (b' - a')) (drop (Z.to_nat a') l).

(** [l[a:b] = v] on a [bytearray]: the slice is replaced by [v], whatever
    the two lengths are. *)
Definition py_slice_assign {A} (l : list A) (a b : Z) (v : list A) : list A :=
  let n := Z.of_nat (length l) in
  let a' := py_index n a in
  let b' := Z.max a' (py_index n b) in
  take (Z.to_nat a') l ++ v ++ drop (Z.to_nat b') l.

(** [range(a, b)] *)
Definition py_range (a b : Z) : list Z :=
  List.map (fun i => a + Z.of_nat i) (seq 0 (Z.to_nat (b - a))).

(** ** Integer codec: [int.to_bytes] and [int.from_bytes], big-endian *)

Definition byte_of_Z (z : Z) : byte :=
  match Byte.of_N (Z.to_N (z mod 256)) with
  | Some b => b
  | None => x00
  end.

Definition Z_of_byte (b : byte) : Z := Z.of_N (Byte.to_N b).

Fixpoint be_bytes (len : nat) (z : Z) : list byte :=
  match len with
  | O => []
  | S len' => be_bytes len' (z / 256) ++ [byte_of_Z z]
  end.

(** [z.to_bytes(len, "big", signed=signed)]; [None] is [OverflowError]. *)
Definition to_bytes (len : Z) (signed : bool) (z : Z) : option (list byte) :=
  let bits := 8 * len in
  if signed
  then if (- 2 ^ (bits - 1) <=? z) && (z <? 2 ^ (bits - 1))
       then Some (be_bytes (Z.to_nat len) z) else None
  else if (0 <=? z) && (z <? 2 ^ bits)
       then Some (be_bytes (Z.to_nat len) z) else None.

Definition be_unsigned (bs : list byte) : Z :=
  fold_left (fun acc b => acc * 256 + Z_of_byte b) bs 0.

(** [int.from_bytes(bs, "big", signed=True)] *)
Definition from_bytes (bs : list byte) : Z :=
  let bits := 8 * Z.of_nat (length bs) in
  let u := be_unsigned bs in
  if bits =? 0 then 0
  else if u <? 2 ^ (bits - 1) then u else u - 2 ^ bits.

(** ** config.py

    The module [lstore/config.py] is not part of the sources at hand.  The
    constants whose values the sources and the specification leave open
    are the fields of [Config]; the others are fixed below. *)

Record Config : Type := mkConfig {
  PAGE_SIZE : Z;
  COLUMN_SIZE : Z;
  BUFFERPOOL_SIZE : Z;
  MERGE_CONDITION : Z;
  CREATE_INDICES_CONDITION : Z;
  INDIRECTION_NULL : Z
}.

(** Modelled from the spec: [MAX_BASE_PAGES=16] and [NUM_METADATA_COLS=4]
    are given in the list of constants; the metadata columns are
    "indirection, RID, timestamp, schema-encoding" in that order, and the
    data columns follow them. *)
Definition MAX_BASE_PAGES : Z := 16.
Definition NUM_METADATA_COLS : Z := 4.
Definition INDIRECTION_COLUMN : Z := 0.
Definition RID_COLUMN : Z := 1.
Definition TIMESTAMP_COLUMN : Z := 2.
Definition SCHEMA_ENCODING_COLUMN : Z := 3.
Definition DATA_COL_START : Z := 4.

(** Modelled from the spec: the positions of the arguments of a query in
    the argument tuple a transaction stores, which are those of the
    parameters of [Query.select], [Query.sum], [Query.update] and
    [Query.delete]. *)
Definition SELECT_SEARCH_KEY_ARG : Z := 0.
Definition SELECT_SEARCH_KEY_COL_ARG : Z := 1.
Definition SUM_START_RANGE_ARG : Z := 0.
Definition SUM_END_RANGE_ARG : Z := 1.
Definition SUM_COLUMN_ARG : Z := 2.
Definition UPDATE_PRIMARY_KEY_ARG : Z := 0.
Definition DELETE_PRIMARY_KEY_ARG : Z := 0.

(** A physical page file is named by its page range, page and column
    numbers: [__create_phys_page_path] maps them one-to-one to the path
    [<root>/<table>/page_range<K>/page<P>/col<C>] of the one table the
    model holds. *)
Abbreviation path := (Z * Z * Z)%type.

Section Model.

Context (cfg : Config).

Abbreviation W := (COLUMN_SIZE cfg).

(** Modelled from the spec: the header of a physical page is
    [num_records], [tps], [num_updates], each [W] bytes, and the body
    starts at byte [3 * W]. *)
Definition NUM_RECORDS_START : Z := 0.
Definition NUM_RECORDS_END : Z := W.
Definition TPS_START : Z := W.
Definition TPS_END : Z := 2 * W.
Definition NUM_UPDATES_START : Z := 2 * W.
Definition NUM_UPDATES_END : Z := 3 * W.
Definition PHYSICAL_PAGE_METADATA_SIZE : Z := 3 * W.

(** [(PAGE_SIZE - PHYSICAL_PAGE_METADATA_SIZE) // COLUMN_SIZE]; the
    constant [COLUMN_SIZE] is positive. *)
Definition max_records : Z :=
  (PAGE_SIZE cfg - PHYSICAL_PAGE_METADATA_SIZE) / W.


(** ** page.py: [PhysicalPage] *)

(** One [PhysicalPage] object.  [lock] is [self.lock], [true] while it is
    held.  ([self.num_records_lock] is taken and released on every path of
    the one method that uses it and is left out.) *)
Record PhysicalPage : Type := mkPhysicalPage {
  num_records : Z;
  tps : Z;
  num_updates : Z;
  data : list byte;
  is_dirty : bool;
  pin_count : Z;
  lock : bool
}.

(** [PhysicalPage()] *)
Definition PhysicalPage_init : PhysicalPage :=
  {| num_records := 0; tps := 0; num_updates := 0;
     data := replicate (Z.to_nat (PAGE_SIZE cfg)) x00;
     is_dirty := false; pin_count := 0; lock := false |}.

Definition pp_with_num_records (v : Z) (p : PhysicalPage) : PhysicalPage :=
  {| num_records := v; tps := tps p; num_updates := num_updates p;
     data := data p; is_dirty := is_dirty p; pin_count := pin_count p;
     lock := lock p |}.
Definition pp_with_tps (v : Z) (p : PhysicalPage) : PhysicalPage :=
  {| num_records := num_records p; tps := v; num_updates := num_updates p;
     data := data p; is_dirty := is_dirty p; pin_count := pin_count p;
     lock := lock p |}.
Definition pp_with_num_updates (v : Z) (p : PhysicalPage) : PhysicalPage :=
  {| num_records := num_records p; tps := tps p; num_updates := v;
     data := data p; is_dirty := is_dirty p; pin_count := pin_count p;
     lock := lock p |}.
Definition pp_with_data (v : list byte) (p : PhysicalPage) : PhysicalPage :=
  {| num_records := num_records p; tps := tps p; num_updates := num_updates p;
     data := v; is_dirty := is_dirty p; pin_count := pin_count p;
     lock := lock p |}.
Definition pp_with_is_dirty (v : bool) (p : PhysicalPage) : PhysicalPage :=
  {| num_records := num_records p; tps := tps p; num_updates := num_updates p;
     data := data p; is_dirty := v; pin_count := pin_count p;
     lock := lock p |}.
Definition pp_with_pin_count (v : Z) (p : PhysicalPage) : PhysicalPage :=
  {| num_records := num_records p; tps := tps p; num_updates := num_updates p;
     data := data p; is_dirty := is_dirty p; pin_count := v;
     lock := lock p |}.
Definition pp_with_lock (v : bool) (p : PhysicalPage) : PhysicalPage :=
  {| num_records := num_records p; tps := tps p; num_updates := num_updates p;
     data := data p; is_dirty := is_dirty p; pin_count := pin_count p;
     lock := v |}.

(** [self.lock.acquire()]: blocks for ever when the lock is held. *)
Definition lock_acquire : M PhysicalPage unit :=
  fun p => if lock p then Err Deadlock else Ok tt (pp_with_lock true p).

(** [self.lock.release()]: [RuntimeError] when the lock is not held. *)
Definition lock_release : M PhysicalPage unit :=
  fun p => if lock p then Ok tt (pp_with_lock false p) else Err RuntimeError.

(** [value.to_bytes(COLUMN_SIZE, "big", signed=...)] *)
Definition encode {St} (signed : bool) (z : Z) : M St (list byte) :=
  match to_bytes W signed z with
  | Some bs => ret bs
  | None => raise OverflowError
  end.

(** Operations: ["p"] reads then increments, ["w"] increments then
    reads, ["r"] reads. *)
Inductive counter_op : Type := Op_p | Op_w | Op_r.

Definition PhysicalPage_use_num_records (operation : counter_op)
    : M PhysicalPage pyval :=
  fun p =>
    if num_records p >=? max_records then Ok (PyBool false) p
    else match operation with
         | Op_p => Ok (PyInt (num_records p))
                      (pp_with_num_records (num_records p + 1) p)
         | Op_w => Ok (PyInt (num_records p + 1))
                      (pp_with_num_records (num_records p + 1) p)
         | Op_r => Ok (PyInt (num_records p)) p
         end.

Inductive pin_op : Type := Pin_r | Pin_i | Pin_d.

Definition PhysicalPage_use_pin_count (operation : pin_op)
    : M PhysicalPage Z :=
  lock_acquire ;;;
  let* p := get in
  let v := match operation with
           | Pin_r => pin_count p
           | Pin_i => pin_count p + 1
           | Pin_d => pin_count p - 1
           end in
  put (pp_with_pin_count v p) ;;;
  lock_release ;;;
  ret v.

Definition PhysicalPage_get_dirty_bit : M PhysicalPage bool :=
  lock_acquire ;;; let* p := get in lock_release ;;; ret (is_dirty p).

Definition PhysicalPage_get_tps : M PhysicalPage Z :=
  lock_acquire ;;; let* p := get in lock_release ;;; ret (tps p).

Definition PhysicalPage_get_num_updates : M PhysicalPage Z :=
  lock_acquire ;;; let* p := get in lock_release ;;; ret (num_updates p).

Definition PhysicalPage_get_data : M PhysicalPage (list byte) :=
  lock_acquire ;;; let* p := get in lock_release ;;; ret (data p).

Definition PhysicalPage_has_capacity : M PhysicalPage bool :=
  lock_acquire ;;;
  let* p := get in
  lock_release ;;;
  ret (num_records p <? max_records).

(** [PhysicalPage.write]: the lock is released on the failure path
    although the method never acquires it. *)
Definition PhysicalPage_write (value offset : Z) : M PhysicalPage pyval :=
  if offset >=? max_records then
    lock_release ;;; ret (PyBool false)
  else
    let start := W * offset + PHYSICAL_PAGE_METADATA_SIZE in
    let end_ := W * (offset + 1) + PHYSICAL_PAGE_METADATA_SIZE in
    let* p := get in
    let* bs := encode true value in
    let d1 := py_slice_assign (data p) start end_ bs in
    let* hn := encode true (num_records p) in
    let d2 := py_slice_assign d1 NUM_RECORDS_START NUM_RECORDS_END hn in
    let* ht := encode true (tps p) in
    let d3 := py_slice_assign d2 TPS_START TPS_END ht in
    let* hu := encode true (num_updates p) in
    let d4 := py_slice_assign d3 NUM_UPDATES_START NUM_UPDATES_END hu in
    put (pp_with_is_dirty true (pp_with_data d4 p)) ;;;
    ret (PyInt offset).

Definition slot (d : list byte) (offset : Z) : Z :=
  let start := W * offset + PHYSICAL_PAGE_METADATA_SIZE in
  let end_ := W * (offset + 1) + PHYSICAL_PAGE_METADATA_SIZE in
  from_bytes (py_slice d start end_).

Definition PhysicalPage_read_val (offset : Z) : M PhysicalPage Z :=
  lock_acquire ;;;
  let* p := get in
  lock_release ;;;
  ret (slot (data p) offset).

Definition PhysicalPage_change_val (new_val offset : Z) : M PhysicalPage unit :=
  lock_acquire ;;;
  let* p := get in
  let start := W * offset + PHYSICAL_PAGE_METADATA_SIZE in
  let end_ := W * (offset + 1) + PHYSICAL_PAGE_METADATA_SIZE in
  let* bs := encode true new_val in
  put (pp_with_data (py_slice_assign (data p) start end_ bs) p) ;;;
  lock_release.

Definition PhysicalPage_data_to_int_array : M PhysicalPage (list Z) :=
  lock_acquire ;;;
  let* p := get in
  lock_release ;;;
  ret (List.map (slot (data p)) (py_range 0 (num_records p))).


(** ** The state of one database *)

(** The Python heap of [PhysicalPage] objects ([heap], a reference is an
    index into it), the files of the table ([disk]; [old_disk] holds the
    [old_col<C>_<tps>] generations that merge leaves behind, and
    [fetch_log] lists the files that [__fetch_phys_page] opened, oldest
    first), the wall clock ([clock] at the [ticks]-th call of [time()]),
    the fields of the [Bufferpool] ([pages] to [page_locks]) and those of
    the [Table] and its [Index] ([table_key] to [merge_queue]). *)
Record Store : Type := mkStore {
  heap : list PhysicalPage;
  disk : gmap path (list byte);
  old_disk : gmap (path * Z) (list byte);
  fetch_log : list path;
  clock : nat -> Z;
  ticks : nat;
  pages : gmap path nat;
  max_capacity : Z;
  lru_pages : list path;
  evict_lock : bool;
  page_locks : gmap path bool;
  table_key : Z;
  num_columns : Z;
  page_directory : gmap Z (Z * Z * Z);
  num_page_ranges : Z;
  page_ranges_metadata : list (Z * Z * Z);
  indices : list (option (gmap Z (list Z)));
  table_num_records : Z;
  merge_queue : list (Z * Z)
}.

Definition with_heap (v : list PhysicalPage) (s : Store) : Store :=
  {| heap := v;
     disk := disk s;
     old_disk := old_disk s;
     fetch_log := fetch_log s;
     clock := clock s;
     ticks := ticks s;
     pages := pages s;
     max_capacity := max_capacity s;
     lru_pages := lru_pages s;
     evict_lock := evict_lock s;
     page_locks := page_locks s;
     table_key := table_key s;
     num_columns := num_columns s;
     page_directory := page_directory s;
     num_page_ranges := num_page_ranges s;
     page_ranges_metadata := page_ranges_metadata s;
     indices := indices s;
     table_num_records := table_num_records s;
     merge_queue := merge_queue s |}.
Definition with_disk (v : gmap path (list byte)) (s : Store) : Store :=
  {| heap := heap s;
     disk := v;
     old_disk := old_disk s;
     fetch_log := fetch_log s;
     clock := clock s;
     ticks := ticks s;
     pages := pages s;
     max_capacity := max_capacity s;
     lru_pages := lru_pages s;
     evict_lock := evict_lock s;
     page_locks := page_locks s;
     table_key := table_key s;
     num_columns := num_columns s;
     page_directory := page_directory s;
     num_page_ranges := num_page_ranges s;
     page_ranges_metadata := page_ranges_metadata s;
     indices := indices s;
     table_num_records := table_num_records s;
     merge_queue := merge_queue s |}.
Definition with_old_disk (v : gmap (path * Z) (list byte)) (s : Store) : Store :=
  {| heap := heap s;
     disk := disk s;
     old_disk := v;
     fetch_log := fetch_log s;
     clock := clock s;
     ticks := ticks s;
     pages := pages s;
     max_capacity := max_capacity s;
     lru_pages := lru_pages s;
     evict_lock := evict_lock s;
     page_locks := page_locks s;
     table_key := table_key s;
     num_columns := num_columns s;
     page_directory := page_directory s;
     num_page_ranges := num_page_ranges s;
     page_ranges_metadata := page_ranges_metadata s;
     indices := indices s;
     table_num_records := table_num_records s;
     merge_queue := merge_queue s |}.
Definition with_fetch_log (v : list path) (s : Store) : Store :=
  {| heap := heap s;
     disk := disk s;
     old_disk := old_disk s;
     fetch_log := v;
     clock := clock s;
     ticks := ticks s;
     pages := pages s;
     max_capacity := max_capacity s;
     lru_pages := lru_pages s;
     evict_lock := evict_lock s;
     page_locks := page_locks s;
     table_key := table_key s;
     num_columns := num_columns s;
     page_directory := page_directory s;
     num_page_ranges := num_page_ranges s;
     page_ranges_metadata := page_ranges_metadata s;
     indices := indices s;
     table_num_records := table_num_records s;
     merge_queue := merge_queue s |}.
Definition with_clock (v : nat -> Z) (s : Store) : Store :=
  {| heap := heap s;
     disk := disk s;
     old_disk := old_disk s;
     fetch_log := fetch_log s;
     clock := v;
     ticks := ticks s;
     pages := pages s;
     max_capacity := max_capacity s;
     lru_pages := lru_pages s;
     evict_lock := evict_lock s;
     page_locks := page_locks s;
     table_key := table_key s;
     num_columns := num_columns s;
     page_directory := page_directory s;
     num_page_ranges := num_page_ranges s;
     page_ranges_metadata := page_ranges_metadata s;
     indices := indices s;
     table_num_records := table_num_records s;
     merge_queue := merge_queue s |}.
Definition with_ticks (v : nat) (s : Store) : Store :=
  {| heap := heap s;
     disk := disk s;
     old_disk := old_disk s;
     fetch_log := fetch_log s;
     clock := clock s;
     ticks := v;
     pages := pages s;
     max_capacity := max_capacity s;
     lru_pages := lru_pages s;
     evict_lock := evict_lock s;
     page_locks := page_locks s;
     table_key := table_key s;
     num_columns := num_columns s;
     page_directory := page_directory s;
     num_page_ranges := num_page_ranges s;
     page_ranges_metadata := page_ranges_metadata s;
     indices := indices s;
     table_num_records := table_num_records s;
     merge_queue := merge_queue s |}.
Definition with_pages (v : gmap path nat) (s : Store) : Store :=
  {| heap := heap s;
     disk := disk s;
     old_disk := old_disk s;
     fetch_log := fetch_log s;
     clock := clock s;
     ticks := ticks s;
     pages := v;
     max_capacity := max_capacity s;
     lru_pages := lru_pages s;
     evict_lock := evict_lock s;
     page_locks := page_locks s;
     table_key := table_key s;
     num_columns := num_columns s;
     page_directory := page_directory s;
     num_page_ranges := num_page_ranges s;
     page_ranges_metadata := page_ranges_metadata s;
     indices := indices s;
     table_num_records := table_num_records s;
     merge_queue := merge_queue s |}.
Definition with_max_capacity (v : Z) (s : Store) : Store :=
  {| heap := heap s;
     disk := disk s;
     old_disk := old_disk s;
     fetch_log := fetch_log s;
     clock := clock s;
     ticks := ticks s;
     pages := pages s;
     max_capacity := v;
     lru_pages := lru_pages s;
     evict_lock := evict_lock s;
     page_locks := page_locks s;
     table_key := table_key s;
     num_columns := num_columns s;
     page_directory := page_directory s;
     num_page_ranges := num_page_ranges s;
     page_ranges_metadata := page_ranges_metadata s;
     indices := indices s;
     table_num_records := table_num_records s;
     merge_queue := merge_queue s |}.
Definition with_lru_pages (v : list path) (s : Store) : Store :=
  {| heap := heap s;
     disk := disk s;
     old_disk := old_disk s;
     fetch_log := fetch_log s;
     clock := clock s;
     ticks := ticks s;
     pages := pages s;
     max_capacity := max_capacity s;
     lru_pages := v;
     evict_lock := evict_lock s;
     page_locks := page_locks s;
     table_key := table_key s;
     num_columns := num_columns s;
     page_directory := page_directory s;
     num_page_ranges := num_page_ranges s;
     page_ranges_metadata := page_ranges_metadata s;
     indices := indices s;
     table_num_records := table_num_records s;
     merge_queue := merge_queue s |}.
Definition with_evict_lock (v : bool) (s : Store) : Store :=
  {| heap := heap s;
     disk := disk s;
     old_disk := old_disk s;
     fetch_log := fetch_log s;
     clock := clock s;
     ticks := ticks s;
     pages := pages s;
     max_capacity := max_capacity s;
     lru_pages := lru_pages s;
     evict_lock := v;
     page_locks := page_locks s;
     table_key := table_key s;
     num_columns := num_columns s;
     page_directory := page_directory s;
     num_page_ranges := num_page_ranges s;
     page_ranges_metadata := page_ranges_metadata s;
     indices := indices s;
     table_num_records := table_num_records s;
     merge_queue := merge_queue s |}.
Definition with_page_locks (v : gmap path bool) (s : Store) : Store :=
  {| heap := heap s;
     disk := disk s;
     old_disk := old_disk s;
     fetch_log := fetch_log s;
     clock := clock s;
     ticks := ticks s;
     pages := pages s;
     max_capacity := max_capacity s;
     lru_pages := lru_pages s;
     evict_lock := evict_lock s;
     page_locks := v;
     table_key := table_key s;
     num_columns := num_columns s;
     page_directory := page_directory s;
     num_page_ranges := num_page_ranges s;
     page_ranges_metadata := page_ranges_metadata s;
     indices := indices s;
     table_num_records := table_num_records s;
     merge_queue := merge_queue s |}.
Definition with_table_key (v : Z) (s : Store) : Store :=
  {| heap := heap s;
     disk := disk s;
     old_disk := old_disk s;
     fetch_log := fetch_log s;
     clock := clock s;
     ticks := ticks s;
     pages := pages s;
     max_capacity := max_capacity s;
     lru_pages := lru_pages s;
     evict_lock := evict_lock s;
     page_locks := page_locks s;
     table_key := v;
     num_columns := num_columns s;
     page_directory := page_directory s;
     num_page_ranges := num_page_ranges s;
     page_ranges_metadata := page_ranges_metadata s;
     indices := indices s;
     table_num_records := table_num_records s;
     merge_queue := merge_queue s |}.
Definition with_num_columns (v : Z) (s : Store) : Store :=
  {| heap := heap s;
     disk := disk s;
     old_disk := old_disk s;
     fetch_log := fetch_log s;
     clock := clock s;
     ticks := ticks s;
     pages := pages s;
     max_capacity := max_capacity s;
     lru_pages := lru_pages s;
     evict_lock := evict_lock s;
     page_locks := page_locks s;
     table_key := table_key s;
     num_columns := v;
     page_directory := page_directory s;
     num_page_ranges := num_page_ranges s;
     page_ranges_metadata := page_ranges_metadata s;
     indices := indices s;
     table_num_records := table_num_records s;
     merge_queue := merge_queue s |}.
Definition with_page_directory (v : gmap Z (Z * Z * Z)) (s : Store) : Store :=
  {| heap := heap s;
     disk := disk s;
     old_disk := old_disk s;
     fetch_log := fetch_log s;
     clock := clock s;
     ticks := ticks s;
     pages := pages s;
     max_capacity := max_capacity s;
     lru_pages := lru_pages s;
     evict_lock := evict_lock s;
     page_locks := page_locks s;
     table_key := table_key s;
     num_columns := num_columns s;
     page_directory := v;
     num_page_ranges := num_page_ranges s;
     page_ranges_metadata := page_ranges_metadata s;
     indices := indices s;
     table_num_records := table_num_records s;
     merge_queue := merge_queue s |}.
Definition with_num_page_ranges (v : Z) (s : Store) : Store :=
  {| heap := heap s;
     disk := disk s;
     old_disk := old_disk s;
     fetch_log := fetch_log s;
     clock := clock s;
     ticks := ticks s;
     pages := pages s;
     max_capacity := max_capacity s;
     lru_pages := lru_pages s;
     evict_lock := evict_lock s;
     page_locks := page_locks s;
     table_key := table_key s;
     num_columns := num_columns s;
     page_directory := page_directory s;
     num_page_ranges := v;
     page_ranges_metadata := page_ranges_metadata s;
     indices := indices s;
     table_num_records := table_num_records s;
     merge_queue := merge_queue s |}.
Definition with_page_ranges_metadata (v : list (Z * Z * Z)) (s : Store) : Store :=
  {| heap := heap s;
     disk := disk s;
     old_disk := old_disk s;
     fetch_log := fetch_log s;
     clock := clock s;
     ticks := ticks s;
     pages := pages s;
     max_capacity := max_capacity s;
     lru_pages := lru_pages s;
     evict_lock := evict_lock s;
     page_locks := page_locks s;
     table_key := table_key s;
     num_columns := num_columns s;
     page_directory := page_directory s;
     num_page_ranges := num_page_ranges s;
     page_ranges_metadata := v;
     indices := indices s;
     table_num_records := table_num_records s;
     merge_queue := merge_queue s |}.
Definition with_indices (v : list (option (gmap Z (list Z)))) (s : Store) : Store :=
  {| heap := heap s;
     disk := disk s;
     old_disk := old_disk s;
     fetch_log := fetch_log s;
     clock := clock s;
     ticks := ticks s;
     pages := pages s;
     max_capacity := max_capacity s;
     lru_pages := lru_pages s;
     evict_lock := evict_lock s;
     page_locks := page_locks s;
     table_key := table_key s;
     num_columns := num_columns s;
     page_directory := page_directory s;
     num_page_ranges := num_page_ranges s;
     page_ranges_metadata := page_ranges_metadata s;
     indices := v;
     table_num_records := table_num_records s;
     merge_queue := merge_queue s |}.
Definition with_table_num_records (v : Z) (s : Store) : Store :=
  {| heap := heap s;
     disk := disk s;
     old_disk := old_disk s;
     fetch_log := fetch_log s;
     clock := clock s;
     ticks := ticks s;
     pages := pages s;
     max_capacity := max_capacity s;
     lru_pages := lru_pages s;
     evict_lock := evict_lock s;
     page_locks := page_locks s;
     table_key := table_key s;
     num_columns := num_columns s;
     page_directory := page_directory s;
     num_page_ranges := num_page_ranges s;
     page_ranges_metadata := page_ranges_metadata s;
     indices := indices s;
     table_num_records := v;
     merge_queue := merge_queue s |}.
Definition with_merge_queue (v : list (Z * Z)) (s : Store) : Store :=
  {| heap := heap s;
     disk := disk s;
     old_disk := old_disk s;
     fetch_log := fetch_log s;
     clock := clock s;
     ticks := ticks s;
     pages := pages s;
     max_capacity := max_capacity s;
     lru_pages := lru_pages s;
     evict_lock := evict_lock s;
     page_locks := page_locks s;
     table_key := table_key s;
     num_columns := num_columns s;
     page_directory := page_directory s;
     num_page_ranges := num_page_ranges s;
     page_ranges_metadata := page_ranges_metadata s;
     indices := indices s;
     table_num_records := table_num_records s;
     merge_queue := v |}.

Definition total_num_columns (s : Store) : Z :=
  num_columns s + NUM_METADATA_COLS.

(** [obj.field] and [obj.method(...)] on the page object behind a
    reference. *)
Definition deref (r : nat) : M Store PhysicalPage :=
  fun s => match heap s !! r with
           | Some p => Ok p s
           | None => Err RuntimeError
           end.

Definition at_page {A} (r : nat) (m : M PhysicalPage A) : M Store A :=
  fun s => match heap s !! r with
           | Some p =>
               match m p with
               | Ok a p' => Ok a (with_heap (<[r := p']> (heap s)) s)
               | Err e => Err e
               end
           | None => Err RuntimeError
           end.

Definition alloc (p : PhysicalPage) : M Store nat :=
  fun s => Ok (length (heap s)) (with_heap (heap s ++ [p]) s).

(** [time()], truncated to an integer. *)
Definition time : M Store Z :=
  fun s => Ok (clock s (ticks s)) (with_ticks (S (ticks s)) s).

Fixpoint map_m {St A B} (f : A -> M St B) (xs : list A) : M St (list B) :=
  match xs with
  | [] => ret []
  | x :: xs' => let* y := f x in let* ys := map_m f xs' in ret (y :: ys)
  end.

Definition from_option {St A} (e : error) (o : option A) : M St A :=
  match o with
  | Some a => ret a
  | None => raise e
  end.

Fixpoint enumerate {A} (start : Z) (l : list A) : list (Z * A) :=
  match l with
  | [] => []
  | x :: l' => (start, x) :: enumerate (start + 1) l'
  end.


(** ** record.py *)

(** [schema_encoding] is the [bytearray(len(columns))] that the
    constructor makes, or the integer [Bufferpool.get_record] stores in
    its place. *)
Inductive schema_value : Type :=
  | SchemaBytes (len : nat)
  | SchemaInt (z : Z).

Record record : Type := mkRecord {
  rec_indirection : Z;
  rec_rid : Z;
  rec_timestamp : Z;
  rec_schema_encoding : schema_value;
  rec_key : Z;
  rec_columns : list Z
}.

(** [Record(rid, key, columns)] *)
Definition Record_init (rid key : Z) (columns : list Z) : M Store record :=
  let* t := time in
  ret {| rec_indirection := INDIRECTION_NULL cfg; rec_rid := rid;
         rec_timestamp := t;
         rec_schema_encoding := SchemaBytes (length columns);
         rec_key := key; rec_columns := columns |}.

(** An element of [to_array()]: an integer, or the [bytearray] of a
    schema encoding that was never replaced by an integer. *)
Inductive array_item : Type :=
  | ItemInt (z : Z)
  | ItemBytes (len : nat).

(** [to_array] *)
Definition Record_to_array (r : record) : list array_item :=
  [ItemInt (rec_indirection r); ItemInt (rec_rid r);
   ItemInt (rec_timestamp r);
   match rec_schema_encoding r with
   | SchemaBytes len => ItemBytes len
   | SchemaInt z => ItemInt z
   end] ++ List.map ItemInt (rec_columns r).

Definition rec_with_indirection (v : Z) (r : record) : record :=
  {| rec_indirection := v; rec_rid := rec_rid r;
     rec_timestamp := rec_timestamp r;
     rec_schema_encoding := rec_schema_encoding r;
     rec_key := rec_key r; rec_columns := rec_columns r |}.
Definition rec_with_rid (v : Z) (r : record) : record :=
  {| rec_indirection := rec_indirection r; rec_rid := v;
     rec_timestamp := rec_timestamp r;
     rec_schema_encoding := rec_schema_encoding r;
     rec_key := rec_key r; rec_columns := rec_columns r |}.
Definition rec_with_columns (v : list Z) (r : record) : record :=
  {| rec_indirection := rec_indirection r; rec_rid := rec_rid r;
     rec_timestamp := rec_timestamp r;
     rec_schema_encoding := rec_schema_encoding r;
     rec_key := rec_key r; rec_columns := v |}.

(** ** page.py: [Page]

    A [Page] is the list [self.columns] of its physical pages. *)

(** [self.columns[i]] *)
Definition column {St} (columns : list nat) (i : Z) : M St nat :=
  from_option IndexError (py_nth columns i).

Definition Page_write (columns : list nat) (rec : record) (offset : Z)
    : M Store unit :=
  let max_offset := max_records - 1 in
  if offset <=? max_offset then
    let* c := column columns INDIRECTION_COLUMN in
    at_page c (PhysicalPage_write (rec_indirection rec) offset) ;;;
    let* c := column columns RID_COLUMN in
    at_page c (PhysicalPage_write (rec_rid rec) offset) ;;;
    let* c := column columns TIMESTAMP_COLUMN in
    at_page c (PhysicalPage_write (rec_timestamp rec) offset) ;;;
    let* c := column columns SCHEMA_ENCODING_COLUMN in
    let* sch := match rec_schema_encoding rec with
                | SchemaBytes len => ret (from_bytes (replicate len x00))
                | SchemaInt _ => raise TypeError
                end in
    at_page c (PhysicalPage_write sch offset) ;;;
    for_each (enumerate 4 (rec_columns rec))
      (fun '(i, value) =>
         let* c := column columns i in
         at_page c (PhysicalPage_write value offset) ;;; ret tt)
  else ret tt.

Definition Page_get_rids_in_page (columns : list nat) : M Store (list Z) :=
  let* c := column columns RID_COLUMN in
  at_page c PhysicalPage_data_to_int_array.

(** [create_copy]: [use_num_records("r")] answers [False] for a full
    page, and the copy then carries [False], which counts as 0. *)
Definition Page_create_copy (columns : list nat) : M Store (list nat) :=
  map_m (fun c =>
           let* n := at_page c (PhysicalPage_use_num_records Op_r) in
           let* n := from_option TypeError (int_of_pyval n) in
           let* t := at_page c PhysicalPage_get_tps in
           let* u := at_page c PhysicalPage_get_num_updates in
           let* d := at_page c PhysicalPage_get_data in
           alloc (pp_with_data d (pp_with_num_updates u (pp_with_tps t
                    (pp_with_num_records n PhysicalPage_init)))))
        columns.

(** ** bufferpool.py *)

Definition Bufferpool_has_capacity : M Store bool :=
  gets (fun s => negb (Z.of_nat (size (pages s)) =? max_capacity s)).

(** [__fetch_phys_page]: a new page object with the bytes of the file. *)
Definition Bufferpool_fetch_phys_page (phys_page_path : path) : M Store nat :=
  let* s := get in
  match disk s !! phys_page_path with
  | None => raise FileNotFoundError
  | Some bytes =>
      if Nat.eqb (length bytes) 0 then raise ValueError
      else
        modify (with_fetch_log (fetch_log s ++ [phys_page_path])) ;;;
        alloc {| num_records :=
                   from_bytes (py_slice bytes NUM_RECORDS_START NUM_RECORDS_END);
                 tps := from_bytes (py_slice bytes TPS_START TPS_END);
                 num_updates :=
                   from_bytes (py_slice bytes NUM_UPDATES_START NUM_UPDATES_END);
                 data := bytes; is_dirty := false; pin_count := 0;
                 lock := false |}
  end.

(** [__write_page_to_disk]: the bytes of the page overwrite the start of
    the memory-mapped file. *)
Definition Bufferpool_write_phys_page_to_disk (phys_page_path : path)
    : M Store unit :=
  let* s := get in
  match disk s !! phys_page_path with
  | None => raise FileNotFoundError
  | Some old =>
      if Nat.eqb (length old) 0 then raise ValueError
      else
        let* r := from_option KeyError (pages s !! phys_page_path) in
        let* p := deref r in
        if (length old <? length (data p))%nat then raise ValueError
        else modify (with_disk
               (<[phys_page_path := data p ++ drop (length (data p)) old]>
                  (disk s)))
  end.

(** The [for path in self.lru_pages] of [__evict]: the first page with a
    pin count of 0. *)
Fixpoint find_victim (paths : list path) : M Store (option (path * nat)) :=
  match paths with
  | [] => ret None
  | pth :: paths' =>
      let* s := get in
      let* r := from_option KeyError (pages s !! pth) in
      let* phys_pg := deref r in
      if pin_count phys_pg =? 0 then ret (Some (pth, r))
      else find_victim paths'
  end.

(** [list.remove]; [None] is [ValueError]. *)
Fixpoint list_remove {A} `{EqDecision A} (x : A) (l : list A)
    : option (list A) :=
  match l with
  | [] => None
  | y :: l' => if decide (x = y) then Some l'
               else option_map (cons y) (list_remove x l')
  end.

(** [__evict]: the path that finds every page pinned returns [False]
    with [self.evict_lock] still held. *)
Definition Bufferpool_evict : M Store pyval :=
  let* s := get in
  if evict_lock s then raise Deadlock
  else
    modify (with_evict_lock true) ;;;
    if Z.of_nat (size (pages s)) <? max_capacity s then
      modify (with_evict_lock false) ;;; ret (PyBool true)
    else
      let* victim := find_victim (lru_pages s) in
      match victim with
      | None => ret (PyBool false)
      | Some (key_of_page, r) =>
          let* page_to_evict := deref r in
          (if is_dirty page_to_evict
           then Bufferpool_write_phys_page_to_disk key_of_page
           else ret tt) ;;;
          modify (fun s => with_pages (delete key_of_page (pages s)) s) ;;;
          let* s := get in
          let* l := from_option ValueError
                      (list_remove key_of_page (lru_pages s)) in
          modify (with_lru_pages l) ;;;
          let* s := get in
          match page_locks s !! key_of_page with
          | None => raise KeyError
          | Some _ =>
              modify (with_page_locks (delete key_of_page (page_locks s)))
          end ;;;
          modify (with_evict_lock false) ;;;
          ret PyNone
      end.

(** [self.page_locks[phys_page_path].release()] *)
Definition page_lock_release (phys_page_path : path) : M Store unit :=
  let* s := get in
  match page_locks s !! phys_page_path with
  | None => raise KeyError
  | Some true =>
      modify (with_page_locks (<[phys_page_path := false]> (page_locks s)))
  | Some false => raise RuntimeError
  end.

Definition Bufferpool_get_physical_page_helper
    (page_range_num page_num column_num : Z) (add_to_bufferpool : bool)
    : M Store nat :=
  let phys_page_path : path := (page_range_num, page_num, column_num) in
  let* s := get in
  match page_locks s !! phys_page_path with
  | Some true => raise Deadlock
  | _ => modify (with_page_locks (<[phys_page_path := true]> (page_locks s)))
  end ;;;
  let* s := get in
  match pages s !! phys_page_path with
  | Some r => page_lock_release phys_page_path ;;; ret r
  | None =>
      let* cap := Bufferpool_has_capacity in
      (if negb cap && add_to_bufferpool
       then Bufferpool_evict ;;; ret tt else ret tt) ;;;
      let* page := Bufferpool_fetch_phys_page phys_page_path in
      (if add_to_bufferpool
       then modify (fun s =>
              with_lru_pages (lru_pages s ++ [phys_page_path])
                (with_pages (<[phys_page_path := page]> (pages s)) s))
       else ret tt) ;;;
      page_lock_release phys_page_path ;;;
      ret page
  end.

Definition Bufferpool_get_physical_page
    (page_range_num page_num column_num : Z) : M Store nat :=
  Bufferpool_get_physical_page_helper page_range_num page_num column_num true.

Definition Bufferpool_get_physical_page_no_add
    (page_range_num page_num column_num : Z) : M Store nat :=
  Bufferpool_get_physical_page_helper page_range_num page_num column_num false.

Definition Bufferpool_get_page_helper (page_range_num page_num : Z)
    (add_to_bufferpool : bool) : M Store (list nat) :=
  let* s := get in
  map_m (fun i => Bufferpool_get_physical_page_helper page_range_num page_num
                    i add_to_bufferpool)
        (py_range 0 (total_num_columns s)).

Definition Bufferpool_get_page (page_range_num page_num : Z)
    : M Store (list nat) :=
  Bufferpool_get_page_helper page_range_num page_num true.

Definition Bufferpool_get_page_no_add (page_range_num page_num : Z)
    : M Store (list nat) :=
  Bufferpool_get_page_helper page_range_num page_num false.


(** [table.py]: the accessors of the counters and of the page
    directory.  [use_page_directory("r", key, None)] answers [-1] for a
    missing key, here [None]. *)
Definition Table_use_num_records (operation : counter_op) : M Store Z :=
  let* s := get in
  match operation with
  | Op_p => put (with_table_num_records (table_num_records s + 1) s) ;;;
            ret (table_num_records s)
  | Op_w => put (with_table_num_records (table_num_records s + 1) s) ;;;
            ret (table_num_records s + 1)
  | Op_r => ret (table_num_records s)
  end.

Definition Table_use_page_directory_w (key : Z) (value : Z * Z * Z)
    : M Store (Z * Z * Z) :=
  modify (fun s => with_page_directory (<[key := value]> (page_directory s)) s) ;;;
  ret value.

Definition Table_use_page_directory_r (key : Z) : M Store (option (Z * Z * Z)) :=
  gets (fun s => page_directory s !! key).

Definition Table_use_page_directory_d (key : Z) : M Store bool :=
  let* s := get in
  match page_directory s !! key with
  | None => raise KeyError
  | Some _ => put (with_page_directory (delete key (page_directory s)) s) ;;;
              ret true
  end.

Definition Table_use_num_page_ranges_r : M Store Z :=
  gets num_page_ranges.

Definition Table_add_to_merge_queue (value : Z * Z) : M Store unit :=
  modify (fun s => with_merge_queue (merge_queue s ++ [value]) s).

(** [page_range_num, page_num, offset = table.use_page_directory("r", rid,
    None)]: unpacking [-1] is a [TypeError]. *)
Definition unpack_location (rid : Z) : M Store (Z * Z * Z) :=
  let* loc := Table_use_page_directory_r rid in
  from_option TypeError loc.

(** [bufferpool.py], continued *)

Definition Bufferpool_get_tps (page_range_num page_num : Z) : M Store Z :=
  let* r := Bufferpool_get_physical_page page_range_num page_num RID_COLUMN in
  let* phys_page := deref r in
  ret (from_bytes (py_slice (data phys_page) TPS_START TPS_END)).

Definition Bufferpool_get_num_updates (page_range_num page_num : Z)
    : M Store Z :=
  let* r := Bufferpool_get_physical_page page_range_num page_num RID_COLUMN in
  let* phys_page := deref r in
  ret (from_bytes (py_slice (data phys_page) NUM_UPDATES_START NUM_UPDATES_END)).

Definition Bufferpool_set_tps (page_range_num page_num new_tps : Z)
    : M Store unit :=
  let* r := Bufferpool_get_physical_page page_range_num page_num RID_COLUMN in
  let* bs := encode false new_tps in
  at_page r (modify (fun p =>
    pp_with_data (py_slice_assign (data p) TPS_START TPS_END bs) p)).

Definition Bufferpool_set_num_updates (page_range_num page_num num_updates : Z)
    : M Store unit :=
  let* r := Bufferpool_get_physical_page page_range_num page_num RID_COLUMN in
  let* bs := encode false num_updates in
  at_page r (modify (fun p =>
    pp_with_data
      (py_slice_assign (data p) NUM_UPDATES_START NUM_UPDATES_END bs) p)).

Definition Bufferpool_get_record_column_val (rid column_num : Z) : M Store Z :=
  let* (page_range_num, page_num, offset) := unpack_location rid in
  let* r := Bufferpool_get_physical_page page_range_num page_num column_num in
  let* page := deref r in
  ret (slot (data page) offset).

Definition Bufferpool_get_record (rid : Z) : M Store record :=
  let* metadata :=
    map_m (Bufferpool_get_record_column_val rid)
      [INDIRECTION_COLUMN; RID_COLUMN; TIMESTAMP_COLUMN;
       SCHEMA_ENCODING_COLUMN] in
  let* s := get in
  let* columns :=
    map_m (Bufferpool_get_record_column_val rid)
      (py_range DATA_COL_START (total_num_columns s)) in
  let* m_rid := from_option IndexError (py_nth metadata RID_COLUMN) in
  let* r := Record_init m_rid (table_key s) columns in
  let* m_ind := from_option IndexError (py_nth metadata INDIRECTION_COLUMN) in
  let* m_ts := from_option IndexError (py_nth metadata TIMESTAMP_COLUMN) in
  let* m_sch := from_option IndexError (py_nth metadata SCHEMA_ENCODING_COLUMN) in
  ret {| rec_indirection := m_ind; rec_rid := rec_rid r;
         rec_timestamp := m_ts; rec_schema_encoding := SchemaInt m_sch;
         rec_key := rec_key r; rec_columns := rec_columns r |}.

Definition Bufferpool_get_highest_base_page_num (page_range_num : Z)
    : M Store Z :=
  let* s := get in
  let* (_, max_bp_num, _) :=
    from_option IndexError (py_nth (page_ranges_metadata s) page_range_num) in
  ret max_bp_num.

Definition Bufferpool_get_highest_tail_page_num (page_range_num : Z)
    : M Store Z :=
  let* s := get in
  let* (_, _, max_tp_num) :=
    from_option IndexError (py_nth (page_ranges_metadata s) page_range_num) in
  ret max_tp_num.

Definition Bufferpool_get_highest_page_range_num : M Store Z :=
  gets (fun s => num_page_ranges s - 1).

Definition Bufferpool_page_has_capacity (page_range_num page_num : Z)
    : M Store bool :=
  let* r := Bufferpool_get_physical_page page_range_num page_num 0 in
  at_page r PhysicalPage_has_capacity.

Definition Bufferpool_page_range_has_capacity (page_range_num : Z)
    : M Store bool :=
  let* max_bp_num := Bufferpool_get_highest_base_page_num page_range_num in
  if max_bp_num <? MAX_BASE_PAGES - 1 then ret true
  else Bufferpool_page_has_capacity page_range_num max_bp_num.

Definition Bufferpool_create_page_range : M Store Z :=
  let* max_pr_num := Bufferpool_get_highest_page_range_num in
  let* reuse :=
    (if negb (max_pr_num =? -1)
     then Bufferpool_page_range_has_capacity max_pr_num
     else ret false) in
  if reuse then ret max_pr_num
  else
    let max_pr_num := max_pr_num + 1 in
    modify (fun s =>
      with_page_ranges_metadata
        (page_ranges_metadata s ++ [(max_pr_num, -1, MAX_BASE_PAGES - 1)])
        (with_num_page_ranges (num_page_ranges s + 1) s)) ;;;
    ret max_pr_num.

(** The files [col0 .. col<n-1>] of a new page, each [PAGE_SIZE] zero
    bytes. *)
Definition create_page_files (page_range_num page_num : Z) : M Store unit :=
  let* s := get in
  for_each (py_range 0 (total_num_columns s))
    (fun i => modify (fun s =>
       with_disk (<[(page_range_num, page_num, i) :=
                      replicate (Z.to_nat (PAGE_SIZE cfg)) x00]> (disk s)) s)).

(** [self.db.get_table(table_name).page_ranges_metadata[page_range_num][k]
    += 1] *)
Definition bump_metadata (page_range_num : Z) (tail : bool) : M Store unit :=
  let* s := get in
  let* (pr, bp, tp) :=
    from_option IndexError (py_nth (page_ranges_metadata s) page_range_num) in
  let* l := from_option IndexError
              (py_set (page_ranges_metadata s) page_range_num
                 (if tail then (pr, bp, tp + 1) else (pr, bp + 1, tp))) in
  put (with_page_ranges_metadata l s).

Definition Bufferpool_insert_base_page (page_range_num : Z) : M Store bool :=
  let* max_bp_num := Bufferpool_get_highest_base_page_num page_range_num in
  let* has_room :=
    (if negb (max_bp_num =? -1)
     then Bufferpool_page_has_capacity page_range_num max_bp_num
     else ret false) in
  if has_room then ret false
  else if max_bp_num =? MAX_BASE_PAGES - 1 then ret false
  else
    create_page_files page_range_num (max_bp_num + 1) ;;;
    bump_metadata page_range_num false ;;;
    ret true.

Definition Bufferpool_insert_tail_page (page_range_num : Z) : M Store bool :=
  let* tail_page_num := Bufferpool_get_highest_tail_page_num page_range_num in
  let* has_room :=
    (if negb (tail_page_num =? MAX_BASE_PAGES - 1)
     then Bufferpool_page_has_capacity page_range_num tail_page_num
     else ret false) in
  if has_room then ret false
  else
    let tail_page_num := tail_page_num + 1 in
    create_page_files page_range_num tail_page_num ;;;
    bump_metadata page_range_num true ;;;
    ret true.

Definition Bufferpool_pin_page (columns : list nat) : M Store unit :=
  for_each columns
    (fun p => at_page p (PhysicalPage_use_pin_count Pin_i) ;;; ret tt).

Definition Bufferpool_unpin_page (columns : list nat) : M Store unit :=
  for_each columns
    (fun p => at_page p (PhysicalPage_use_pin_count Pin_d) ;;; ret tt).

Definition Bufferpool_flush : M Store unit :=
  let* s := get in
  for_each (List.map fst (map_to_list (pages s)))
    Bufferpool_write_phys_page_to_disk ;;;
  modify (fun s => with_lru_pages [] (with_pages ∅ s)).

(** [write_page_to_disk]: each data column file is renamed to
    [old_col<i>_<tps>] and written anew. *)
Definition Bufferpool_write_page_to_disk (page_range_num page_num : Z)
    (columns : list nat) : M Store unit :=
  for_each (py_range DATA_COL_START (Z.of_nat (length columns)))
    (fun i =>
       let col_file_name : path := (page_range_num, page_num, i) in
       let* rc := column columns RID_COLUMN in
       let* rid_page := deref rc in
       let* s := get in
       let* old := from_option FileNotFoundError (disk s !! col_file_name) in
       let* c := column columns i in
       let* physical_page := deref c in
       put (with_disk (<[col_file_name := data physical_page]> (disk s))
              (with_old_disk
                 (<[(col_file_name, tps rid_page) := old]> (old_disk s)) s))).


(** ** table.py: reading a version of a record *)

(** The [while version <= 0] loop of [get_record_version] and of
    [get_record_column_version]: it returns the RID it stops at.  Each
    round increments [version], so [1 - version] rounds are enough. *)
Fixpoint follow_indirection (fuel : nat) (rid version : Z) : M Store Z :=
  if version <=? 0 then
    match fuel with
    | O => raise OutOfFuel
    | S fuel' =>
        let* indirection :=
          Bufferpool_get_record_column_val rid INDIRECTION_COLUMN in
        if indirection =? INDIRECTION_NULL cfg then ret rid
        else follow_indirection fuel' indirection (version + 1)
    end
  else ret rid.

Definition Table_get_record_version (rid version : Z)
    : M Store (option record) :=
  let* s := get in
  match page_directory s !! rid with
  | None => ret None
  | Some (base_page_range_num, base_page_num, base_offset) =>
      if base_page_num >=? MAX_BASE_PAGES then ret None
      else
        let* indirection :=
          Bufferpool_get_record_column_val rid INDIRECTION_COLUMN in
        let* tps := Bufferpool_get_tps base_page_range_num base_page_num in
        if indirection <=? tps then
          let* r := Bufferpool_get_record rid in ret (Some r)
        else
          let* rid' := follow_indirection (Z.to_nat (1 - version)) rid version in
          let* r := Bufferpool_get_record rid' in
          ret (Some r)
  end.

Definition Table_get_latest_record (rid : Z) : M Store (option record) :=
  Table_get_record_version rid 0.

Definition Table_get_record_column_version (rid version column : Z)
    : M Store (option Z) :=
  let* loc := Table_use_page_directory_r rid in
  match loc with
  | None => ret None
  | Some (base_page_range_num, base_page_num, base_offset) =>
      if base_page_num >=? MAX_BASE_PAGES then ret None
      else
        let* indirection :=
          Bufferpool_get_record_column_val rid INDIRECTION_COLUMN in
        let* tps := Bufferpool_get_tps base_page_range_num base_page_num in
        if indirection <=? tps then
          let* v := Bufferpool_get_record_column_val rid column in ret (Some v)
        else
          let* rid' := follow_indirection (Z.to_nat (1 - version)) rid version in
          let* v := Bufferpool_get_record_column_val rid' column in
          ret (Some v)
  end.

Definition Table_get_latest_column_val (rid column : Z) : M Store (option Z) :=
  Table_get_record_column_version rid 0 column.

(** [obj.pin_count += d] and [obj.is_dirty = True], written to the
    fields directly. *)
Definition bump_pin_count (r : nat) (d : Z) : M Store unit :=
  at_page r (modify (fun p => pp_with_pin_count (pin_count p + d) p)).

Definition mark_dirty (r : nat) : M Store unit :=
  at_page r (modify (pp_with_is_dirty true)).

Definition Table_delete_record (rid : Z) : M Store (option Z) :=
  let* loc := Table_use_page_directory_r rid in
  match loc with
  | None => ret None
  | Some (page_range_num, page_num, offset) =>
      let* rid_page :=
        Bufferpool_get_physical_page page_range_num page_num RID_COLUMN in
      bump_pin_count rid_page 1 ;;;
      at_page rid_page (PhysicalPage_change_val (INDIRECTION_NULL cfg) offset) ;;;
      let* indirection_val :=
        Bufferpool_get_record_column_val rid INDIRECTION_COLUMN in
      Table_use_page_directory_d rid ;;;
      mark_dirty rid_page ;;;
      bump_pin_count rid_page (-1) ;;;
      ret (Some indirection_val)
  end.

Definition Table_change_indirection (tail_rid base_rid : Z) : M Store bool :=
  let* loc := Table_use_page_directory_r base_rid in
  match loc with
  | None => ret false
  | Some (page_range_num, page_num, offset) =>
      if page_num <? MAX_BASE_PAGES then
        let* base_page_indirection :=
          Bufferpool_get_physical_page page_range_num page_num
            INDIRECTION_COLUMN in
        bump_pin_count base_page_indirection 1 ;;;
        at_page base_page_indirection (PhysicalPage_change_val tail_rid offset) ;;;
        mark_dirty base_page_indirection ;;;
        bump_pin_count base_page_indirection (-1) ;;;
        ret true
      else ret false
  end.

(** The [for i in range(self.num_columns)] of [update_schema_encoding]:
    one bit per column, set where the two vectors differ. *)
Fixpoint schema_bits (idxs : list Z) (columns updated_cols : list Z) (acc : Z)
    : option Z :=
  match idxs with
  | [] => Some acc
  | i :: idxs' =>
      match py_nth columns i, py_nth updated_cols i with
      | Some c, Some u =>
          let acc := Z.shiftl acc 1 in
          schema_bits idxs' columns updated_cols
            (if negb (c =? u) then Z.lor acc 1 else acc)
      | _, _ => None
      end
  end.

Definition Table_update_schema_encoding (base_rid old_schema : Z)
    (columns updated_cols : list Z) : M Store bool :=
  if Nat.eqb (length columns) 0 then ret true
  else
    let* loc := Table_use_page_directory_r base_rid in
    match loc with
    | None => ret false
    | Some (page_range_num, page_num, offset) =>
        if page_range_num <? MAX_BASE_PAGES then
          let* base_page_schema_encoding :=
            Bufferpool_get_physical_page page_range_num page_num
              SCHEMA_ENCODING_COLUMN in
          bump_pin_count base_page_schema_encoding 1 ;;;
          let* s := get in
          let* new_schema :=
            from_option IndexError
              (schema_bits (py_range 0 (num_columns s)) columns updated_cols 0) in
          let new_schema := Z.lor new_schema old_schema in
          at_page base_page_schema_encoding
            (PhysicalPage_change_val new_schema offset) ;;;
          mark_dirty base_page_schema_encoding ;;;
          bump_pin_count base_page_schema_encoding (-1) ;;;
          ret true
        else ret false
    end.

(** ** index.py

    An index is the dictionary from a column value to the list of base
    RIDs; [locate] answers [-1], here [None], when there is no index on
    the column or no entry for the value. *)

(** [self.indices[column]] *)
Definition index_of (column : Z) : M Store (option (gmap Z (list Z))) :=
  let* s := get in
  from_option IndexError (py_nth (indices s) column).

(** [self.indices[column] = v] *)
Definition set_index_of (column : Z) (v : option (gmap Z (list Z)))
    : M Store unit :=
  let* s := get in
  let* l := from_option IndexError (py_set (indices s) column v) in
  put (with_indices l s).

Definition Index_is_indexed (column : Z) : M Store bool :=
  let* ix := index_of column in
  ret (match ix with Some _ => true | None => false end).

Definition Index_get_all_base_rids : M Store (option (list Z)) :=
  let* s := get in
  let* ix := index_of (table_key s + DATA_COL_START) in
  match ix with
  | None => ret None
  | Some d => ret (Some (List.concat (List.map snd (map_to_list d))))
  end.

Definition Index_locate (column value : Z) : M Store (option (list Z)) :=
  let* ix := index_of column in
  match ix with
  | None => ret None
  | Some d => ret (d !! value)
  end.

Definition Index_locate_range (begin end_ column : Z)
    : M Store (option (list Z)) :=
  let* ix := index_of column in
  match ix with
  | None => ret None
  | Some d =>
      ret (Some (List.concat
                   (List.map (fun i => default [] (d !! i))
                      (py_range begin (end_ + 1)))))
  end.

Definition Index_drop_index (column_number : Z) : M Store unit :=
  set_index_of column_number None.

(** [d[key].append(value)], or [d[key] = [value]] for a new key *)
Definition dict_append (key value : Z) (d : gmap Z (list Z))
    : gmap Z (list Z) :=
  match d !! key with
  | None => <[key := [value]]> d
  | Some l => <[key := l ++ [value]]> d
  end.

(** [__index_base_page_data] *)
Definition Index_index_base_page_data (rids : list Z) (column_number : Z)
    : M Store unit :=
  for_each rids (fun rid =>
    let* col_val := Table_get_latest_column_val rid column_number in
    match col_val with
    | None => ret tt
    | Some v =>
        let* ix := index_of column_number in
        match ix with
        | None => raise AttributeError
        | Some d => set_index_of column_number (Some (dict_append v rid d))
        end
    end).

Definition Index_create_index (column_number : Z) : M Store unit :=
  set_index_of column_number (Some ∅) ;;;
  let* s := get in
  for_each (py_range 0 (num_page_ranges s)) (fun pr_num =>
    let* max_num_bp := Bufferpool_get_highest_base_page_num pr_num in
    for_each (py_range 0 (max_num_bp + 1)) (fun bp_num =>
      let* rids_page := Bufferpool_get_physical_page pr_num bp_num RID_COLUMN in
      bump_pin_count rids_page 1 ;;;
      let* rids := at_page rids_page PhysicalPage_data_to_int_array in
      Index_index_base_page_data rids column_number ;;;
      bump_pin_count rids_page (-1))).

Definition Index_update_index (column_number old_value new_value base_rid : Z)
    : M Store bool :=
  let* s := get in
  let* ix := index_of column_number in
  let* pk := index_of (table_key s + DATA_COL_START) in
  match ix, pk with
  | Some d, Some _ =>
      let* l := from_option KeyError (d !! old_value) in
      let* l' := from_option ValueError (list_remove base_rid l) in
      let d1 := if Nat.eqb (length l') 0 then delete old_value d
                else <[old_value := l']> d in
      set_index_of column_number (Some (dict_append new_value base_rid d1)) ;;;
      ret true
  | _, _ => ret false
  end.

(** [add] returns [False] without an index and [None] otherwise. *)
Definition Index_add (column key value : Z) : M Store pyval :=
  let* ix := index_of column in
  match ix with
  | None => ret (PyBool false)
  | Some d => set_index_of column (Some (dict_append key value d)) ;;;
              ret PyNone
  end.


(** [delete_index]: the first occurrence of [base_rid] leaves the list
    of every index that holds the key of its column; a list that is empty
    afterwards leaves the index.  A [bytearray] is no dictionary key. *)
Definition Index_delete_index (possible_keys : list array_item)
    (base_rid : Z) : M Store unit :=
  for_each (enumerate 0 possible_keys) (fun '(i, key) =>
    let* ix := index_of i in
    match ix with
    | None => ret tt
    | Some d =>
        match key with
        | ItemBytes _ => raise TypeError
        | ItemInt k =>
            match d !! k with
            | None => ret tt
            | Some l =>
                let l' := default l (list_remove base_rid l) in
                set_index_of i
                  (Some (if Nat.eqb (length l') 0 then delete k d
                         else <[k := l']> d))
            end
        end
    end).


(** ** table.py: scan and merge *)

Fixpoint concat_map_m {St A B} (f : A -> M St (list B)) (xs : list A)
    : M St (list B) :=
  match xs with
  | [] => ret []
  | x :: xs' =>
      let* ys := f x in let* zs := concat_map_m f xs' in ret (ys ++ zs)
  end.

(** [scan]: the records it collects are what [get_record_version]
    returns, [None] included. *)
Definition Table_scan (search_key column_num version : Z)
    : M Store (list (option record)) :=
  let* n := Table_use_num_page_ranges_r in
  concat_map_m (fun pr_num =>
    let* max_bp_num := Bufferpool_get_highest_base_page_num pr_num in
    concat_map_m (fun bp_num =>
      let* base_page_rids :=
        Bufferpool_get_physical_page pr_num bp_num RID_COLUMN in
      bump_pin_count base_page_rids 1 ;;;
      let* rids := at_page base_page_rids PhysicalPage_data_to_int_array in
      let* found :=
        concat_map_m (fun r =>
          let* col_val := Table_get_record_column_version r version column_num in
          if bool_decide (col_val = Some search_key)
          then let* rc := Table_get_record_version r version in ret [rc]
          else ret []) rids in
      bump_pin_count base_page_rids (-1) ;;;
      ret found) (py_range 0 (max_bp_num + 1))) (py_range 0 n).

(** The [for i in range(len(tids) - 1, -1, -1)] of [__merge_helper].
    [updated_rids] is never written after its initialisation. *)
Fixpoint merge_entries (idxs : list Z) (tids : list Z)
    (tail_page base_page : list nat) (updated_rids : gmap Z bool)
    (num_updates max_tid : Z) : M Store (Z * Z) :=
  match idxs with
  | [] => ret (num_updates, max_tid)
  | i :: idxs' =>
      let* ti := from_option IndexError (py_nth tids i) in
      let max_tid := Z.max ti max_tid in
      let* s := get in
      let* kc := column tail_page (table_key s + NUM_METADATA_COLS) in
      let* primary_key := at_page kc (PhysicalPage_read_val i) in
      let* located := Index_locate (table_key s + NUM_METADATA_COLS) primary_key in
      let* l := from_option TypeError located in
      let* base_rid := from_option IndexError (py_nth l 0) in
      match updated_rids !! base_rid with
      | Some false =>
          let* (pr_num, page_num, offset) := unpack_location base_rid in
          for_each (py_range DATA_COL_START (Z.of_nat (length tail_page)))
            (fun j =>
               let* tc := column tail_page j in
               let* latest_col_val := at_page tc (PhysicalPage_read_val offset) in
               let* bc := column base_page j in
               at_page bc (PhysicalPage_change_val latest_col_val offset)) ;;;
          merge_entries idxs' tids tail_page base_page updated_rids
            (num_updates + 1) max_tid
      | _ =>
          merge_entries idxs' tids tail_page base_page updated_rids
            num_updates max_tid
      end
  end.

(** The [while current_tp_num >= MAX_BASE_PAGES] of [__merge_helper]: it
    returns [max_tid].  The page it fetches is [max_tp_num] in every
    round.  [current_tp_num - (MAX_BASE_PAGES - 1)] rounds are enough. *)
Fixpoint merge_loop (fuel : nat) (page_range_num max_tp_num : Z)
    (base_page : list nat) (updated_rids : gmap Z bool)
    (current_tp_num num_updates max_tid : Z) : M Store Z :=
  if current_tp_num >=? MAX_BASE_PAGES then
    match fuel with
    | O => raise OutOfFuel
    | S fuel' =>
        let* tail_page := Bufferpool_get_page_no_add page_range_num max_tp_num in
        let* tids := Page_get_rids_in_page tail_page in
        let* t0 := from_option IndexError (py_nth tids 0) in
        let max_tid := Z.max t0 max_tid in
        let* rc := column base_page RID_COLUMN in
        let* rid_page := deref rc in
        if t0 <? tps rid_page then ret max_tid
        else
          let* (num_updates, max_tid) :=
            merge_entries (rev (py_range 0 (Z.of_nat (length tids)))) tids
              tail_page base_page updated_rids num_updates max_tid in
          let* c0 := column base_page 0 in
          let* p0 := deref c0 in
          if num_updates =? num_records p0 then ret max_tid
          else merge_loop fuel' page_range_num max_tp_num base_page
                 updated_rids (current_tp_num - 1) num_updates max_tid
    end
  else ret max_tid.

Definition Table_merge_helper (page_range_num base_page_num : Z)
    : M Store unit :=
  let* original_base_page :=
    Bufferpool_get_page_no_add page_range_num base_page_num in
  Bufferpool_pin_page original_base_page ;;;
  let* base_page := Page_create_copy original_base_page in
  let* rids := Page_get_rids_in_page base_page in
  let updated_rids : gmap Z bool :=
    fold_left (fun m r => <[r := false]> m) rids ∅ in
  let* max_tp_num := Bufferpool_get_highest_tail_page_num page_range_num in
  let* partial := Bufferpool_page_has_capacity page_range_num max_tp_num in
  let max_tp_num := if partial then max_tp_num - 1 else max_tp_num in
  if partial && (max_tp_num =? MAX_BASE_PAGES - 1) then ret tt
  else
    let* max_tid :=
      merge_loop (Z.to_nat (max_tp_num - (MAX_BASE_PAGES - 1)))
        page_range_num max_tp_num base_page updated_rids max_tp_num 0 0 in
    let* rc := column base_page RID_COLUMN in
    let* rid_page := deref rc in
    (if max_tid >? tps rid_page then
       let* bs := encode false max_tid in
       at_page rc (modify (fun p =>
         pp_with_tps max_tid
           (pp_with_data (py_slice_assign (data p) TPS_START TPS_END bs) p)))
     else ret tt) ;;;
    Bufferpool_write_page_to_disk page_range_num base_page_num base_page ;;;
    Bufferpool_unpin_page original_base_page.

(** [merge]: the queue is drained from the front; [__merge_helper] adds
    nothing to it, so its length bounds the rounds. *)
Fixpoint Table_merge_loop (fuel : nat) : M Store unit :=
  let* s := get in
  match merge_queue s with
  | [] => ret tt
  | (page_range_num, base_page_num) :: _ =>
      match fuel with
      | O => raise OutOfFuel
      | S fuel' =>
          Table_merge_helper page_range_num base_page_num ;;;
          modify (fun s => with_merge_queue (tail (merge_queue s)) s) ;;;
          Table_merge_loop fuel'
      end
  end.

Definition Table_merge : M Store unit :=
  let* s := get in
  Table_merge_loop (length (merge_queue s)).


(** ** query.py *)

(** [obj.num_records += 1], written to the field directly. *)
Definition bump_num_records (r : nat) : M Store unit :=
  at_page r (modify (fun p => pp_with_num_records (num_records p + 1) p)).

(** [columns[0].num_records] *)
Definition first_num_records (columns : list nat) : M Store Z :=
  let* c := column columns 0 in
  let* p := deref c in
  ret (num_records p).

(** [insert]: the columns of the new record.  A call that comes through a transaction carries
    the RID that the transaction allocated as one more argument. *)
Definition Query_insert (columns : list Z) : M Store bool :=
  let* s := get in
  let* indexed := Index_is_indexed (DATA_COL_START + table_key s) in
  let* duplicate :=
    (if indexed then
       let* inserted_primary_key :=
         from_option IndexError (py_nth columns (table_key s)) in
       let* rids := Index_locate (DATA_COL_START + table_key s)
                      inserted_primary_key in
       ret (bool_decide (rids <> None))
     else ret false) in
  if duplicate then ret false
  else
    let* (columns, rid) :=
      (if Z.of_nat (length columns) >? num_columns s then
         let* last := from_option IndexError (py_nth columns (-1)) in
         ret (removelast columns, last)
       else
         let* n := Table_use_num_records Op_p in ret (columns, n)) in
    let* key0 := from_option IndexError (py_nth columns 0) in
    let* rec := Record_init rid key0 columns in
    let* page_range_num := Table_use_num_page_ranges_r in
    let* (page_range_num, bp_num) :=
      (if page_range_num =? 0 then
         let* page_range_num := Bufferpool_create_page_range in
         Bufferpool_insert_base_page page_range_num ;;;
         Table_use_page_directory_w (rec_rid rec) (page_range_num, 0, 0) ;;;
         Index_create_index (DATA_COL_START + table_key s) ;;;
         ret (page_range_num, 0)
       else
         let* n := Table_use_num_page_ranges_r in
         let page_range_num := n - 1 in
         let* has_room := Bufferpool_page_range_has_capacity page_range_num in
         let* page_range_num :=
           (if negb has_room then
              let* page_range_num := Bufferpool_create_page_range in
              Bufferpool_insert_base_page page_range_num ;;;
              ret page_range_num
            else ret page_range_num) in
         let* bp_num := Bufferpool_get_highest_base_page_num page_range_num in
         let* phys_page :=
           Bufferpool_get_physical_page page_range_num bp_num 0 in
         let* page_room :=
           Bufferpool_page_has_capacity page_range_num bp_num in
         if negb page_room then
           Bufferpool_insert_base_page page_range_num ;;;
           ret (page_range_num, bp_num + 1)
         else ret (page_range_num, bp_num)) in
    let* base_page := Bufferpool_get_page page_range_num bp_num in
    Bufferpool_pin_page base_page ;;;
    let* offset := first_num_records base_page in
    for_each base_page bump_num_records ;;;
    Page_write base_page rec offset ;;;
    Table_use_page_directory_w (rec_rid rec) (page_range_num, bp_num, offset) ;;;
    for_each (enumerate 0 columns) (fun '(i, col) =>
      let* indexed := Index_is_indexed (i + DATA_COL_START) in
      if indexed then Index_add (i + DATA_COL_START) col (rec_rid rec) ;;; ret tt
      else ret tt) ;;;
    Bufferpool_unpin_page base_page ;;;
    ret true.

(** [for i, num in enumerate(projected_columns_index): if num == 1:
    column_return.append(record.columns[i])]; [None] is [IndexError]. *)
Fixpoint project (projected : list (Z * Z)) (columns : list Z)
    : option (list Z) :=
  match projected with
  | [] => Some []
  | (i, num) :: projected' =>
      if num =? 1 then
        match py_nth columns i, project projected' columns with
        | Some v, Some vs => Some (v :: vs)
        | _, _ => None
        end
      else project projected' columns
  end.

Definition project_record (projected_columns_index : list Z) (r : record)
    : M Store record :=
  let* column_return :=
    from_option IndexError
      (project (enumerate 0 projected_columns_index) (rec_columns r)) in
  ret (rec_with_columns column_return r).

(** The end of [select_version], from [rids = self.table.index.indices[
    ...].get(search_key, -1)] on: the answer read off the index. *)
Definition select_from_index (search_key search_key_index : Z)
    (projected_columns_index : list Z) (relative_version : Z)
    : M Store (list record) :=
  let* ix := index_of (search_key_index + DATA_COL_START) in
  let* d := from_option AttributeError ix in
  match d !! search_key with
  | None => ret []
  | Some rids =>
      concat_map_m (fun rid =>
        let* rc := Table_get_record_version rid relative_version in
        match rc with
        | None => ret []
        | Some r => let* r := project_record projected_columns_index r in
                    ret [r]
        end) rids
  end.

(** The branch of [select_version] that scans: every record [scan] found,
    projected. *)
Definition select_by_scan (search_key search_key_index : Z)
    (projected_columns_index : list Z) (relative_version : Z)
    : M Store (list record) :=
  let* records := Table_scan search_key
                    (search_key_index + DATA_COL_START) relative_version in
  map_m (fun rc =>
           let* r := from_option AttributeError rc in
           project_record projected_columns_index r) records.

Definition Query_select_version (search_key search_key_index : Z)
    (projected_columns_index : list Z) (relative_version : Z)
    : M Store (list record) :=
  let* ix := index_of (search_key_index + DATA_COL_START) in
  match ix with
  | None =>
      let* s := get in
      if CREATE_INDICES_CONDITION cfg =? 0 then raise ZeroDivisionError
      else if table_num_records s mod CREATE_INDICES_CONDITION cfg =? 0 then
        Index_create_index (search_key_index + DATA_COL_START) ;;;
        select_from_index search_key search_key_index
          projected_columns_index relative_version
      else
        select_by_scan search_key search_key_index
          projected_columns_index relative_version
  | Some _ =>
      select_from_index search_key search_key_index
        projected_columns_index relative_version
  end.

Definition Query_select (search_key search_key_index : Z)
    (projected_columns_index : list Z) : M Store (list record) :=
  Query_select_version search_key search_key_index projected_columns_index 0.

(** [__insert_to_tail_page].  The method stores the new RID in the
    record object it was given; the model hands the record back.  The
    merge worker that the last lines submit to a thread pool runs some
    time later and is [Table_merge]; here only the queue entry is made. *)
Definition Query_insert_to_tail_page (base_rid : Z) (columns : list Z)
    (updated_record : record) : M Store record :=
  let* (base_page_range_num, base_page_num, _) := unpack_location base_rid in
  let* rid := Table_use_num_records Op_p in
  let updated_record := rec_with_rid rid updated_record in
  let* tail_page_num :=
    Bufferpool_get_highest_tail_page_num base_page_range_num in
  let* full :=
    (if tail_page_num =? MAX_BASE_PAGES - 1 then ret true
     else let* room := Bufferpool_page_has_capacity base_page_range_num
                         tail_page_num in
          ret (negb room)) in
  let* tail_page_num :=
    (if full then
       Bufferpool_insert_tail_page base_page_range_num ;;;
       ret (tail_page_num + 1)
     else ret tail_page_num) in
  let* tail_page := Bufferpool_get_page base_page_range_num tail_page_num in
  Bufferpool_pin_page tail_page ;;;
  let* offset := first_num_records tail_page in
  for_each tail_page bump_num_records ;;;
  let* num_updates :=
    Bufferpool_get_num_updates base_page_range_num base_page_num in
  Bufferpool_set_num_updates base_page_range_num base_page_num
    (num_updates + 1) ;;;
  let num_updates := num_updates + 1 in
  Page_write tail_page updated_record offset ;;;
  Table_use_page_directory_w (rec_rid updated_record)
    (base_page_range_num, tail_page_num, offset) ;;;
  Table_change_indirection (rec_rid updated_record) base_rid ;;;
  let* old_schema :=
    Bufferpool_get_record_column_val base_rid SCHEMA_ENCODING_COLUMN in
  Table_update_schema_encoding base_rid old_schema columns
    (rec_columns updated_record) ;;;
  for_each (enumerate 0 columns) (fun '(i, col) =>
    let* indexed := Index_is_indexed (i + DATA_COL_START) in
    if indexed then
      let* new_value :=
        from_option IndexError (py_nth (rec_columns updated_record) i) in
      Index_update_index (i + DATA_COL_START) col new_value base_rid ;;; ret tt
    else ret tt) ;;;
  Bufferpool_unpin_page tail_page ;;;
  (if num_updates >? 0 then
     if MERGE_CONDITION cfg =? 0 then raise ZeroDivisionError
     else if num_updates mod MERGE_CONDITION cfg =? 0 then
       let* room := Bufferpool_page_has_capacity base_page_range_num
                      base_page_num in
       if negb room
       then Table_add_to_merge_queue (base_page_range_num, base_page_num)
       else ret tt
     else ret tt
   else ret tt) ;;;
  ret updated_record.

(** [updated_cols[i] = columns[i]] for the columns that are not [None] *)
Fixpoint apply_updates (columns : list (Z * option Z)) (updated_cols : list Z)
    : option (list Z) :=
  match columns with
  | [] => Some updated_cols
  | (i, None) :: columns' => apply_updates columns' updated_cols
  | (i, Some v) :: columns' =>
      match py_set updated_cols i v with
      | Some l => apply_updates columns' l
      | None => None
      end
  end.

Definition Query_update (primary_key : Z) (columns : list (option Z))
    : M Store bool :=
  let num_none := length (List.filter (fun c => bool_decide (c = None)) columns) in
  if Nat.eqb num_none (length columns) then ret true
  else
    let* s := get in
    let* rids := Index_locate (DATA_COL_START + table_key s) primary_key in
    match rids with
    | None => ret true
    | Some rids =>
        let* new_key := from_option IndexError (py_nth columns (table_key s)) in
        let* collision :=
          match new_key with
          | Some updated_primary_key =>
              if negb (updated_primary_key =? primary_key) then
                let* rid := Index_locate (DATA_COL_START + table_key s)
                              updated_primary_key in
                ret (bool_decide (rid <> None))
              else ret false
          | None => ret false
          end in
        if collision then ret false
        else
          let* rids := from_option IndexError (py_nth rids 0) in
          let* prev := Table_get_latest_record rids in
          let* base_record_indirection :=
            Bufferpool_get_record_column_val rids INDIRECTION_COLUMN in
          let* prev_record := from_option AttributeError prev in
          let* updated_cols :=
            from_option IndexError
              (apply_updates (enumerate 0 columns) (rec_columns prev_record)) in
          let* updated_record := Record_init (-1) primary_key updated_cols in
          let* updated_record :=
            (if base_record_indirection =? INDIRECTION_NULL cfg then
               let* base_copy :=
                 Record_init (-1) primary_key (rec_columns prev_record) in
               let base_copy := rec_with_indirection rids base_copy in
               let* base_copy := Query_insert_to_tail_page rids [] base_copy in
               ret (rec_with_indirection (rec_rid base_copy) updated_record)
             else
               ret (rec_with_indirection (rec_rid prev_record) updated_record)) in
          Query_insert_to_tail_page rids (rec_columns prev_record)
            updated_record ;;;
          ret true
    end.

(** The [while indirection_val != INDIRECTION_NULL and indirection_val !=
    rid] of [delete].  [delete_record] answers [None] for a RID that the
    page directory does not hold, [None] itself included, and the loop
    then never ends; [fuel] bounds its rounds. *)
Fixpoint delete_chain (fuel : nat) (indirection_val : option Z) (rid : Z)
    : M Store unit :=
  let go_on :=
    match indirection_val with
    | Some i => negb (i =? INDIRECTION_NULL cfg) && negb (i =? rid)
    | None => true
    end in
  if go_on then
    match fuel with
    | O => raise OutOfFuel
    | S fuel' =>
        let* v := match indirection_val with
                  | Some i => Table_delete_record i
                  | None => ret None
                  end in
        delete_chain fuel' v rid
    end
  else ret tt.

Definition Query_delete (fuel : nat) (primary_key : Z) : M Store bool :=
  let* s := get in
  let key_column := DATA_COL_START + table_key s in
  let* indexed := Index_is_indexed key_column in
  (if negb indexed then Index_create_index key_column else ret tt) ;;;
  let* rid := Index_locate key_column primary_key in
  match rid with
  | None => ret false
  | Some rid =>
      let* rid := from_option IndexError (py_nth rid 0) in
      let* latest_record := Table_get_latest_record rid in
      let* indirection_val := Table_delete_record rid in
      delete_chain fuel indirection_val rid ;;;
      let* latest_record := from_option AttributeError latest_record in
      Index_delete_index (Record_to_array latest_record) rid ;;;
      ret true
  end.

(** The [for key in range(start_range, end_range + 1)] of
    [sum_version]: the total and the number of keys found. *)
Fixpoint sum_keys (keys : list Z) (aggregate_column_index relative_version : Z)
    (total found_records : Z) : M Store (Z * Z) :=
  match keys with
  | [] => ret (total, found_records)
  | key :: keys' =>
      let* s := get in
      let* ix := index_of (DATA_COL_START + table_key s) in
      let* d := from_option AttributeError ix in
      match d !! key with
      | None =>
          sum_keys keys' aggregate_column_index relative_version
            total found_records
      | Some rid =>
          let* rid0 := from_option IndexError (py_nth rid 0) in
          let* v := Table_get_record_column_version rid0 relative_version
                      (aggregate_column_index + DATA_COL_START) in
          let* v := from_option TypeError v in
          sum_keys keys' aggregate_column_index relative_version
            (total + v) (found_records + 1)
      end
  end.

(** [sum_version]: [False] when no key of the range is in the index,
    the total otherwise. *)
Definition Query_sum_version (start_range end_range aggregate_column_index
    relative_version : Z) : M Store pyval :=
  let* (total, found_records) :=
    sum_keys (py_range start_range (end_range + 1)) aggregate_column_index
      relative_version 0 0 in
  if found_records =? 0 then ret (PyBool false) else ret (PyInt total).


(** [increment]: [select(...)[0]] is an [IndexError] when nothing
    matches; a record is never [False], so the last [return False] is
    out of reach. *)
Definition Query_increment (key column : Z) : M Store bool :=
  let* s := get in
  let* l := Query_select key (table_key s)
              (replicate (Z.to_nat (num_columns s)) 1) in
  let* r := from_option IndexError (py_nth l 0) in
  let* c := from_option IndexError (py_nth (rec_columns r) column) in
  let* updated_columns :=
    from_option IndexError
      (py_set (replicate (Z.to_nat (num_columns s)) None) column
         (Some (c + 1))) in
  Query_update key updated_columns.


(** ** transaction.py *)

(** An argument of a query call: an integer, [None], or a list of
    integers (the projection of a select). *)
Inductive arg : Type :=
  | AInt (z : Z)
  | ANone
  | AList (l : list Z).

(** What a query hands back: [True]/[False], a sum, or a list of
    records. *)
Inductive qresult : Type :=
  | QVal (v : pyval)
  | QRecords (l : list record).

Definition qtruthy (r : qresult) : bool :=
  match r with
  | QVal v => truthy v
  | QRecords l => negb (Nat.eqb (length l) 0)
  end.

(** A bound method of a [Query] object: its [__name__] and what a call
    does to the table it is bound to. *)
Record query : Type := mkQuery {
  query_name : string;
  query_call : list arg -> M Store qresult
}.

Definition int_arg {St} (a : arg) : M St Z :=
  match a with
  | AInt z => ret z
  | _ => raise TypeError
  end.

(** The methods of [Query] as a transaction sees them. *)
Definition insert_method : query :=
  {| query_name := "insert";
     query_call := fun args =>
       let* columns := map_m int_arg args in
       let* b := Query_insert columns in
       ret (QVal (PyBool b)) |}.

Definition update_method : query :=
  {| query_name := "update";
     query_call := fun args =>
       match args with
       | [] => raise TypeError
       | primary_key :: columns =>
           let* primary_key := int_arg primary_key in
           let* columns :=
             map_m (fun a => match a with
                             | AInt z => ret (Some z)
                             | ANone => ret None
                             | AList _ => raise TypeError
                             end) columns in
           let* b := Query_update primary_key columns in
           ret (QVal (PyBool b))
       end |}.


Definition select_version_method : query :=
  {| query_name := "select_version";
     query_call := fun args =>
       match args with
       | [search_key; search_key_index; AList projected; relative_version] =>
           let* search_key := int_arg search_key in
           let* search_key_index := int_arg search_key_index in
           let* relative_version := int_arg relative_version in
           let* l := Query_select_version search_key search_key_index
                       projected relative_version in
           ret (QRecords l)
       | _ => raise TypeError
       end |}.

(** [delete]; [fuel] bounds the rounds of its loop. *)
Definition delete_method (fuel : nat) : query :=
  {| query_name := "delete";
     query_call := fun args =>
       match args with
       | [primary_key] =>
           let* primary_key := int_arg primary_key in
           let* b := Query_delete fuel primary_key in
           ret (QVal (PyBool b))
       | _ => raise TypeError
       end |}.


Definition sum_version_method : query :=
  {| query_name := "sum_version";
     query_call := fun args =>
       match args with
       | [start_range; end_range; aggregate_column_index; relative_version] =>
           let* start_range := int_arg start_range in
           let* end_range := int_arg end_range in
           let* aggregate_column_index := int_arg aggregate_column_index in
           let* relative_version := int_arg relative_version in
           let* v := Query_sum_version start_range end_range
                       aggregate_column_index relative_version in
           ret (QVal v)
       | _ => raise TypeError
       end |}.

Definition increment_method : query :=
  {| query_name := "increment";
     query_call := fun args =>
       match args with
       | [key; column] =>
           let* key := int_arg key in
           let* column := int_arg column in
           let* b := Query_increment key column in
           ret (QVal (PyBool b))
       | _ => raise TypeError
       end |}.

(** The state a transaction works on: the table with its buffer pool
    ([store]), [table.lock_manager] and [table.num_transactions]. *)
Record TxnState : Type := mkTxnState {
  store : Store;
  lock_manager : LockManager;
  num_transactions : Z
}.

Definition on_store {A} (m : M Store A) : M TxnState A :=
  zoom store (fun st s => {| store := st; lock_manager := lock_manager s;
                             num_transactions := num_transactions s |}) m.

Definition on_lock_manager {A} (m : M LockManager A) : M TxnState A :=
  zoom lock_manager
    (fun lm s => {| store := store s; lock_manager := lm;
                    num_transactions := num_transactions s |}) m.

(** [use_num_transactions("w")] *)
Definition Table_use_num_transactions_w : M TxnState Z :=
  fun s => Ok (num_transactions s + 1)
              {| store := store s; lock_manager := lock_manager s;
                 num_transactions := num_transactions s + 1 |}.

Definition LockManager_acquire_shared (rids : list Z) (id : txn_id)
    : M TxnState bool :=
  on_lock_manager (fun lm => let '(b, lm') := acquire_shared_lock rids id lm in
                             Ok b lm').

Definition LockManager_acquire_exclusive (rids : list Z) (id : txn_id)
    : M TxnState bool :=
  on_lock_manager (fun lm => let '(b, lm') := acquire_exclusive_lock rids id lm in
                             Ok b lm').

Record Transaction : Type := mkTransaction {
  queries : list (query * list arg);
  id : txn_id
}.

Definition Transaction_init : Transaction := {| queries := []; id := None |}.

Definition Transaction_add_query (q : query) (args : list arg)
    (t : Transaction) : M TxnState Transaction :=
  let qs := queries t ++ [(q, args)] in
  match id t with
  | None => let* n := Table_use_num_transactions_w in
            ret {| queries := qs; id := Some n |}
  | Some _ => ret {| queries := qs; id := id t |}
  end.

(** ["needle" in haystack] *)
Fixpoint contains (needle haystack : string) : bool :=
  if String.prefix needle haystack then true
  else match haystack with
       | EmptyString => false
       | String _ rest => contains needle rest
       end.

(** The answers of the lock acquisition helpers: [True], [False], or
    [-1] for an integrity violation. *)
Definition lock_true : pyval := PyBool true.
Definition lock_false : pyval := PyBool false.
Definition integrity_violation : pyval := PyInt (-1).

Definition arg_at {St} (args : list arg) (i : Z) : M St arg :=
  from_option IndexError (py_nth args i).

(** [index.locate(column, value)] for a value taken from an argument
    tuple: [None] is never a key of an index, a list cannot be one. *)
Definition locate_arg (column : Z) (value : arg) : M Store (option (list Z)) :=
  match value with
  | AInt z => Index_locate column z
  | ANone => let* ix := index_of column in ret None
  | AList _ => let* ix := index_of column in
               match ix with None => ret None | Some _ => raise TypeError end
  end.

Definition Transaction_acquire_lock_for_select (t : Transaction)
    (args : list arg) : M TxnState pyval :=
  let* search_column := arg_at args SELECT_SEARCH_KEY_COL_ARG in
  let* search_key := arg_at args SELECT_SEARCH_KEY_ARG in
  let* search_column := int_arg search_column in
  let* indexed := on_store (Index_is_indexed (search_column + DATA_COL_START)) in
  let* rids :=
    (if indexed
     then on_store (locate_arg (search_column + DATA_COL_START) search_key)
     else on_store Index_get_all_base_rids) in
  match rids with
  | None => ret lock_true
  | Some rids =>
      let* ok := LockManager_acquire_shared rids (id t) in
      ret (PyBool ok)
  end.

Definition Transaction_acquire_lock_for_sum (t : Transaction)
    (args : list arg) : M TxnState pyval :=
  let* start := arg_at args SUM_START_RANGE_ARG in
  let* end_ := arg_at args SUM_END_RANGE_ARG in
  let* s := get in
  let* ix := on_store (index_of (table_key (store s) + DATA_COL_START)) in
  match ix with
  | None => ret lock_true
  | Some _ =>
      let* start := int_arg start in
      let* end_ := int_arg end_ in
      let* rids := on_store (Index_locate_range start end_
                               (table_key (store s) + DATA_COL_START)) in
      match rids with
      | None => ret lock_true
      | Some rids =>
          let* ok := LockManager_acquire_shared rids (id t) in
          ret (PyBool ok)
      end
  end.

(** [__acquire_lock_for_insert]: on success the RID is appended to the
    arguments of the query, so the transaction is handed back too. *)
Definition Transaction_acquire_lock_for_insert (t : Transaction)
    (query_index : Z) : M TxnState (pyval * Transaction) :=
  let* s := get in
  let key_column := DATA_COL_START + table_key (store s) in
  let* indexed := on_store (Index_is_indexed key_column) in
  let* (q, args) := from_option IndexError (py_nth (queries t) query_index) in
  let* duplicate :=
    (if indexed then
       let* inserted_primary_key := arg_at args (table_key (store s)) in
       let* rids := on_store (locate_arg key_column inserted_primary_key) in
       ret (bool_decide (rids <> None))
     else ret false) in
  if duplicate then ret (integrity_violation, t)
  else
    let* rid := on_store (Table_use_num_records Op_p) in
    let* ok := LockManager_acquire_exclusive [rid] (id t) in
    if negb ok then ret (lock_false, t)
    else
      let* qs := from_option IndexError
                   (py_set (queries t) query_index (q, args ++ [AInt rid])) in
      ret (lock_true, {| queries := qs; id := id t |}).

(** [value != None and value != primary_key] on two arguments *)
Definition changes_key (updated_primary_key primary_key : arg) : bool :=
  match updated_primary_key, primary_key with
  | ANone, _ => false
  | AInt u, AInt p => negb (u =? p)
  | AList u, AList p => negb (bool_decide (u = p))
  | _, _ => true
  end.

Definition Transaction_acquire_lock_for_update (t : Transaction)
    (args : list arg) : M TxnState pyval :=
  let* primary_key := arg_at args UPDATE_PRIMARY_KEY_ARG in
  let* s := get in
  let key_column := table_key (store s) + DATA_COL_START in
  let* updated_primary_key :=
    arg_at args (table_key (store s) + UPDATE_PRIMARY_KEY_ARG + 1) in
  let* r :=
    (if changes_key updated_primary_key primary_key then
       let* rid := on_store (locate_arg key_column updated_primary_key) in
       match rid with
       | Some _ => ret (inl integrity_violation)
       | None => ret (inr None)
       end
     else
       let* rid := on_store (locate_arg key_column primary_key) in
       ret (inr rid)) in
  match r with
  | inl v => ret v
  | inr None => ret lock_true
  | inr (Some rid) =>
      let* ok := LockManager_acquire_exclusive rid (id t) in
      ret (PyBool ok)
  end.

Definition Transaction_acquire_lock_for_delete (t : Transaction)
    (args : list arg) : M TxnState pyval :=
  let* primary_key := arg_at args DELETE_PRIMARY_KEY_ARG in
  let* s := get in
  let* rid := on_store (locate_arg (table_key (store s) + DATA_COL_START)
                          primary_key) in
  match rid with
  | None => ret lock_true
  | Some rid =>
      let* ok := LockManager_acquire_exclusive rid (id t) in
      ret (PyBool ok)
  end.

(** [__acquire_all_locks]: [for i, query_and_args in
    enumerate(self.queries)], from query [i] on. *)
Fixpoint acquire_from (n : nat) (i : Z) (t : Transaction)
    : M TxnState (pyval * Transaction) :=
  match n with
  | O => ret (lock_true, t)
  | S n' =>
      let* (q, args) := from_option IndexError (py_nth (queries t) i) in
      let operation := query_name q in
      let* (lock_success, t) :=
        (if contains "select" operation then
           let* v := Transaction_acquire_lock_for_select t args in ret (v, t)
         else if contains "sum" operation then
           let* v := Transaction_acquire_lock_for_sum t args in ret (v, t)
         else if contains "insert" operation then
           Transaction_acquire_lock_for_insert t i
         else if contains "update" operation then
           let* v := Transaction_acquire_lock_for_update t args in ret (v, t)
         else if contains "delete" operation then
           let* v := Transaction_acquire_lock_for_delete t args in ret (v, t)
         else ret (lock_true, t)) in
      if py_eq lock_success lock_false then ret (lock_false, t)
      else if py_eq lock_success integrity_violation
                && negb (contains "select" operation)
                && negb (contains "sum" operation)
           then ret (integrity_violation, t)
      else acquire_from n' (i + 1) t
  end.

Definition Transaction_acquire_all_locks (t : Transaction)
    : M TxnState (pyval * Transaction) :=
  acquire_from (length (queries t)) 0 t.

(** [self.table.lock_manager.release_held_locks(self.id)]: [self.table]
    is [None], as [self.id] is, until the first [add_query]. *)
Definition Transaction_release (t : Transaction) : M TxnState unit :=
  match id t with
  | None => raise AttributeError
  | Some _ => on_lock_manager (release_held_locks (id t))
  end.

Definition Transaction_abort (t : Transaction) : M TxnState pyval :=
  Transaction_release t ;;; ret (PyBool false).

Definition Transaction_commit (t : Transaction) : M TxnState pyval :=
  Transaction_release t ;;; ret (PyBool true).

(** The [for query, args in self.queries] of [run]: [false] when a query
    answered something falsy. *)
Fixpoint run_queries (qs : list (query * list arg)) : M TxnState bool :=
  match qs with
  | [] => ret true
  | (q, args) :: qs' =>
      let* r := on_store (query_call q args) in
      if negb (qtruthy r) then ret false else run_queries qs'
  end.

(** [run]: the result and the transaction object as the call leaves it. *)
Definition Transaction_run (t : Transaction)
    : M TxnState (pyval * Transaction) :=
  let* (got_all_locks, t) := Transaction_acquire_all_locks t in
  if py_eq got_all_locks (PyBool false) then
    let* v := Transaction_abort t in ret (v, t)
  else if py_eq got_all_locks (PyInt (-1)) then
    Transaction_release t ;;;
    ret (PyInt (-1), t)
  else
    let* ok := run_queries (queries t) in
    if ok then let* v := Transaction_commit t in ret (v, t)
    else Transaction_abort t ;;; ret (PyInt (-1), t).

(** ** transaction_worker.py *)

Record TransactionWorker : Type := mkTransactionWorker {
  stats : list bool;
  transactions : list Transaction;
  result : Z
}.

(** [TransactionWorker(transactions)] *)
Definition TransactionWorker_init (ts : list Transaction) : TransactionWorker :=
  {| stats := []; transactions := ts; result := 0 |}.

Definition TransactionWorker_add_transaction (t : Transaction)
    (w : TransactionWorker) : TransactionWorker :=
  {| stats := stats w; transactions := transactions w ++ [t];
     result := result w |}.

(** The [while True] around [transaction.run()]: it hands back the
    entries it appended to [self.stats] and the transaction.  [fuel]
    bounds the number of runs; the Python loop has no bound. *)
Fixpoint retry (fuel : nat) (t : Transaction) (appended : list bool)
    : M TxnState (list bool * Transaction) :=
  match fuel with
  | O => raise OutOfFuel
  | S fuel' =>
      let* (val, t) := Transaction_run t in
      if truthy val then ret (appended, t)
      else if py_eq val (PyInt (-1)) then ret (appended ++ [false], t)
      else retry fuel' t (appended ++ [false])
  end.

(** [__run], the body of the worker thread; [run()] followed by
    [join()] is this function run to its end. *)
Fixpoint worker_loop (fuel : nat) (ts : list Transaction) (st : list bool)
    : M TxnState (list bool * list Transaction) :=
  match ts with
  | [] => ret (st, [])
  | t :: ts' =>
      let* (appended, t) := retry fuel t [] in
      let st := st ++ appended ++ [true] in
      let* (st, ts') := worker_loop fuel ts' st in
      ret (st, t :: ts')
  end.

Definition TransactionWorker_run (fuel : nat) (w : TransactionWorker)
    : M TxnState TransactionWorker :=
  let* (st, ts) := worker_loop fuel (transactions w) (stats w) in
  ret {| stats := st; transactions := ts;
         result := Z.of_nat (length (List.filter (fun x => x) st)) |}.


(** ** db.py: a database with one table

    [Database()] followed by [create_table(name, num_columns, key_index)]:
    an empty buffer pool of [BUFFERPOOL_SIZE] pages, no files, no page
    range, no index.  [clk] is what the wall clock will show. *)
Definition Store_init (n_columns key_index : Z) (clk : nat -> Z) : Store :=
  {| heap := []; disk := ∅; old_disk := ∅; fetch_log := [];
     clock := clk; ticks := 0%nat;
     pages := ∅; max_capacity := BUFFERPOOL_SIZE cfg; lru_pages := [];
     evict_lock := false; page_locks := ∅;
     table_key := key_index; num_columns := n_columns;
     page_directory := ∅; num_page_ranges := 0; page_ranges_metadata := [];
     indices := replicate (Z.to_nat (n_columns + NUM_METADATA_COLS)) None;
     table_num_records := 0; merge_queue := [] |}.

Definition TxnState_init (n_columns key_index : Z) (clk : nat -> Z) : TxnState :=
  {| store := Store_init n_columns key_index clk;
     lock_manager := LockManager_init;
     num_transactions := 0 |}.

End Model.

Set Warnings "-clear-no-such-hyp".

(** * Predicates and concrete runs *)

(** [keeps I m]: a run of [m] that returns leaves [I] in place. *)
Definition keeps {St} (I : St → Prop) {A} (m : M St A) : Prop :=
  ∀ s a s', I s → m s = Ok a s' → I s'.

#[global] Instance lock_mode_eq_dec : EqDecision lock_mode.
Proof. solve_decision. Defined.

Definition lock_list_wf (l : list (lock_mode * txn_id)) : Prop :=
  l ≠ [] ∧ NoDup l.*2 ∧ Forall (λ e, e.1 = X_lock → length l = 1%nat) l.

Definition lm_wf (lm : LockManager) : Prop :=
  map_Forall (λ _ l, lock_list_wf l) (locks lm) ∧
  map_Forall (λ k l,
     Forall (λ e, k ∈ default [] (lock_owners lm !! e.2)) l) (locks lm) ∧
  map_Forall (λ t ks,
     NoDup ks ∧
     Forall (λ k, t ∈ (default [] (locks lm !! k)).*2) ks) (lock_owners lm).

#[global] Instance lm_wf_dec lm : Decision (lm_wf lm).
Proof. unfold lm_wf, lock_list_wf. apply _. Defined.

Definition no_other_holder (t : txn_id) (lm : LockManager) (k : Z) : Prop :=
  Forall (λ e, e.2 = t) (default [] (locks lm !! k)).

#[global] Instance no_other_holder_dec t lm k : Decision (no_other_holder t lm k).
Proof. unfold no_other_holder. apply _. Defined.

Definition acquire_exclusive_one (key : Z) (t : txn_id) (lm : LockManager)
    : bool * LockManager :=
  match locks lm !! key with
  | None => (true, add_lock_owner key t (set_locks key [(X_lock, t)] lm))
  | Some l => let '(ok, l') := exclusive_scan t (length l) l in
              (ok, set_locks key l' lm)
  end.

(** What [release_held_locks] leaves of one entry of [self.locks]. *)
Definition released (t : txn_id) (o : option (list (lock_mode * txn_id)))
    : option (list (lock_mode * txn_id)) :=
  match o with
  | Some l => let l' := drop_owner t l in
              if Nat.eqb (length l') 0 then None else Some l'
  | None => None
  end.

Definition locks_wf (s : TxnState) : Prop := lm_wf (lock_manager s).

(** The fields of the table and of its index, as opposed to those of the
    buffer pool, the heap, the disk and the clock. *)
Definition table_part (s : Store) :=
  (table_key s, num_columns s, page_directory s, num_page_ranges s,
   page_ranges_metadata s, indices s, table_num_records s, merge_queue s).

(** [I] looks at the table fields only. *)
Definition table_only (I : Store → Prop) : Prop :=
  ∀ s s', table_part s = table_part s' → I s → I s'.

Definition indexed (s : Store) (column : Z) : Prop :=
  ∃ d, py_nth (indices s) column = Some (Some d).



(** ** Concrete runs

    The constants that [config.py] would fix, with pages of two records
    so that pages fill up quickly, and the same with a buffer pool of two
    pages. *)
Definition example_config : Config :=
  {| PAGE_SIZE := 40; COLUMN_SIZE := 8; BUFFERPOOL_SIZE := 1000;
     MERGE_CONDITION := 100; CREATE_INDICES_CONDITION := 1000;
     INDIRECTION_NULL := 2 ^ 63 - 1 |}.

Definition small_pool_config : Config :=
  {| PAGE_SIZE := 40; COLUMN_SIZE := 8; BUFFERPOOL_SIZE := 2;
     MERGE_CONDITION := 100; CREATE_INDICES_CONDITION := 1000;
     INDIRECTION_NULL := 2 ^ 63 - 1 |}.


(** A clock that stands still. *)
Definition noon : nat → Z := λ _, 1700000000.

(** The state a run ends in (the one it started from when it raised)
    and the value it returns ([d] when it raised). *)
Definition state_after {St A} (m : M St A) (s : St) : St :=
  match m s with Ok _ s' => s' | Err _ => s end.

Definition value_of {St A} (d : A) (m : M St A) (s : St) : A :=
  match m s with Ok a _ => a | Err _ => d end.

Definition succeeds {St A} (m : M St A) (s : St) : bool :=
  match m s with Ok _ _ => true | Err _ => false end.

Definition error_of {St A} (m : M St A) (s : St) : option error :=
  match m s with Ok _ _ => None | Err e => Some e end.








(** A table that holds the record (1, 10, 20), and a transaction that
    inserts primary key 1 again. *)
Definition one_record_state : TxnState :=
  {| store := state_after (Query_insert example_config [1; 10; 20])
                (Store_init example_config 3 0 noon);
     lock_manager := LockManager_init;
     num_transactions := 0 |}.

Definition duplicate_insert_build : M TxnState Transaction :=
  Transaction_add_query (insert_method example_config)
    [AInt 1; AInt 11; AInt 21] Transaction_init.

Definition duplicate_insert : Transaction :=
  value_of Transaction_init duplicate_insert_build one_record_state.

Definition duplicate_insert_state : TxnState :=
  state_after duplicate_insert_build one_record_state.

(** One record in a base page of two slots, updated three times: the
    tail pages 16 and 17 are full.  Then the pool is flushed, as
    [Database.close] does. *)
Definition merge_input : Store :=
  state_after
    (Query_insert example_config [1; 10] ;;;
     Query_update example_config 1 [None; Some 11] ;;;
     Query_update example_config 1 [None; Some 12] ;;;
     Query_update example_config 1 [None; Some 13] ;;;
     Bufferpool_flush)
    (Store_init example_config 2 0 noon).

Definition merge_output : Store :=
  state_after (Table_merge_helper example_config 0 0) merge_input.

(** A pool of two pages that holds columns 0 and 1 of base page 0, and
    the same with both pages pinned. *)
Definition two_cached_pages : Store :=
  state_after
    (Bufferpool_create_page_range small_pool_config ;;;
     Bufferpool_insert_base_page small_pool_config 0 ;;;
     Bufferpool_get_physical_page small_pool_config 0 0 0 ;;;
     Bufferpool_get_physical_page small_pool_config 0 0 1)
    (Store_init small_pool_config 1 0 noon).

Definition two_pinned_pages : Store :=
  state_after
    (let* p0 := Bufferpool_get_physical_page small_pool_config 0 0 0 in
     let* p1 := Bufferpool_get_physical_page small_pool_config 0 0 1 in
     Bufferpool_pin_page [p0; p1])
    two_cached_pages.



(** A lock table on which transaction 1 holds a shared lock on rid 1 and
    transaction 2 a shared lock on rid 5. *)
Definition two_readers : LockManager :=
  snd (acquire_shared_lock [5] (Some 2)
         (snd (acquire_shared_lock [1] (Some 1) LockManager_init))).

(** The page cached under [p] has a pin count other than 0. *)
Definition pinned (s : Store) (p : path) : bool :=
  match pages s !! p with
  | Some r => match heap s !! r with
              | Some pg => negb (pin_count pg =? 0)
              | None => false
              end
  | None => false
  end.

Definition all_pinned (s : Store) : Prop :=
  forallb (pinned s) (lru_pages s) = true.


(** The index of the key column of the table that holds (1, 10, 20). *)
Definition one_record_key_index : option (gmap Z (list Z)) :=
  default None (py_nth (indices (store one_record_state)) DATA_COL_START).

(** No transaction other than [t] holds an exclusive lock on [k]. *)
Definition no_foreign_exclusive (t : txn_id) (lm : LockManager) (k : Z)
    : Prop :=
  Forall (λ e, e.1 = X_lock → e.2 = t) (default [] (locks lm !! k)).

#[global] Instance no_foreign_exclusive_dec t lm k :
  Decision (no_foreign_exclusive t lm k).
Proof. unfold no_foreign_exclusive. apply _. Defined.

(** The locks on [k]. *)
Definition locks_on (lm : LockManager) (k : Z) : list (lock_mode * txn_id) :=
  default [] (locks lm !! k).

(** [z] fits a signed integer of [COLUMN_SIZE] bytes. *)
Definition fits (cfg : Config) (z : Z) : Prop :=
  - 2 ^ (8 * COLUMN_SIZE cfg - 1) ≤ z < 2 ^ (8 * COLUMN_SIZE cfg - 1).

#[global] Instance fits_dec cfg z : Decision (fits cfg z).
Proof. unfold fits. apply _. Defined.

(** The constants leave room for the page header and for a column of at
    least one byte. *)
Definition cfg_ok (cfg : Config) : Prop :=
  0 < COLUMN_SIZE cfg ∧ 3 * COLUMN_SIZE cfg ≤ PAGE_SIZE cfg.

#[global] Instance cfg_ok_dec cfg : Decision (cfg_ok cfg).
Proof. unfold cfg_ok. apply _. Defined.

(** The three header fields as the bytes of a page hold them. *)
Definition header_of (cfg : Config) (d : list byte) : Z * Z * Z :=
  (from_bytes (py_slice d NUM_RECORDS_START (NUM_RECORDS_END cfg)),
   from_bytes (py_slice d (TPS_START cfg) (TPS_END cfg)),
   from_bytes (py_slice d (NUM_UPDATES_START cfg) (NUM_UPDATES_END cfg))).

(** The page object that [__fetch_phys_page] makes of the bytes of a
    file. *)
Definition page_of_bytes (cfg : Config) (bytes : list byte) : PhysicalPage :=
  {| num_records :=
       from_bytes (py_slice bytes NUM_RECORDS_START (NUM_RECORDS_END cfg));
     tps := from_bytes (py_slice bytes (TPS_START cfg) (TPS_END cfg));
     num_updates :=
       from_bytes (py_slice bytes (NUM_UPDATES_START cfg)
                     (NUM_UPDATES_END cfg));
     data := bytes; is_dirty := false; pin_count := 0; lock := false |}.

(** The lock of path [p] after it was taken and given back. *)
Definition lock_cycled (p : path) (s : Store) : Store :=
  with_page_locks (<[p := false]> (<[p := true]> (page_locks s))) s.

(** The pool after it admitted the page of [bytes] under [p]. *)
Definition admitted (cfg : Config) (p : path) (bytes : list byte)
    (s : Store) : Store :=
  lock_cycled p
    (with_lru_pages (lru_pages s ++ [p])
       (with_pages (<[p := length (heap s)]> (pages s))
          (with_heap (heap s ++ [page_of_bytes cfg bytes])
             (with_fetch_log (fetch_log s ++ [p]) s)))).

(** What [__evict] leaves on disk for the victim [v], whose page is [pg]. *)
Definition written_back (s : Store) (v : path) (pg : PhysicalPage)
    : gmap path (list byte) :=
  if is_dirty pg
  then <[v := data pg ++ drop (length (data pg)) (default [] (disk s !! v))]>
         (disk s)
  else disk s.

(** A pool of two pages that holds column 0 of base page 0. *)
Definition one_cached_page : Store :=
  state_after
    (Bufferpool_create_page_range small_pool_config ;;;
     Bufferpool_insert_base_page small_pool_config 0 ;;;
     Bufferpool_get_physical_page small_pool_config 0 0 0)
    (Store_init small_pool_config 1 0 noon).

(** The table that holds (1, 10, 20), on whose record (rid 0)
    transaction 7 holds an exclusive lock, and a transaction that updates
    the record. *)
Definition locked_record_state : TxnState :=
  {| store := store one_record_state;
     lock_manager := snd (acquire_exclusive_lock [0] (Some 7)
                            LockManager_init);
     num_transactions := 7 |}.

Definition one_update_build : M TxnState Transaction :=
  Transaction_add_query (update_method example_config)
    [AInt 1; ANone; AInt 5; ANone] Transaction_init.

Definition one_update : Transaction :=
  value_of Transaction_init one_update_build locked_record_state.

Definition one_update_state : TxnState :=
  state_after one_update_build locked_record_state.

Definition one_update_refused : Transaction :=
  snd (value_of (PyNone, Transaction_init)
         (Transaction_acquire_all_locks one_update) one_update_state).

Definition one_update_refused_state : TxnState :=
  state_after (Transaction_acquire_all_locks one_update) one_update_state.

(** A transaction that inserts (1, 10, 20) into an empty table. *)
Definition one_insert_build : M TxnState Transaction :=
  Transaction_add_query (insert_method example_config)
    [AInt 1; AInt 10; AInt 20] Transaction_init.

Definition one_insert : Transaction :=
  value_of Transaction_init one_insert_build
    (TxnState_init example_config 3 0 noon).

Definition one_insert_state : TxnState :=
  state_after one_insert_build (TxnState_init example_config 3 0 noon).

Definition one_insert_locked : Transaction :=
  snd (value_of (PyNone, Transaction_init)
         (Transaction_acquire_all_locks one_insert) one_insert_state).

Definition one_insert_locked_state : TxnState :=
  state_after (Transaction_acquire_all_locks one_insert) one_insert_state.

Definition one_insert_ran_state : TxnState :=
  state_after (run_queries (queries one_insert_locked))
    one_insert_locked_state.







Definition one_record_keys : gmap Z (list Z) := default ∅ one_record_key_index.

(** * lock_manager.py *)

Lemma acquire_exclusive_lock_cons key keys t lm :
  acquire_exclusive_lock (key :: keys) t lm =
  let '(ok, lm1) := acquire_exclusive_one key t lm in
  if ok then acquire_exclusive_lock keys t lm1 else (false, lm1).
Proof.
  unfold acquire_exclusive_one. simpl.
  destruct (locks lm !! key) as [l|]; [|reflexivity].
  destruct (exclusive_scan t (length l) l) as [[] l']; reflexivity.
Qed.

Lemma exclusive_scan_wf t l :
  lock_list_wf l →
  exclusive_scan t (length l) l =
  if decide (Forall (λ e, e.2 = t) l) then (true, [(X_lock, t)]) else (false, l).
Proof.
  intros (Hne & Hnd & Hx).
  destruct l as [|[m o] l']; [done|].
  destruct l' as [|[m' o'] l''].
  - simpl. destruct m; simpl; case_bool_decide; subst; simpl.
    + rewrite decide_True; [done|]. by repeat constructor.
    + rewrite decide_False; [done|]. intros HF; inversion HF; done.
    + rewrite decide_True; [done|]. by repeat constructor.
    + rewrite decide_False; [done|]. intros HF; inversion HF; done.
  - assert (m = S_lock) as ->.
    { destruct m; [done|]. inversion Hx as [|?? H1 ?]; subst. by specialize (H1 eq_refl). }
    assert (m' = S_lock) as ->.
    { destruct m'; [done|]. inversion Hx as [|?? _ H2]; subst.
      inversion H2 as [|?? H3 ?]; subst. by specialize (H3 eq_refl). }
    assert (o ≠ o').
    { simpl in Hnd. inversion Hnd as [|?? Hni ?]; subst. set_solver. }
    rewrite decide_False.
    2:{ intros H'. inversion H' as [|?? E1 H'']; subst. inversion H'' as [|?? E2 ?]; subst.
        simpl in *. congruence. }
    cbn [exclusive_scan length]. simpl.
    case_bool_decide; subst; simpl; [|done].
    rewrite bool_decide_eq_false_2; [|congruence]. simpl. done.
Qed.

Lemma locks_add_lock_owner k t lm : locks (add_lock_owner k t lm) = locks lm.
Proof. unfold add_lock_owner. by destruct (lock_owners lm !! t). Qed.

Lemma lock_owners_add_lock_owner k t lm t' :
  lock_owners (add_lock_owner k t lm) !! t' =
  if decide (t = t') then Some (default [] (lock_owners lm !! t) ++ [k])
  else lock_owners lm !! t'.
Proof.
  unfold add_lock_owner.
  destruct (lock_owners lm !! t) eqn:E; simpl; rewrite lookup_insert;
    case_decide; done.
Qed.

Lemma lm_wf_lookup lm :
  lm_wf lm ↔
  (∀ k l, locks lm !! k = Some l → lock_list_wf l) ∧
  (∀ k l e, locks lm !! k = Some l → e ∈ l →
      k ∈ default [] (lock_owners lm !! e.2)) ∧
  (∀ t ks, lock_owners lm !! t = Some ks →
      NoDup ks ∧ ∀ k, k ∈ ks → t ∈ (default [] (locks lm !! k)).*2).
Proof.
  unfold lm_wf. rewrite !map_Forall_lookup.
  setoid_rewrite Forall_forall. naive_solver.
Qed.

Lemma lm_wf_init : lm_wf LockManager_init.
Proof. apply lm_wf_lookup. simpl. split_and!; intros *; by rewrite lookup_empty. Qed.

Lemma lm_wf_grant_new k t m lm :
  lm_wf lm → locks lm !! k = None →
  lm_wf (add_lock_owner k t (set_locks k [(m, t)] lm)).
Proof.
  rewrite !lm_wf_lookup. intros (H1 & H2 & H3) Hk.
  rewrite locks_add_lock_owner. simpl.
  split_and!.
  - intros k' l. rewrite lookup_insert. case_decide; [|by eauto].
    intros [= <-]. unfold lock_list_wf. split_and!; [done|repeat constructor; set_solver|].
    by repeat constructor.
  - intros k' l e. rewrite lookup_insert, lock_owners_add_lock_owner. simpl.
    case_decide as Hkk.
    + intros [= <-] He. apply list_elem_of_singleton in He as ->. simpl.
      rewrite decide_True by done. subst. set_solver.
    + intros Hl He. specialize (H2 _ _ _ Hl He).
      case_decide as Ht; [|done]. rewrite <- Ht in H2. simpl. set_solver.
  - intros t' ks. rewrite lock_owners_add_lock_owner. simpl.
    case_decide as Ht.
    + intros [= <-]. subst t'.
      destruct (lock_owners lm !! t) as [ks0|] eqn:E0; simpl.
      * destruct (H3 _ _ E0) as [Hnd Hin]. split.
        -- apply NoDup_app. split_and!; [done| |repeat constructor; set_solver].
           intros x Hx Hx'. apply list_elem_of_singleton in Hx' as ->.
           specialize (Hin _ Hx). rewrite Hk in Hin. simpl in Hin. set_solver.
        -- intros k' Hk'. rewrite lookup_insert. case_decide; simpl; [set_solver|].
           apply Hin. set_solver.
      * split; [repeat constructor; set_solver|].
        intros k' Hk'. apply list_elem_of_singleton in Hk' as ->.
        rewrite lookup_insert_eq. simpl. set_solver.
    + intros Hl. destruct (H3 _ _ Hl) as [Hnd Hin]. split; [done|].
      intros k' Hk'. specialize (Hin _ Hk').
      rewrite lookup_insert. case_decide; [|done]. subst.
      rewrite Hk in Hin. simpl in Hin. set_solver.
Qed.

Lemma lm_wf_upgrade k t m lm :
  lm_wf lm → locks lm !! k = Some [(m, t)] →
  lm_wf (set_locks k [(X_lock, t)] lm).
Proof.
  rewrite !lm_wf_lookup. intros (H1 & H2 & H3) Hk. simpl.
  split_and!.
  - intros k' l. rewrite lookup_insert. case_decide; [|by eauto].
    intros [= <-]. unfold lock_list_wf.
    split_and!; [done|repeat constructor; set_solver|by repeat constructor].
  - intros k' l e. rewrite lookup_insert. case_decide as Hkk; [|by eauto].
    intros [= <-] He. apply list_elem_of_singleton in He as ->. subst k'.
    apply (H2 _ _ (m, t) Hk). set_solver.
  - intros t' ks Hl. destruct (H3 _ _ Hl) as [Hnd Hin]. split; [done|].
    intros k' Hk'. specialize (Hin _ Hk').
    rewrite lookup_insert. case_decide; [|done]. subst.
    rewrite Hk in Hin. simpl in *. done.
Qed.

Lemma shared_scan_grant t l :
  shared_scan t l = SharedGrant → Forall (λ e, e.1 = S_lock ∧ e.2 ≠ t) l.
Proof.
  induction l as [|[m o] l IH]; simpl; [constructor|].
  case_bool_decide; [done|]. destruct m; simpl; [|done].
  intros Hs. constructor; [done|auto].
Qed.

Lemma lm_wf_share k t l lm :
  lm_wf lm → locks lm !! k = Some l → shared_scan t l = SharedGrant →
  lm_wf (add_lock_owner k t (set_locks k (l ++ [(S_lock, t)]) lm)).
Proof.
  rewrite !lm_wf_lookup. intros (H1 & H2 & H3) Hk Hs%shared_scan_grant.
  rewrite Forall_forall in Hs.
  rewrite locks_add_lock_owner. simpl.
  split_and!.
  - intros k' l'. rewrite lookup_insert. case_decide; [|by eauto].
    intros [= <-]. destruct (H1 _ _ Hk) as (Hne & Hnd & Hx).
    unfold lock_list_wf. split_and!.
    + by destruct l.
    + rewrite fmap_app. apply NoDup_app. split_and!; [done| |repeat constructor; set_solver].
      intros o Ho Ho'. simpl in Ho'. apply list_elem_of_singleton in Ho' as ->.
      apply list_elem_of_fmap in Ho as (e & He & Hel). destruct (Hs _ Hel). congruence.
    + apply Forall_forall. intros e He Hex. exfalso.
      apply elem_of_app in He as [He|He].
      * destruct (Hs _ He) as [Hm _]. congruence.
      * apply list_elem_of_singleton in He as ->. done.
  - intros k' l' e. rewrite lookup_insert, lock_owners_add_lock_owner.
    case_decide as Hkk.
    + intros [= <-] He. subst k'. apply elem_of_app in He as [He|He].
      * specialize (H2 _ _ _ Hk He). case_decide as Ht; [|done].
        rewrite <- Ht in H2. simpl. set_solver.
      * apply list_elem_of_singleton in He as ->. simpl.
        rewrite decide_True by done. simpl. set_solver.
    + intros Hl He. specialize (H2 _ _ _ Hl He).
      case_decide as Ht; [|done]. rewrite <- Ht in H2. simpl. set_solver.
  - intros t' ks. rewrite lock_owners_add_lock_owner. simpl.
    case_decide as Ht.
    + intros [= <-]. subst t'.
      destruct (lock_owners lm !! t) as [ks0|] eqn:E0; simpl.
      * destruct (H3 _ _ E0) as [Hnd Hin]. split.
        -- apply NoDup_app. split_and!; [done| |repeat constructor; set_solver].
           intros x Hx Hx'. apply list_elem_of_singleton in Hx' as ->.
           specialize (Hin _ Hx). rewrite Hk in Hin. simpl in Hin.
           apply list_elem_of_fmap in Hin as (e & He & Hel). destruct (Hs _ Hel). congruence.
        -- intros k' Hk'. rewrite lookup_insert. case_decide; simpl.
           ++ rewrite fmap_app. set_solver.
           ++ apply Hin. set_solver.
      * split; [repeat constructor; set_solver|].
        intros k' Hk'. apply list_elem_of_singleton in Hk' as ->.
        rewrite lookup_insert_eq. simpl. rewrite fmap_app. set_solver.
    + intros Hl. destruct (H3 _ _ Hl) as [Hnd Hin]. split; [done|].
      intros k' Hk'. specialize (Hin _ Hk').
      rewrite lookup_insert. case_decide; [|done]. subst.
      rewrite Hk in Hin. simpl in *. rewrite fmap_app. set_solver.
Qed.

Lemma set_locks_id k l lm : locks lm !! k = Some l → set_locks k l lm = lm.
Proof. intros H. destruct lm. unfold set_locks. simpl in *. by rewrite insert_id. Qed.

Lemma acquire_shared_lock_wf keys t lm :
  lm_wf lm → lm_wf (snd (acquire_shared_lock keys t lm)).
Proof.
  revert lm. induction keys as [|k keys IH]; intros lm Hwf; simpl; [done|].
  destruct (locks lm !! k) as [l|] eqn:Hk.
  - destruct (shared_scan t l) eqn:Hs; [done|auto|].
    apply IH. by apply lm_wf_share.
  - apply IH. by apply lm_wf_grant_new.
Qed.

(** One key of an exclusive request on a well-formed lock table. *)
Lemma acquire_exclusive_one_grant k t lm :
  lm_wf lm → no_other_holder t lm k →
  ∃ lm1, acquire_exclusive_one k t lm = (true, lm1) ∧ lm_wf lm1 ∧
         locks lm1 !! k = Some [(X_lock, t)] ∧
         ∀ k', k' ≠ k → locks lm1 !! k' = locks lm !! k'.
Proof.
  intros Hwf. unfold no_other_holder, acquire_exclusive_one.
  destruct (locks lm !! k) as [l|] eqn:Hk; simpl; intros Hall.
  - assert (lock_list_wf l) as Hl by (apply lm_wf_lookup in Hwf as (H1 & _); eauto).
    rewrite exclusive_scan_wf by done. rewrite decide_True by done.
    eexists. split; [done|].
    assert (∃ m, l = [(m, t)]) as [m ->].
    { destruct Hl as (Hne & Hnd & _). destruct l as [|[m o] [|[m' o'] l']]; [done| |].
      - inversion Hall; subst; simpl in *; subst. eauto.
      - inversion Hall as [|?? E1 Hall']; subst. inversion Hall' as [|?? E2 ?]; subst.
        simpl in *. subst. inversion Hnd. set_solver. }
    split_and!; [by eapply lm_wf_upgrade|by simpl; rewrite lookup_insert_eq|].
    intros k' Hne. simpl. by rewrite lookup_insert_ne.
  - eexists. split; [done|]. split_and!.
    + by apply lm_wf_grant_new.
    + rewrite locks_add_lock_owner. simpl. by rewrite lookup_insert_eq.
    + intros k' Hne. rewrite locks_add_lock_owner. simpl. by rewrite lookup_insert_ne.
Qed.

Lemma acquire_exclusive_one_reject k t lm :
  lm_wf lm → ¬ no_other_holder t lm k →
  acquire_exclusive_one k t lm = (false, lm).
Proof.
  intros Hwf. unfold no_other_holder, acquire_exclusive_one.
  destruct (locks lm !! k) as [l|] eqn:Hk; simpl; intros Hnot.
  - assert (lock_list_wf l) as Hl by (apply lm_wf_lookup in Hwf as (H1 & _); eauto).
    rewrite exclusive_scan_wf by done. rewrite decide_False by done.
    by rewrite set_locks_id.
  - destruct Hnot. constructor.
Qed.

Lemma no_other_holder_frame t lm lm1 k k' :
  locks lm1 !! k = Some [(X_lock, t)] → no_other_holder t lm k →
  (∀ k', k' ≠ k → locks lm1 !! k' = locks lm !! k') →
  no_other_holder t lm1 k' ↔ no_other_holder t lm k'.
Proof.
  intros Hk Hno Hfr. unfold no_other_holder in *.
  destruct (decide (k' = k)) as [->|Hne].
  - rewrite Hk. simpl. split; [done|]. intros _. by repeat constructor.
  - by rewrite Hfr.
Qed.

Lemma acquire_exclusive_lock_wf keys t lm :
  lm_wf lm → lm_wf (snd (acquire_exclusive_lock keys t lm)).
Proof.
  revert lm. induction keys as [|k keys IH]; intros lm Hwf; [done|].
  rewrite acquire_exclusive_lock_cons.
  destruct (decide (no_other_holder t lm k)) as [Hno|Hno].
  - destruct (acquire_exclusive_one_grant k t lm Hwf Hno) as (lm1 & -> & Hwf1 & _).
    by apply IH.
  - by rewrite acquire_exclusive_one_reject.
Qed.

Lemma acquire_exclusive_lock_frame keys t lm ok lm' k :
  k ∉ keys → acquire_exclusive_lock keys t lm = (ok, lm') →
  locks lm' !! k = locks lm !! k.
Proof.
  revert lm. induction keys as [|k0 keys IH]; intros lm Hni; simpl.
  - by intros [= _ <-].
  - apply not_elem_of_cons in Hni as [Hne Hni].
    destruct (locks lm !! k0) as [l|] eqn:E0.
    + destruct (exclusive_scan t (length l) l) as [[] l'].
      * intros H. rewrite (IH _ Hni H). simpl. by rewrite lookup_insert_ne.
      * intros [= _ <-]. simpl. by rewrite lookup_insert_ne.
    + intros H. rewrite (IH _ Hni H). rewrite locks_add_lock_owner. simpl.
      by rewrite lookup_insert_ne.
Qed.

(** C8: on a well-formed lock table [acquire_exclusive_lock rids t]
    answers [True] exactly when every requested rid has no lock or only
    locks of [t]; it then leaves [t] as the one exclusive holder of each
    of them (a lone shared lock of [t] is upgraded).  It answers [False]
    at the first rid on which another transaction holds a lock, keeping
    what it granted on the rids before it. *)
Theorem acquire_exclusive_lock_grants rids t lm :
  lm_wf lm →
  ∃ ok lm', acquire_exclusive_lock rids t lm = (ok, lm') ∧
    (ok = true ↔ ∀ k, k ∈ rids → no_other_holder t lm k) ∧
    (ok = true → ∀ k, k ∈ rids → locks lm' !! k = Some [(X_lock, t)]) ∧
    (ok = false →
       ∃ pre k post, rids = pre ++ k :: post ∧
         (∀ k', k' ∈ pre → no_other_holder t lm k') ∧
         ¬ no_other_holder t lm k ∧
         acquire_exclusive_lock pre t lm = (true, lm')).
Proof.
  revert lm. induction rids as [|k rids IH]; intros lm Hwf.
  - exists true, lm. split_and!; [done|split; [set_solver|done]|set_solver|done].
  - rewrite acquire_exclusive_lock_cons.
    destruct (decide (no_other_holder t lm k)) as [Hno|Hno].
    + destruct (acquire_exclusive_one_grant k t lm Hwf Hno)
        as (lm1 & E1 & Hwf1 & Hk1 & Hfr).
      rewrite E1.
      destruct (IH lm1 Hwf1) as (ok & lm' & Heq & Hiff & Hgr & Hfail).
      assert (∀ k', no_other_holder t lm1 k' ↔ no_other_holder t lm k') as Hfrm
        by (intros k'; by apply (no_other_holder_frame t lm lm1 k k')).
      exists ok, lm'. rewrite Heq. split_and!; [done| | |].
      * rewrite Hiff. split.
        -- intros H k' [->|Hin]%elem_of_cons; [done|]. apply Hfrm. auto.
        -- intros H k' Hin. apply Hfrm. apply H. set_solver.
      * intros Hok k' [->|Hin]%elem_of_cons; [|by auto].
        destruct (decide (k ∈ rids)) as [|Hni]; [by auto|].
        rewrite <- Hk1. eapply acquire_exclusive_lock_frame; eauto.
      * intros Hok. destruct (Hfail Hok) as (pre & k0 & post & -> & Hpre & Hk0 & Hacq).
        exists (k :: pre), k0, post. split_and!; [done| | |].
        -- intros k' [->|Hin]%elem_of_cons; [done|]. apply Hfrm. auto.
        -- intros H. apply Hk0. by apply Hfrm.
        -- by rewrite acquire_exclusive_lock_cons, E1.
    + rewrite acquire_exclusive_one_reject by done.
      exists false, lm. split_and!; [done| |done|].
      * split; [done|]. intros H. destruct Hno. apply H. set_solver.
      * intros _. exists [], k, rids. split_and!; [done|set_solver|done|done].
Qed.

Lemma elem_of_drop_owner t l e : e ∈ drop_owner t l ↔ e ∈ l ∧ e.2 ≠ t.
Proof.
  unfold drop_owner.
  rewrite !list_elem_of_In, filter_In, negb_true_iff, bool_decide_eq_false.
  done.
Qed.

Lemma drop_owner_id t l : t ∉ l.*2 → drop_owner t l = l.
Proof.
  unfold drop_owner. induction l as [|[m o] l IH]; simpl; [done|].
  intros Hni. apply not_elem_of_cons in Hni as [Hne Hni].
  rewrite bool_decide_eq_false_2 by done. simpl. by rewrite IH.
Qed.

Lemma drop_owner_sublist t l : sublist (drop_owner t l) l.
Proof.
  unfold drop_owner. induction l as [|e l IH]; simpl; [done|].
  destruct (negb _); by constructor.
Qed.

Lemma release_loop t ks lm :
  NoDup ks → (∀ k, k ∈ ks → is_Some (locks lm !! k)) →
  ∃ lm', for_each ks (release_one t) lm = Ok tt lm' ∧
         lock_owners lm' = lock_owners lm ∧
         ∀ k, locks lm' !! k =
              if decide (k ∈ ks) then released t (locks lm !! k)
              else locks lm !! k.
Proof.
  revert lm. induction ks as [|k0 ks IH]; intros lm Hnd Hin.
  - exists lm. split_and!; [done|done|]. intros k. by rewrite decide_False by set_solver.
  - apply NoDup_cons in Hnd as [Hni Hnd].
    destruct (Hin k0) as [l0 Hl0]; [set_solver|].
    simpl. unfold bind. unfold release_one at 1. rewrite Hl0.
    set (lm1 := {| locks := _; lock_owners := _ |}).
    assert (∀ k, locks lm1 !! k =
                 if decide (k = k0) then released t (locks lm !! k)
                 else locks lm !! k) as Hlk1.
    { intros k. subst lm1. simpl. unfold released.
      case_decide as Hk; subst.
      - rewrite Hl0. simpl. destruct (Nat.eqb _ 0).
        + by rewrite lookup_delete_eq.
        + by rewrite lookup_insert_eq.
      - destruct (Nat.eqb _ 0).
        + by rewrite lookup_delete_ne.
        + by rewrite lookup_insert_ne. }
    destruct (IH lm1 Hnd) as (lm' & Hrun & Hown & Hlk).
    { intros k Hk. rewrite Hlk1. rewrite decide_False by set_solver.
      apply Hin. set_solver. }
    exists lm'. split_and!; [done|done|].
    intros k. rewrite Hlk, Hlk1.
    destruct (decide (k = k0)) as [->|Hne].
    + rewrite decide_False by done. by rewrite decide_True by set_solver.
    + destruct (decide (k ∈ ks)).
      * by rewrite decide_True by set_solver.
      * by rewrite decide_False by set_solver.
Qed.

Lemma release_held_locks_spec t lm :
  lm_wf lm →
  ∃ lm', release_held_locks t lm = Ok tt lm' ∧ lm_wf lm' ∧
         lock_owners lm' = delete t (lock_owners lm) ∧
         ∀ k, locks lm' !! k = released t (locks lm !! k).
Proof.
  intros Hwf. pose proof Hwf as (H1 & H2 & H3)%lm_wf_lookup.
  assert (∃ lm', release_held_locks t lm = Ok tt lm' ∧
            lock_owners lm' = delete t (lock_owners lm) ∧
            ∀ k, locks lm' !! k = released t (locks lm !! k))
    as (lm' & Hrun & Hown & Hlk).
  { unfold release_held_locks.
    destruct (lock_owners lm !! t) as [ks|] eqn:Hks.
    - destruct (H3 _ _ Hks) as [Hnd Hin].
      destruct (release_loop t ks lm Hnd) as (lm1 & Hrun & Hown & Hlk).
      { intros k Hk. specialize (Hin _ Hk).
        destruct (locks lm !! k); [eauto|]. simpl in Hin. set_solver. }
      unfold bind. rewrite Hrun. simpl. unfold modify.
      eexists. split_and!; [done|by simpl; rewrite Hown|].
      intros k. simpl. rewrite Hlk. case_decide as Hk; [done|].
      destruct (locks lm !! k) as [l|] eqn:Hl; [|done]. simpl.
      assert (t ∉ l.*2) as Hni.
      { intros (e & -> & He)%list_elem_of_fmap. specialize (H2 _ _ _ Hl He).
        rewrite Hks in H2. done. }
      rewrite drop_owner_id by done.
      destruct (H1 _ _ Hl) as (Hne & _). by destruct l.
    - exists lm. split_and!; [done|by rewrite delete_id|].
      intros k. destruct (locks lm !! k) as [l|] eqn:Hl; [|done]. simpl.
      assert (t ∉ l.*2) as Hni.
      { intros (e & -> & He)%list_elem_of_fmap. specialize (H2 _ _ _ Hl He).
        rewrite Hks in H2. simpl in H2. set_solver. }
      rewrite drop_owner_id by done.
      destruct (H1 _ _ Hl) as (Hne & _). by destruct l. }
  exists lm'. split_and!; [done| |done|done].
  assert (∀ k l', locks lm' !! k = Some l' →
            ∃ l, locks lm !! k = Some l ∧ l' = drop_owner t l ∧ l' ≠ []) as Hinv.
  { intros k l'. rewrite Hlk. unfold released.
    destruct (locks lm !! k) as [l|]; [|done].
    destruct (Nat.eqb (length (drop_owner t l)) 0) eqn:E; [done|].
    intros [= <-]. exists l. split_and!; [done|done|].
    intros E'. rewrite E' in E. done. }
  apply lm_wf_lookup. split_and!.
  - intros k l' (l & Hl & -> & Hne)%Hinv.
    destruct (H1 _ _ Hl) as (_ & Hnd & Hx). unfold lock_list_wf. split_and!; [done| |].
    + apply (sublist_NoDup _ (l.*2)); first [done|exact (fmap_sublist snd _ _ (drop_owner_sublist t l))].
    + apply Forall_forall. intros e [He Het]%elem_of_drop_owner Hex.
      rewrite Forall_forall in Hx. specialize (Hx _ He Hex).
      destruct l as [|e0 [|]]; simplify_eq/=.
      apply list_elem_of_singleton in He as ->.
      unfold drop_owner. simpl. by rewrite bool_decide_eq_false_2.
  - intros k l' e (l & Hl & -> & Hne)%Hinv [He Het]%elem_of_drop_owner.
    rewrite Hown, lookup_delete_ne by done. eauto.
  - intros t' ks. rewrite Hown. intros [Hne Hks]%lookup_delete_Some.
    destruct (H3 _ _ Hks) as [Hnd Hin]. split; [done|].
    intros k Hk. specialize (Hin _ Hk). rewrite Hlk. unfold released.
    destruct (locks lm !! k) as [l|]; [|simpl in Hin; set_solver]. simpl in Hin.
    apply list_elem_of_fmap in Hin as (e & -> & He).
    assert (e ∈ drop_owner t l) as He' by (apply elem_of_drop_owner; split; congruence).
    destruct (Nat.eqb (length (drop_owner t l)) 0) eqn:E.
    + apply Nat.eqb_eq, nil_length_inv in E. rewrite E in He'. set_solver.
    + simpl. apply list_elem_of_fmap. eauto.
Qed.


(** * transaction.py and transaction_worker.py *)

Section Monad.
Context {St : Type}.
Implicit Types I : St → Prop.

Lemma bind_ok {A B} (m : M St A) (k : A → M St B) s b s' :
  bind m k s = Ok b s' ↔ ∃ a s1, m s = Ok a s1 ∧ k a s1 = Ok b s'.
Proof.
  unfold bind. destruct (m s) as [a s1|e]; split.
  - eauto.
  - by intros (? & ? & [= -> ->] & ?).
  - done.
  - by intros (? & ? & ? & ?).
Qed.

Lemma bind_eq {A B} (m : M St A) (k : A → M St B) s a s1 :
  m s = Ok a s1 → bind m k s = k a s1.
Proof. unfold bind. by intros ->. Qed.

(** A run that is known to succeed, from its value and its final state. *)
Lemma run_eq {A} (m : M St A) (s : St) (d a : A) :
  succeeds m s = true → value_of d m s = a →
  m s = Ok a (state_after m s).
Proof.
  unfold succeeds, value_of, state_after.
  destruct (m s); [intros _ <-; reflexivity | discriminate].
Qed.

Lemma keeps_bind I {A B} (m : M St A) (k : A → M St B) :
  keeps I m → (∀ a, keeps I (k a)) → keeps I (bind m k).
Proof.
  intros Hm Hk s b s' HI (a & s1 & H1 & H2)%bind_ok.
  eapply Hk; [eapply Hm|]; eauto.
Qed.

Lemma keeps_ret I {A} (a : A) : keeps I (ret a).
Proof. by intros s b s' HI [= _ <-]. Qed.

Lemma keeps_raise I {A} e : keeps I (raise (A:=A) e).
Proof. by intros s b s' HI. Qed.

Lemma keeps_get I : keeps I get.
Proof. by intros s b s' HI [= _ <-]. Qed.

Lemma keeps_gets I {A} (f : St → A) : keeps I (gets f).
Proof. by intros s b s' HI [= _ <-]. Qed.

Lemma keeps_from_option I {A} e (o : option A) : keeps I (from_option e o).
Proof. destruct o; [apply keeps_ret|apply keeps_raise]. Qed.

Lemma keeps_for_each I {A} (xs : list A) (body : A → M St unit) :
  (∀ x, keeps I (body x)) → keeps I (for_each xs body).
Proof.
  intros Hb. induction xs as [|x xs IH]; simpl; [apply keeps_ret|].
  apply keeps_bind; auto.
Qed.

Lemma keeps_map_m I {A B} (f : A → M St B) (xs : list A) :
  (∀ x, keeps I (f x)) → keeps I (map_m f xs).
Proof.
  intros Hb. induction xs as [|x xs IH]; simpl; [apply keeps_ret|].
  apply keeps_bind; [auto|]. intros b. apply keeps_bind; [auto|].
  intros bs. apply keeps_ret.
Qed.

Lemma keeps_concat_map_m I {A B} (f : A → M St (list B)) (xs : list A) :
  (∀ x, keeps I (f x)) → keeps I (concat_map_m f xs).
Proof.
  intros Hb. induction xs as [|x xs IH]; simpl; [apply keeps_ret|].
  apply keeps_bind; [auto|]. intros b. apply keeps_bind; [auto|].
  intros bs. apply keeps_ret.
Qed.

End Monad.

Lemma on_store_ok {A} (m : M Store A) s a s' :
  on_store m s = Ok a s' →
  m (store s) = Ok a (store s') ∧ lock_manager s' = lock_manager s ∧
  num_transactions s' = num_transactions s.
Proof.
  unfold on_store, zoom. destruct (m (store s)); [|done]. by intros [= <- <-].
Qed.

Lemma on_lock_manager_ok {A} (m : M LockManager A) s a s' :
  on_lock_manager m s = Ok a s' →
  m (lock_manager s) = Ok a (lock_manager s') ∧ store s' = store s ∧
  num_transactions s' = num_transactions s.
Proof.
  unfold on_lock_manager, zoom. destruct (m (lock_manager s)); [|done].
  by intros [= <- <-].
Qed.

Lemma keeps_on_store {A} (P : LockManager → Prop) (m : M Store A) :
  keeps (λ s, P (lock_manager s)) (on_store m).
Proof. intros s a s' HI (_ & -> & _)%on_store_ok. done. Qed.

Lemma keeps_acquire_shared rids t :
  keeps locks_wf (LockManager_acquire_shared rids t).
Proof.
  intros s a s' HI H. unfold LockManager_acquire_shared in H.
  apply on_lock_manager_ok in H as (H & _). unfold locks_wf.
  pose proof (acquire_shared_lock_wf rids t _ HI) as Hwf.
  destruct (acquire_shared_lock rids t (lock_manager s)). by simplify_eq/=.
Qed.

Lemma keeps_acquire_exclusive rids t :
  keeps locks_wf (LockManager_acquire_exclusive rids t).
Proof.
  intros s a s' HI H. unfold LockManager_acquire_exclusive in H.
  apply on_lock_manager_ok in H as (H & _). unfold locks_wf.
  pose proof (acquire_exclusive_lock_wf rids t _ HI) as Hwf.
  destruct (acquire_exclusive_lock rids t (lock_manager s)). by simplify_eq/=.
Qed.

Ltac keeps_step :=
  first
    [ apply keeps_ret | apply keeps_raise | apply keeps_get | apply keeps_gets
    | apply keeps_from_option
    | apply (keeps_on_store lm_wf)
    | apply keeps_acquire_shared | apply keeps_acquire_exclusive
    | apply keeps_bind; [|intros]
    | match goal with
      | |- keeps _ (match ?x with _ => _ end) => destruct x
      | |- keeps _ (let (_, _) := ?x in _) => destruct x
      end ].

Ltac minv :=
  repeat match goal with
  | H : bind _ _ _ = Ok _ _ |- _ =>
      let a := fresh "a" in let s := fresh "s" in let H1 := fresh "H" in
      apply bind_ok in H as (a & s & H1 & H)
  | H : ret _ _ = Ok _ _ |- _ => unfold ret in H; simplify_eq/=
  | H : raise _ _ = Ok _ _ |- _ => discriminate H
  | H : Err _ = Ok _ _ |- _ => discriminate H
  | H : Ok _ _ = Ok _ _ |- _ => simplify_eq/=
  | H : get _ = Ok _ _ |- _ => unfold get in H; simplify_eq/=
  | H : gets _ _ = Ok _ _ |- _ => unfold gets in H; simplify_eq/=
  | H : put _ _ = Ok _ _ |- _ => unfold put in H; simplify_eq/=
  | H : modify _ _ = Ok _ _ |- _ => unfold modify in H; simplify_eq/=
  | H : from_option _ ?o _ = Ok _ _ |- _ =>
      let E := fresh "E" in destruct o eqn:E; simpl in H
  | H : (let (_, _) := ?x in _) _ = Ok _ _ |- _ => destruct x
  | H : (if ?b then _ else _) _ = Ok _ _ |- _ =>
      let E := fresh "E" in destruct b eqn:E
  | H : (match ?x with _ => _ end) _ = Ok _ _ |- _ =>
      let E := fresh "E" in destruct x eqn:E
  | H : (if ?b then _ else _) = Ok _ _ |- _ =>
      let E := fresh "E" in destruct b eqn:E
  | H : (match ?x with _ => _ end) = Ok _ _ |- _ =>
      let E := fresh "E" in destruct x eqn:E
  end.

Section Txn.

Lemma keeps_select t args : keeps locks_wf (Transaction_acquire_lock_for_select t args).
Proof. unfold Transaction_acquire_lock_for_select, arg_at, int_arg, lock_true. repeat keeps_step. Qed.

Lemma keeps_sum t args : keeps locks_wf (Transaction_acquire_lock_for_sum t args).
Proof. unfold Transaction_acquire_lock_for_sum, arg_at, int_arg, lock_true. repeat keeps_step. Qed.

Lemma keeps_insert t i : keeps locks_wf (Transaction_acquire_lock_for_insert t i).
Proof. unfold Transaction_acquire_lock_for_insert, arg_at, int_arg. repeat keeps_step. Qed.

Lemma keeps_update t args : keeps locks_wf (Transaction_acquire_lock_for_update t args).
Proof. unfold Transaction_acquire_lock_for_update, arg_at, int_arg, lock_true. repeat keeps_step. Qed.

Lemma keeps_delete t args : keeps locks_wf (Transaction_acquire_lock_for_delete t args).
Proof. unfold Transaction_acquire_lock_for_delete, arg_at, int_arg, lock_true. repeat keeps_step. Qed.

Lemma keeps_acquire_from n i t : keeps locks_wf (acquire_from n i t).
Proof.
  revert i t. induction n as [|n IH]; intros i t; simpl; [apply keeps_ret|].
  repeat first [ apply keeps_select | apply keeps_sum | apply keeps_insert
               | apply keeps_update | apply keeps_delete | apply IH | keeps_step ].
Qed.


Lemma acquire_lock_for_insert_id t i s v t1 s1 :
  Transaction_acquire_lock_for_insert t i s = Ok (v, t1) s1 → id t1 = id t.
Proof.
  unfold Transaction_acquire_lock_for_insert. intros H. minv; done.
Qed.

Lemma acquire_from_id n i t s v t1 s1 :
  acquire_from n i t s = Ok (v, t1) s1 → id t1 = id t.
Proof.
  revert i t s v t1 s1.
  induction n as [|n IH]; intros i t s v t1 s1 H; simpl in H.
  - by minv.
  - apply bind_ok in H as ([q args] & s2 & _ & H).
    apply bind_ok in H as ([lock_success t2] & s3 & Hstep & H).
    minv; try done; try (by eauto);
      try (by eapply acquire_lock_for_insert_id).
    etrans; [by eapply IH|by eapply acquire_lock_for_insert_id].
Qed.

Lemma run_queries_frame qs s b s' :
  run_queries qs s = Ok b s' → lock_manager s' = lock_manager s.
Proof.
  revert s. induction qs as [|[q args] qs IH]; intros s H; simpl in H.
  - by minv.
  - apply bind_ok in H as (r & s1 & (_ & Hlm & _)%on_store_ok & H).
    destruct (negb (qtruthy r)); minv; [done|]. rewrite <- Hlm. eauto.
Qed.



(** C2: what the worker counts *)
Lemma retry_appends_false fuel t appended s app' t' s' :
  retry fuel t appended s = Ok (app', t') s' →
  List.filter (λ x, x) app' = List.filter (λ x : bool, x) appended.
Proof.
  revert t appended s. induction fuel as [|fuel IH]; intros t appended s H; simpl in H.
  - done.
  - apply bind_ok in H as ([val t2] & s2 & _ & H).
    destruct (truthy val); [by minv|].
    destruct (py_eq val (PyInt (-1))).
    + minv. rewrite List.filter_app. simpl. by rewrite app_nil_r.
    + apply IH in H. rewrite H, List.filter_app. simpl. by rewrite app_nil_r.
Qed.

Lemma worker_loop_counts fuel ts st s st' ts' s' :
  worker_loop fuel ts st s = Ok (st', ts') s' →
  length (List.filter (λ x, x) st') =
  (length (List.filter (λ x : bool, x) st) + length ts)%nat.
Proof.
  revert st s st' ts' s'. induction ts as [|t ts IH]; intros st s st' ts' s' H; simpl in H.
  - minv. simpl. lia.
  - apply bind_ok in H as ([appended t2] & s2 & Hr & H).
    apply bind_ok in H as ([st2 ts2] & s3 & Hl & H). minv.
    apply IH in Hl. rewrite Hl. apply retry_appends_false in Hr.
    rewrite !List.filter_app, Hr. simpl. rewrite !length_app. simpl. lia.
Qed.

(** X12: when the worker thread runs to its end, [result] is the number
    of transactions of the worker, whatever their runs returned: the one
    entry [True] per transaction is appended unconditionally, and every
    other entry of [stats] is [False]. *)
Theorem worker_counts_every_transaction fuel w s w' s' :
  stats w = [] →
  TransactionWorker_run fuel w s = Ok w' s' →
  result w' = Z.of_nat (length (transactions w)).
Proof.
  intros Hst H. unfold TransactionWorker_run in H.
  apply bind_ok in H as ([st ts] & s2 & Hl & H). minv.
  apply worker_loop_counts in Hl. rewrite Hst in Hl. simpl in *. by rewrite Hl.
Qed.

End Txn.

(** * What the buffer pool leaves alone *)

Lemma keeps_bind_get {St} (I : St → Prop) {B} (k : St → M St B) :
  (∀ s0, I s0 → keeps I (k s0)) → keeps I (bind get k).
Proof.
  intros Hk s b s' HI (a & s1 & [= <- <-] & H2)%bind_ok. eapply Hk; eauto.
Qed.

Lemma keeps_modify {St} (I : St → Prop) (f : St → St) :
  (∀ s, I s → I (f s)) → keeps I (modify f).
Proof. intros Hf s b s' HI [= _ <-]. auto. Qed.

Lemma keeps_put {St} (I : St → Prop) (s0 : St) : I s0 → keeps I (put s0).
Proof. intros Hf s b s' HI [= _ <-]. auto. Qed.

Section Frames.
Context (cfg : Config) (I : Store → Prop) (HI : table_only I).

Lemma keeps_at_page {A} r (m : M PhysicalPage A) : keeps I (at_page r m).
Proof.
  intros s a s' Hs. unfold at_page. destruct (heap s !! r); [|done].
  destruct (m p); [|done]. intros [= _ <-]. eapply HI; [|done]. done.
Qed.

Lemma keeps_deref r : keeps I (deref r).
Proof. intros s a s' Hs. unfold deref. destruct (heap s !! r); [|done]. by intros [= _ <-]. Qed.

Lemma keeps_alloc p : keeps I (alloc p).
Proof. intros s a s' Hs [= _ <-]. eapply HI; [|done]. done. Qed.

Lemma keeps_time : keeps I time.
Proof. intros s a s' Hs [= _ <-]. eapply HI; [|done]. done. Qed.

Lemma keeps_encode b z : keeps I (encode cfg b z).
Proof. unfold encode. destruct (to_bytes _ _ _); [apply keeps_ret|apply keeps_raise]. Qed.

Lemma keeps_column cs i : keeps I (column cs i).
Proof. apply keeps_from_option. Qed.

End Frames.

Ltac frame_side :=
  match goal with
  | HI : table_only ?I |- ?I _ =>
      eapply HI; [|eassumption]; reflexivity
  end.

Ltac keeps_known := fail.

Ltac skeeps_step :=
  lazymatch goal with
  | |- keeps _ (ret _) => apply keeps_ret
  | |- keeps _ (raise _) => apply keeps_raise
  | |- keeps _ (from_option _ _) => apply keeps_from_option
  | |- keeps _ (gets _) => apply keeps_gets
  | |- keeps _ (at_page _ _) => apply keeps_at_page; assumption
  | |- keeps _ (deref _) => apply keeps_deref
  | |- keeps _ (alloc _) => apply keeps_alloc; assumption
  | |- keeps _ time => apply keeps_time; assumption
  | |- keeps _ (encode _ _ _) => apply keeps_encode
  | |- keeps _ (column _ _) => apply keeps_column
  | |- keeps _ (modify _) => apply keeps_modify; intros; frame_side
  | |- keeps _ (put _) => apply keeps_put; frame_side
  | |- keeps _ (for_each _ _) => apply keeps_for_each; intros
  | |- keeps _ (map_m _ _) => apply keeps_map_m; intros
  | |- keeps _ (concat_map_m _ _) => apply keeps_concat_map_m; intros
  | |- keeps _ (bind get _) => apply keeps_bind_get; intros
  | |- keeps _ (bind _ _) => apply keeps_bind; [|intros]
  | |- keeps _ (match ?x with _ => _ end) => destruct x
  | |- _ => keeps_known
  end.
Ltac skeeps := repeat skeeps_step.

Section Frames2.
Context (cfg : Config) (I : Store → Prop) (HI : table_only I).

Lemma keeps_has_capacity : keeps I Bufferpool_has_capacity.
Proof. unfold Bufferpool_has_capacity. skeeps. Qed.

Lemma keeps_fetch p : keeps I (Bufferpool_fetch_phys_page cfg p).
Proof. unfold Bufferpool_fetch_phys_page. skeeps. Qed.

Lemma keeps_write_phys p : keeps I (Bufferpool_write_phys_page_to_disk p).
Proof. unfold Bufferpool_write_phys_page_to_disk. skeeps. Qed.

Lemma keeps_find_victim ps : keeps I (find_victim ps).
Proof. induction ps as [|p ps IH]; simpl; skeeps; done. Qed.

Lemma keeps_evict : keeps I Bufferpool_evict.
Proof.
  unfold Bufferpool_evict.
  repeat lazymatch goal with
         | |- keeps _ (find_victim _) => apply keeps_find_victim; assumption
         | |- keeps _ (Bufferpool_write_phys_page_to_disk _) =>
             apply keeps_write_phys; assumption
         | |- _ => skeeps_step
         end.
Qed.

Lemma keeps_page_lock_release p : keeps I (page_lock_release p).
Proof. unfold page_lock_release. skeeps. Qed.

Lemma keeps_get_physical_page_helper pr pg c b :
  keeps I (Bufferpool_get_physical_page_helper cfg pr pg c b).
Proof.
  unfold Bufferpool_get_physical_page_helper.
  repeat lazymatch goal with
         | |- keeps _ (page_lock_release _) =>
             apply keeps_page_lock_release; assumption
         | |- keeps _ Bufferpool_has_capacity => apply keeps_has_capacity
         | |- keeps _ Bufferpool_evict => apply keeps_evict; assumption
         | |- keeps _ (Bufferpool_fetch_phys_page _ _) =>
             apply keeps_fetch; assumption
         | |- _ => skeeps_step
         end.
Qed.
End Frames2.

Ltac keeps_known ::=
  lazymatch goal with
  | |- keeps _ (Bufferpool_get_physical_page_helper _ _ _ _ _) => apply keeps_get_physical_page_helper; assumption
  end.

Lemma keeps_get_physical_page (cfg : Config) (I : Store → Prop) pr pg c :
  table_only I → keeps I (Bufferpool_get_physical_page cfg pr pg c).
Proof. intros HI. unfold Bufferpool_get_physical_page. skeeps. Qed.

Ltac keeps_known ::=
  lazymatch goal with
  | |- keeps _ (Bufferpool_get_physical_page_helper _ _ _ _ _) => apply keeps_get_physical_page_helper; assumption
  | |- keeps _ (Bufferpool_get_physical_page _ _ _ _) => apply keeps_get_physical_page; assumption
  end.

Lemma keeps_get_physical_page_no_add (cfg : Config) (I : Store → Prop) pr pg c :
  table_only I → keeps I (Bufferpool_get_physical_page_no_add cfg pr pg c).
Proof. intros HI. unfold Bufferpool_get_physical_page_no_add. skeeps. Qed.

Ltac keeps_known ::=
  lazymatch goal with
  | |- keeps _ (Bufferpool_get_physical_page_helper _ _ _ _ _) => apply keeps_get_physical_page_helper; assumption
  | |- keeps _ (Bufferpool_get_physical_page _ _ _ _) => apply keeps_get_physical_page; assumption
  | |- keeps _ (Bufferpool_get_physical_page_no_add _ _ _ _) => apply keeps_get_physical_page_no_add; assumption
  end.

Lemma keeps_get_page_helper (cfg : Config) (I : Store → Prop) pr pg b :
  table_only I → keeps I (Bufferpool_get_page_helper cfg pr pg b).
Proof. intros HI. unfold Bufferpool_get_page_helper. skeeps. Qed.

Ltac keeps_known ::=
  lazymatch goal with
  | |- keeps _ (Bufferpool_get_physical_page_helper _ _ _ _ _) => apply keeps_get_physical_page_helper; assumption
  | |- keeps _ (Bufferpool_get_physical_page _ _ _ _) => apply keeps_get_physical_page; assumption
  | |- keeps _ (Bufferpool_get_physical_page_no_add _ _ _ _) => apply keeps_get_physical_page_no_add; assumption
  | |- keeps _ (Bufferpool_get_page_helper _ _ _ _) => apply keeps_get_page_helper; assumption
  end.

Lemma keeps_get_page (cfg : Config) (I : Store → Prop) pr pg :
  table_only I → keeps I (Bufferpool_get_page cfg pr pg).
Proof. intros HI. unfold Bufferpool_get_page. skeeps. Qed.

Ltac keeps_known ::=
  lazymatch goal with
  | |- keeps _ (Bufferpool_get_physical_page_helper _ _ _ _ _) => apply keeps_get_physical_page_helper; assumption
  | |- keeps _ (Bufferpool_get_physical_page _ _ _ _) => apply keeps_get_physical_page; assumption
  | |- keeps _ (Bufferpool_get_physical_page_no_add _ _ _ _) => apply keeps_get_physical_page_no_add; assumption
  | |- keeps _ (Bufferpool_get_page_helper _ _ _ _) => apply keeps_get_page_helper; assumption
  | |- keeps _ (Bufferpool_get_page _ _ _) => apply keeps_get_page; assumption
  end.

Lemma keeps_get_page_no_add (cfg : Config) (I : Store → Prop) pr pg :
  table_only I → keeps I (Bufferpool_get_page_no_add cfg pr pg).
Proof. intros HI. unfold Bufferpool_get_page_no_add. skeeps. Qed.

Ltac keeps_known ::=
  lazymatch goal with
  | |- keeps _ (Bufferpool_get_physical_page_helper _ _ _ _ _) => apply keeps_get_physical_page_helper; assumption
  | |- keeps _ (Bufferpool_get_physical_page _ _ _ _) => apply keeps_get_physical_page; assumption
  | |- keeps _ (Bufferpool_get_physical_page_no_add _ _ _ _) => apply keeps_get_physical_page_no_add; assumption
  | |- keeps _ (Bufferpool_get_page_helper _ _ _ _) => apply keeps_get_page_helper; assumption
  | |- keeps _ (Bufferpool_get_page _ _ _) => apply keeps_get_page; assumption
  | |- keeps _ (Bufferpool_get_page_no_add _ _ _) => apply keeps_get_page_no_add; assumption
  end.

Lemma keeps_unpack_location (cfg : Config) (I : Store → Prop) rid :
  table_only I → keeps I (unpack_location rid).
Proof. intros HI. unfold unpack_location, Table_use_page_directory_r. skeeps. Qed.

Ltac keeps_known ::=
  lazymatch goal with
  | |- keeps _ (Bufferpool_get_physical_page_helper _ _ _ _ _) => apply keeps_get_physical_page_helper; assumption
  | |- keeps _ (Bufferpool_get_physical_page _ _ _ _) => apply keeps_get_physical_page; assumption
  | |- keeps _ (Bufferpool_get_physical_page_no_add _ _ _ _) => apply keeps_get_physical_page_no_add; assumption
  | |- keeps _ (Bufferpool_get_page_helper _ _ _ _) => apply keeps_get_page_helper; assumption
  | |- keeps _ (Bufferpool_get_page _ _ _) => apply keeps_get_page; assumption
  | |- keeps _ (Bufferpool_get_page_no_add _ _ _) => apply keeps_get_page_no_add; assumption
  | |- keeps _ (unpack_location _) => apply keeps_unpack_location; assumption
  end.

Lemma keeps_get_tps (cfg : Config) (I : Store → Prop) pr pg :
  table_only I → keeps I (Bufferpool_get_tps cfg pr pg).
Proof. intros HI. unfold Bufferpool_get_tps. skeeps. Qed.

Ltac keeps_known ::=
  lazymatch goal with
  | |- keeps _ (Bufferpool_get_physical_page_helper _ _ _ _ _) => apply keeps_get_physical_page_helper; assumption
  | |- keeps _ (Bufferpool_get_physical_page _ _ _ _) => apply keeps_get_physical_page; assumption
  | |- keeps _ (Bufferpool_get_physical_page_no_add _ _ _ _) => apply keeps_get_physical_page_no_add; assumption
  | |- keeps _ (Bufferpool_get_page_helper _ _ _ _) => apply keeps_get_page_helper; assumption
  | |- keeps _ (Bufferpool_get_page _ _ _) => apply keeps_get_page; assumption
  | |- keeps _ (Bufferpool_get_page_no_add _ _ _) => apply keeps_get_page_no_add; assumption
  | |- keeps _ (unpack_location _) => apply keeps_unpack_location; assumption
  | |- keeps _ (Bufferpool_get_tps _ _ _) => apply keeps_get_tps; assumption
  end.

Lemma keeps_get_num_updates (cfg : Config) (I : Store → Prop) pr pg :
  table_only I → keeps I (Bufferpool_get_num_updates cfg pr pg).
Proof. intros HI. unfold Bufferpool_get_num_updates. skeeps. Qed.

Ltac keeps_known ::=
  lazymatch goal with
  | |- keeps _ (Bufferpool_get_physical_page_helper _ _ _ _ _) => apply keeps_get_physical_page_helper; assumption
  | |- keeps _ (Bufferpool_get_physical_page _ _ _ _) => apply keeps_get_physical_page; assumption
  | |- keeps _ (Bufferpool_get_physical_page_no_add _ _ _ _) => apply keeps_get_physical_page_no_add; assumption
  | |- keeps _ (Bufferpool_get_page_helper _ _ _ _) => apply keeps_get_page_helper; assumption
  | |- keeps _ (Bufferpool_get_page _ _ _) => apply keeps_get_page; assumption
  | |- keeps _ (Bufferpool_get_page_no_add _ _ _) => apply keeps_get_page_no_add; assumption
  | |- keeps _ (unpack_location _) => apply keeps_unpack_location; assumption
  | |- keeps _ (Bufferpool_get_tps _ _ _) => apply keeps_get_tps; assumption
  | |- keeps _ (Bufferpool_get_num_updates _ _ _) => apply keeps_get_num_updates; assumption
  end.

Lemma keeps_set_num_updates (cfg : Config) (I : Store → Prop) pr pg n :
  table_only I → keeps I (Bufferpool_set_num_updates cfg pr pg n).
Proof. intros HI. unfold Bufferpool_set_num_updates. skeeps. Qed.

Ltac keeps_known ::=
  lazymatch goal with
  | |- keeps _ (Bufferpool_get_physical_page_helper _ _ _ _ _) => apply keeps_get_physical_page_helper; assumption
  | |- keeps _ (Bufferpool_get_physical_page _ _ _ _) => apply keeps_get_physical_page; assumption
  | |- keeps _ (Bufferpool_get_physical_page_no_add _ _ _ _) => apply keeps_get_physical_page_no_add; assumption
  | |- keeps _ (Bufferpool_get_page_helper _ _ _ _) => apply keeps_get_page_helper; assumption
  | |- keeps _ (Bufferpool_get_page _ _ _) => apply keeps_get_page; assumption
  | |- keeps _ (Bufferpool_get_page_no_add _ _ _) => apply keeps_get_page_no_add; assumption
  | |- keeps _ (unpack_location _) => apply keeps_unpack_location; assumption
  | |- keeps _ (Bufferpool_get_tps _ _ _) => apply keeps_get_tps; assumption
  | |- keeps _ (Bufferpool_get_num_updates _ _ _) => apply keeps_get_num_updates; assumption
  | |- keeps _ (Bufferpool_set_num_updates _ _ _ _) => apply keeps_set_num_updates; assumption
  end.

Lemma keeps_get_record_column_val (cfg : Config) (I : Store → Prop) rid c :
  table_only I → keeps I (Bufferpool_get_record_column_val cfg rid c).
Proof. intros HI. unfold Bufferpool_get_record_column_val. skeeps. Qed.

Ltac keeps_known ::=
  lazymatch goal with
  | |- keeps _ (Bufferpool_get_physical_page_helper _ _ _ _ _) => apply keeps_get_physical_page_helper; assumption
  | |- keeps _ (Bufferpool_get_physical_page _ _ _ _) => apply keeps_get_physical_page; assumption
  | |- keeps _ (Bufferpool_get_physical_page_no_add _ _ _ _) => apply keeps_get_physical_page_no_add; assumption
  | |- keeps _ (Bufferpool_get_page_helper _ _ _ _) => apply keeps_get_page_helper; assumption
  | |- keeps _ (Bufferpool_get_page _ _ _) => apply keeps_get_page; assumption
  | |- keeps _ (Bufferpool_get_page_no_add _ _ _) => apply keeps_get_page_no_add; assumption
  | |- keeps _ (unpack_location _) => apply keeps_unpack_location; assumption
  | |- keeps _ (Bufferpool_get_tps _ _ _) => apply keeps_get_tps; assumption
  | |- keeps _ (Bufferpool_get_num_updates _ _ _) => apply keeps_get_num_updates; assumption
  | |- keeps _ (Bufferpool_set_num_updates _ _ _ _) => apply keeps_set_num_updates; assumption
  | |- keeps _ (Bufferpool_get_record_column_val _ _ _) => apply keeps_get_record_column_val; assumption
  end.

Lemma keeps_Record_init (cfg : Config) (I : Store → Prop) rid k cols :
  table_only I → keeps I (Record_init cfg rid k cols).
Proof. intros HI. unfold Record_init. skeeps. Qed.

Ltac keeps_known ::=
  lazymatch goal with
  | |- keeps _ (Bufferpool_get_physical_page_helper _ _ _ _ _) => apply keeps_get_physical_page_helper; assumption
  | |- keeps _ (Bufferpool_get_physical_page _ _ _ _) => apply keeps_get_physical_page; assumption
  | |- keeps _ (Bufferpool_get_physical_page_no_add _ _ _ _) => apply keeps_get_physical_page_no_add; assumption
  | |- keeps _ (Bufferpool_get_page_helper _ _ _ _) => apply keeps_get_page_helper; assumption
  | |- keeps _ (Bufferpool_get_page _ _ _) => apply keeps_get_page; assumption
  | |- keeps _ (Bufferpool_get_page_no_add _ _ _) => apply keeps_get_page_no_add; assumption
  | |- keeps _ (unpack_location _) => apply keeps_unpack_location; assumption
  | |- keeps _ (Bufferpool_get_tps _ _ _) => apply keeps_get_tps; assumption
  | |- keeps _ (Bufferpool_get_num_updates _ _ _) => apply keeps_get_num_updates; assumption
  | |- keeps _ (Bufferpool_set_num_updates _ _ _ _) => apply keeps_set_num_updates; assumption
  | |- keeps _ (Bufferpool_get_record_column_val _ _ _) => apply keeps_get_record_column_val; assumption
  | |- keeps _ (Record_init _ _ _ _) => apply keeps_Record_init; assumption
  end.

Lemma keeps_get_record (cfg : Config) (I : Store → Prop) rid :
  table_only I → keeps I (Bufferpool_get_record cfg rid).
Proof. intros HI. unfold Bufferpool_get_record. skeeps. Qed.

Ltac keeps_known ::=
  lazymatch goal with
  | |- keeps _ (Bufferpool_get_physical_page_helper _ _ _ _ _) => apply keeps_get_physical_page_helper; assumption
  | |- keeps _ (Bufferpool_get_physical_page _ _ _ _) => apply keeps_get_physical_page; assumption
  | |- keeps _ (Bufferpool_get_physical_page_no_add _ _ _ _) => apply keeps_get_physical_page_no_add; assumption
  | |- keeps _ (Bufferpool_get_page_helper _ _ _ _) => apply keeps_get_page_helper; assumption
  | |- keeps _ (Bufferpool_get_page _ _ _) => apply keeps_get_page; assumption
  | |- keeps _ (Bufferpool_get_page_no_add _ _ _) => apply keeps_get_page_no_add; assumption
  | |- keeps _ (unpack_location _) => apply keeps_unpack_location; assumption
  | |- keeps _ (Bufferpool_get_tps _ _ _) => apply keeps_get_tps; assumption
  | |- keeps _ (Bufferpool_get_num_updates _ _ _) => apply keeps_get_num_updates; assumption
  | |- keeps _ (Bufferpool_set_num_updates _ _ _ _) => apply keeps_set_num_updates; assumption
  | |- keeps _ (Bufferpool_get_record_column_val _ _ _) => apply keeps_get_record_column_val; assumption
  | |- keeps _ (Record_init _ _ _ _) => apply keeps_Record_init; assumption
  | |- keeps _ (Bufferpool_get_record _ _) => apply keeps_get_record; assumption
  end.

Lemma keeps_follow_indirection (cfg : Config) (I : Store → Prop) fuel rid v :
  table_only I → keeps I (follow_indirection cfg fuel rid v).
Proof. intros HI. revert rid v. induction fuel as [|fuel IH]; intros rid v; simpl; skeeps; apply IH. Qed.

Ltac keeps_known ::=
  lazymatch goal with
  | |- keeps _ (Bufferpool_get_physical_page_helper _ _ _ _ _) => apply keeps_get_physical_page_helper; assumption
  | |- keeps _ (Bufferpool_get_physical_page _ _ _ _) => apply keeps_get_physical_page; assumption
  | |- keeps _ (Bufferpool_get_physical_page_no_add _ _ _ _) => apply keeps_get_physical_page_no_add; assumption
  | |- keeps _ (Bufferpool_get_page_helper _ _ _ _) => apply keeps_get_page_helper; assumption
  | |- keeps _ (Bufferpool_get_page _ _ _) => apply keeps_get_page; assumption
  | |- keeps _ (Bufferpool_get_page_no_add _ _ _) => apply keeps_get_page_no_add; assumption
  | |- keeps _ (unpack_location _) => apply keeps_unpack_location; assumption
  | |- keeps _ (Bufferpool_get_tps _ _ _) => apply keeps_get_tps; assumption
  | |- keeps _ (Bufferpool_get_num_updates _ _ _) => apply keeps_get_num_updates; assumption
  | |- keeps _ (Bufferpool_set_num_updates _ _ _ _) => apply keeps_set_num_updates; assumption
  | |- keeps _ (Bufferpool_get_record_column_val _ _ _) => apply keeps_get_record_column_val; assumption
  | |- keeps _ (Record_init _ _ _ _) => apply keeps_Record_init; assumption
  | |- keeps _ (Bufferpool_get_record _ _) => apply keeps_get_record; assumption
  | |- keeps _ (follow_indirection _ _ _ _) => apply keeps_follow_indirection; assumption
  end.

Lemma keeps_get_record_version (cfg : Config) (I : Store → Prop) rid v :
  table_only I → keeps I (Table_get_record_version cfg rid v).
Proof. intros HI. unfold Table_get_record_version. skeeps. Qed.

Ltac keeps_known ::=
  lazymatch goal with
  | |- keeps _ (Bufferpool_get_physical_page_helper _ _ _ _ _) => apply keeps_get_physical_page_helper; assumption
  | |- keeps _ (Bufferpool_get_physical_page _ _ _ _) => apply keeps_get_physical_page; assumption
  | |- keeps _ (Bufferpool_get_physical_page_no_add _ _ _ _) => apply keeps_get_physical_page_no_add; assumption
  | |- keeps _ (Bufferpool_get_page_helper _ _ _ _) => apply keeps_get_page_helper; assumption
  | |- keeps _ (Bufferpool_get_page _ _ _) => apply keeps_get_page; assumption
  | |- keeps _ (Bufferpool_get_page_no_add _ _ _) => apply keeps_get_page_no_add; assumption
  | |- keeps _ (unpack_location _) => apply keeps_unpack_location; assumption
  | |- keeps _ (Bufferpool_get_tps _ _ _) => apply keeps_get_tps; assumption
  | |- keeps _ (Bufferpool_get_num_updates _ _ _) => apply keeps_get_num_updates; assumption
  | |- keeps _ (Bufferpool_set_num_updates _ _ _ _) => apply keeps_set_num_updates; assumption
  | |- keeps _ (Bufferpool_get_record_column_val _ _ _) => apply keeps_get_record_column_val; assumption
  | |- keeps _ (Record_init _ _ _ _) => apply keeps_Record_init; assumption
  | |- keeps _ (Bufferpool_get_record _ _) => apply keeps_get_record; assumption
  | |- keeps _ (follow_indirection _ _ _ _) => apply keeps_follow_indirection; assumption
  | |- keeps _ (Table_get_record_version _ _ _) => apply keeps_get_record_version; assumption
  end.

Lemma keeps_get_latest_record (cfg : Config) (I : Store → Prop) rid :
  table_only I → keeps I (Table_get_latest_record cfg rid).
Proof. intros HI. unfold Table_get_latest_record. skeeps. Qed.

Ltac keeps_known ::=
  lazymatch goal with
  | |- keeps _ (Bufferpool_get_physical_page_helper _ _ _ _ _) => apply keeps_get_physical_page_helper; assumption
  | |- keeps _ (Bufferpool_get_physical_page _ _ _ _) => apply keeps_get_physical_page; assumption
  | |- keeps _ (Bufferpool_get_physical_page_no_add _ _ _ _) => apply keeps_get_physical_page_no_add; assumption
  | |- keeps _ (Bufferpool_get_page_helper _ _ _ _) => apply keeps_get_page_helper; assumption
  | |- keeps _ (Bufferpool_get_page _ _ _) => apply keeps_get_page; assumption
  | |- keeps _ (Bufferpool_get_page_no_add _ _ _) => apply keeps_get_page_no_add; assumption
  | |- keeps _ (unpack_location _) => apply keeps_unpack_location; assumption
  | |- keeps _ (Bufferpool_get_tps _ _ _) => apply keeps_get_tps; assumption
  | |- keeps _ (Bufferpool_get_num_updates _ _ _) => apply keeps_get_num_updates; assumption
  | |- keeps _ (Bufferpool_set_num_updates _ _ _ _) => apply keeps_set_num_updates; assumption
  | |- keeps _ (Bufferpool_get_record_column_val _ _ _) => apply keeps_get_record_column_val; assumption
  | |- keeps _ (Record_init _ _ _ _) => apply keeps_Record_init; assumption
  | |- keeps _ (Bufferpool_get_record _ _) => apply keeps_get_record; assumption
  | |- keeps _ (follow_indirection _ _ _ _) => apply keeps_follow_indirection; assumption
  | |- keeps _ (Table_get_record_version _ _ _) => apply keeps_get_record_version; assumption
  | |- keeps _ (Table_get_latest_record _ _) => apply keeps_get_latest_record; assumption
  end.

Lemma keeps_get_record_column_version (cfg : Config) (I : Store → Prop) rid v c :
  table_only I → keeps I (Table_get_record_column_version cfg rid v c).
Proof. intros HI. unfold Table_get_record_column_version, Table_use_page_directory_r. skeeps. Qed.

Ltac keeps_known ::=
  lazymatch goal with
  | |- keeps _ (Bufferpool_get_physical_page_helper _ _ _ _ _) => apply keeps_get_physical_page_helper; assumption
  | |- keeps _ (Bufferpool_get_physical_page _ _ _ _) => apply keeps_get_physical_page; assumption
  | |- keeps _ (Bufferpool_get_physical_page_no_add _ _ _ _) => apply keeps_get_physical_page_no_add; assumption
  | |- keeps _ (Bufferpool_get_page_helper _ _ _ _) => apply keeps_get_page_helper; assumption
  | |- keeps _ (Bufferpool_get_page _ _ _) => apply keeps_get_page; assumption
  | |- keeps _ (Bufferpool_get_page_no_add _ _ _) => apply keeps_get_page_no_add; assumption
  | |- keeps _ (unpack_location _) => apply keeps_unpack_location; assumption
  | |- keeps _ (Bufferpool_get_tps _ _ _) => apply keeps_get_tps; assumption
  | |- keeps _ (Bufferpool_get_num_updates _ _ _) => apply keeps_get_num_updates; assumption
  | |- keeps _ (Bufferpool_set_num_updates _ _ _ _) => apply keeps_set_num_updates; assumption
  | |- keeps _ (Bufferpool_get_record_column_val _ _ _) => apply keeps_get_record_column_val; assumption
  | |- keeps _ (Record_init _ _ _ _) => apply keeps_Record_init; assumption
  | |- keeps _ (Bufferpool_get_record _ _) => apply keeps_get_record; assumption
  | |- keeps _ (follow_indirection _ _ _ _) => apply keeps_follow_indirection; assumption
  | |- keeps _ (Table_get_record_version _ _ _) => apply keeps_get_record_version; assumption
  | |- keeps _ (Table_get_latest_record _ _) => apply keeps_get_latest_record; assumption
  | |- keeps _ (Table_get_record_column_version _ _ _ _) => apply keeps_get_record_column_version; assumption
  end.

Lemma keeps_get_latest_column_val (cfg : Config) (I : Store → Prop) rid c :
  table_only I → keeps I (Table_get_latest_column_val cfg rid c).
Proof. intros HI. unfold Table_get_latest_column_val. skeeps. Qed.

Ltac keeps_known ::=
  lazymatch goal with
  | |- keeps _ (Bufferpool_get_physical_page_helper _ _ _ _ _) => apply keeps_get_physical_page_helper; assumption
  | |- keeps _ (Bufferpool_get_physical_page _ _ _ _) => apply keeps_get_physical_page; assumption
  | |- keeps _ (Bufferpool_get_physical_page_no_add _ _ _ _) => apply keeps_get_physical_page_no_add; assumption
  | |- keeps _ (Bufferpool_get_page_helper _ _ _ _) => apply keeps_get_page_helper; assumption
  | |- keeps _ (Bufferpool_get_page _ _ _) => apply keeps_get_page; assumption
  | |- keeps _ (Bufferpool_get_page_no_add _ _ _) => apply keeps_get_page_no_add; assumption
  | |- keeps _ (unpack_location _) => apply keeps_unpack_location; assumption
  | |- keeps _ (Bufferpool_get_tps _ _ _) => apply keeps_get_tps; assumption
  | |- keeps _ (Bufferpool_get_num_updates _ _ _) => apply keeps_get_num_updates; assumption
  | |- keeps _ (Bufferpool_set_num_updates _ _ _ _) => apply keeps_set_num_updates; assumption
  | |- keeps _ (Bufferpool_get_record_column_val _ _ _) => apply keeps_get_record_column_val; assumption
  | |- keeps _ (Record_init _ _ _ _) => apply keeps_Record_init; assumption
  | |- keeps _ (Bufferpool_get_record _ _) => apply keeps_get_record; assumption
  | |- keeps _ (follow_indirection _ _ _ _) => apply keeps_follow_indirection; assumption
  | |- keeps _ (Table_get_record_version _ _ _) => apply keeps_get_record_version; assumption
  | |- keeps _ (Table_get_latest_record _ _) => apply keeps_get_latest_record; assumption
  | |- keeps _ (Table_get_record_column_version _ _ _ _) => apply keeps_get_record_column_version; assumption
  | |- keeps _ (Table_get_latest_column_val _ _ _) => apply keeps_get_latest_column_val; assumption
  end.

Lemma keeps_bump_pin_count (cfg : Config) (I : Store → Prop) r d :
  table_only I → keeps I (bump_pin_count r d).
Proof. intros HI. unfold bump_pin_count. skeeps. Qed.

Ltac keeps_known ::=
  lazymatch goal with
  | |- keeps _ (Bufferpool_get_physical_page_helper _ _ _ _ _) => apply keeps_get_physical_page_helper; assumption
  | |- keeps _ (Bufferpool_get_physical_page _ _ _ _) => apply keeps_get_physical_page; assumption
  | |- keeps _ (Bufferpool_get_physical_page_no_add _ _ _ _) => apply keeps_get_physical_page_no_add; assumption
  | |- keeps _ (Bufferpool_get_page_helper _ _ _ _) => apply keeps_get_page_helper; assumption
  | |- keeps _ (Bufferpool_get_page _ _ _) => apply keeps_get_page; assumption
  | |- keeps _ (Bufferpool_get_page_no_add _ _ _) => apply keeps_get_page_no_add; assumption
  | |- keeps _ (unpack_location _) => apply keeps_unpack_location; assumption
  | |- keeps _ (Bufferpool_get_tps _ _ _) => apply keeps_get_tps; assumption
  | |- keeps _ (Bufferpool_get_num_updates _ _ _) => apply keeps_get_num_updates; assumption
  | |- keeps _ (Bufferpool_set_num_updates _ _ _ _) => apply keeps_set_num_updates; assumption
  | |- keeps _ (Bufferpool_get_record_column_val _ _ _) => apply keeps_get_record_column_val; assumption
  | |- keeps _ (Record_init _ _ _ _) => apply keeps_Record_init; assumption
  | |- keeps _ (Bufferpool_get_record _ _) => apply keeps_get_record; assumption
  | |- keeps _ (follow_indirection _ _ _ _) => apply keeps_follow_indirection; assumption
  | |- keeps _ (Table_get_record_version _ _ _) => apply keeps_get_record_version; assumption
  | |- keeps _ (Table_get_latest_record _ _) => apply keeps_get_latest_record; assumption
  | |- keeps _ (Table_get_record_column_version _ _ _ _) => apply keeps_get_record_column_version; assumption
  | |- keeps _ (Table_get_latest_column_val _ _ _) => apply keeps_get_latest_column_val; assumption
  | |- keeps _ (bump_pin_count _ _) => apply keeps_bump_pin_count; assumption
  end.

Lemma keeps_mark_dirty (cfg : Config) (I : Store → Prop) r :
  table_only I → keeps I (mark_dirty r).
Proof. intros HI. unfold mark_dirty. skeeps. Qed.

Ltac keeps_known ::=
  lazymatch goal with
  | |- keeps _ (Bufferpool_get_physical_page_helper _ _ _ _ _) => apply keeps_get_physical_page_helper; assumption
  | |- keeps _ (Bufferpool_get_physical_page _ _ _ _) => apply keeps_get_physical_page; assumption
  | |- keeps _ (Bufferpool_get_physical_page_no_add _ _ _ _) => apply keeps_get_physical_page_no_add; assumption
  | |- keeps _ (Bufferpool_get_page_helper _ _ _ _) => apply keeps_get_page_helper; assumption
  | |- keeps _ (Bufferpool_get_page _ _ _) => apply keeps_get_page; assumption
  | |- keeps _ (Bufferpool_get_page_no_add _ _ _) => apply keeps_get_page_no_add; assumption
  | |- keeps _ (unpack_location _) => apply keeps_unpack_location; assumption
  | |- keeps _ (Bufferpool_get_tps _ _ _) => apply keeps_get_tps; assumption
  | |- keeps _ (Bufferpool_get_num_updates _ _ _) => apply keeps_get_num_updates; assumption
  | |- keeps _ (Bufferpool_set_num_updates _ _ _ _) => apply keeps_set_num_updates; assumption
  | |- keeps _ (Bufferpool_get_record_column_val _ _ _) => apply keeps_get_record_column_val; assumption
  | |- keeps _ (Record_init _ _ _ _) => apply keeps_Record_init; assumption
  | |- keeps _ (Bufferpool_get_record _ _) => apply keeps_get_record; assumption
  | |- keeps _ (follow_indirection _ _ _ _) => apply keeps_follow_indirection; assumption
  | |- keeps _ (Table_get_record_version _ _ _) => apply keeps_get_record_version; assumption
  | |- keeps _ (Table_get_latest_record _ _) => apply keeps_get_latest_record; assumption
  | |- keeps _ (Table_get_record_column_version _ _ _ _) => apply keeps_get_record_column_version; assumption
  | |- keeps _ (Table_get_latest_column_val _ _ _) => apply keeps_get_latest_column_val; assumption
  | |- keeps _ (bump_pin_count _ _) => apply keeps_bump_pin_count; assumption
  | |- keeps _ (mark_dirty _) => apply keeps_mark_dirty; assumption
  end.

Lemma keeps_bump_num_records (cfg : Config) (I : Store → Prop) r :
  table_only I → keeps I (bump_num_records r).
Proof. intros HI. unfold bump_num_records. skeeps. Qed.

Ltac keeps_known ::=
  lazymatch goal with
  | |- keeps _ (Bufferpool_get_physical_page_helper _ _ _ _ _) => apply keeps_get_physical_page_helper; assumption
  | |- keeps _ (Bufferpool_get_physical_page _ _ _ _) => apply keeps_get_physical_page; assumption
  | |- keeps _ (Bufferpool_get_physical_page_no_add _ _ _ _) => apply keeps_get_physical_page_no_add; assumption
  | |- keeps _ (Bufferpool_get_page_helper _ _ _ _) => apply keeps_get_page_helper; assumption
  | |- keeps _ (Bufferpool_get_page _ _ _) => apply keeps_get_page; assumption
  | |- keeps _ (Bufferpool_get_page_no_add _ _ _) => apply keeps_get_page_no_add; assumption
  | |- keeps _ (unpack_location _) => apply keeps_unpack_location; assumption
  | |- keeps _ (Bufferpool_get_tps _ _ _) => apply keeps_get_tps; assumption
  | |- keeps _ (Bufferpool_get_num_updates _ _ _) => apply keeps_get_num_updates; assumption
  | |- keeps _ (Bufferpool_set_num_updates _ _ _ _) => apply keeps_set_num_updates; assumption
  | |- keeps _ (Bufferpool_get_record_column_val _ _ _) => apply keeps_get_record_column_val; assumption
  | |- keeps _ (Record_init _ _ _ _) => apply keeps_Record_init; assumption
  | |- keeps _ (Bufferpool_get_record _ _) => apply keeps_get_record; assumption
  | |- keeps _ (follow_indirection _ _ _ _) => apply keeps_follow_indirection; assumption
  | |- keeps _ (Table_get_record_version _ _ _) => apply keeps_get_record_version; assumption
  | |- keeps _ (Table_get_latest_record _ _) => apply keeps_get_latest_record; assumption
  | |- keeps _ (Table_get_record_column_version _ _ _ _) => apply keeps_get_record_column_version; assumption
  | |- keeps _ (Table_get_latest_column_val _ _ _) => apply keeps_get_latest_column_val; assumption
  | |- keeps _ (bump_pin_count _ _) => apply keeps_bump_pin_count; assumption
  | |- keeps _ (mark_dirty _) => apply keeps_mark_dirty; assumption
  | |- keeps _ (bump_num_records _) => apply keeps_bump_num_records; assumption
  end.

Lemma keeps_first_num_records (cfg : Config) (I : Store → Prop) cs :
  table_only I → keeps I (first_num_records cs).
Proof. intros HI. unfold first_num_records. skeeps. Qed.

Ltac keeps_known ::=
  lazymatch goal with
  | |- keeps _ (Bufferpool_get_physical_page_helper _ _ _ _ _) => apply keeps_get_physical_page_helper; assumption
  | |- keeps _ (Bufferpool_get_physical_page _ _ _ _) => apply keeps_get_physical_page; assumption
  | |- keeps _ (Bufferpool_get_physical_page_no_add _ _ _ _) => apply keeps_get_physical_page_no_add; assumption
  | |- keeps _ (Bufferpool_get_page_helper _ _ _ _) => apply keeps_get_page_helper; assumption
  | |- keeps _ (Bufferpool_get_page _ _ _) => apply keeps_get_page; assumption
  | |- keeps _ (Bufferpool_get_page_no_add _ _ _) => apply keeps_get_page_no_add; assumption
  | |- keeps _ (unpack_location _) => apply keeps_unpack_location; assumption
  | |- keeps _ (Bufferpool_get_tps _ _ _) => apply keeps_get_tps; assumption
  | |- keeps _ (Bufferpool_get_num_updates _ _ _) => apply keeps_get_num_updates; assumption
  | |- keeps _ (Bufferpool_set_num_updates _ _ _ _) => apply keeps_set_num_updates; assumption
  | |- keeps _ (Bufferpool_get_record_column_val _ _ _) => apply keeps_get_record_column_val; assumption
  | |- keeps _ (Record_init _ _ _ _) => apply keeps_Record_init; assumption
  | |- keeps _ (Bufferpool_get_record _ _) => apply keeps_get_record; assumption
  | |- keeps _ (follow_indirection _ _ _ _) => apply keeps_follow_indirection; assumption
  | |- keeps _ (Table_get_record_version _ _ _) => apply keeps_get_record_version; assumption
  | |- keeps _ (Table_get_latest_record _ _) => apply keeps_get_latest_record; assumption
  | |- keeps _ (Table_get_record_column_version _ _ _ _) => apply keeps_get_record_column_version; assumption
  | |- keeps _ (Table_get_latest_column_val _ _ _) => apply keeps_get_latest_column_val; assumption
  | |- keeps _ (bump_pin_count _ _) => apply keeps_bump_pin_count; assumption
  | |- keeps _ (mark_dirty _) => apply keeps_mark_dirty; assumption
  | |- keeps _ (bump_num_records _) => apply keeps_bump_num_records; assumption
  | |- keeps _ (first_num_records _) => apply keeps_first_num_records; assumption
  end.

Lemma keeps_get_highest_base_page_num (cfg : Config) (I : Store → Prop) pr :
  table_only I → keeps I (Bufferpool_get_highest_base_page_num pr).
Proof. intros HI. unfold Bufferpool_get_highest_base_page_num. skeeps. Qed.

Ltac keeps_known ::=
  lazymatch goal with
  | |- keeps _ (Bufferpool_get_physical_page_helper _ _ _ _ _) => apply keeps_get_physical_page_helper; assumption
  | |- keeps _ (Bufferpool_get_physical_page _ _ _ _) => apply keeps_get_physical_page; assumption
  | |- keeps _ (Bufferpool_get_physical_page_no_add _ _ _ _) => apply keeps_get_physical_page_no_add; assumption
  | |- keeps _ (Bufferpool_get_page_helper _ _ _ _) => apply keeps_get_page_helper; assumption
  | |- keeps _ (Bufferpool_get_page _ _ _) => apply keeps_get_page; assumption
  | |- keeps _ (Bufferpool_get_page_no_add _ _ _) => apply keeps_get_page_no_add; assumption
  | |- keeps _ (unpack_location _) => apply keeps_unpack_location; assumption
  | |- keeps _ (Bufferpool_get_tps _ _ _) => apply keeps_get_tps; assumption
  | |- keeps _ (Bufferpool_get_num_updates _ _ _) => apply keeps_get_num_updates; assumption
  | |- keeps _ (Bufferpool_set_num_updates _ _ _ _) => apply keeps_set_num_updates; assumption
  | |- keeps _ (Bufferpool_get_record_column_val _ _ _) => apply keeps_get_record_column_val; assumption
  | |- keeps _ (Record_init _ _ _ _) => apply keeps_Record_init; assumption
  | |- keeps _ (Bufferpool_get_record _ _) => apply keeps_get_record; assumption
  | |- keeps _ (follow_indirection _ _ _ _) => apply keeps_follow_indirection; assumption
  | |- keeps _ (Table_get_record_version _ _ _) => apply keeps_get_record_version; assumption
  | |- keeps _ (Table_get_latest_record _ _) => apply keeps_get_latest_record; assumption
  | |- keeps _ (Table_get_record_column_version _ _ _ _) => apply keeps_get_record_column_version; assumption
  | |- keeps _ (Table_get_latest_column_val _ _ _) => apply keeps_get_latest_column_val; assumption
  | |- keeps _ (bump_pin_count _ _) => apply keeps_bump_pin_count; assumption
  | |- keeps _ (mark_dirty _) => apply keeps_mark_dirty; assumption
  | |- keeps _ (bump_num_records _) => apply keeps_bump_num_records; assumption
  | |- keeps _ (first_num_records _) => apply keeps_first_num_records; assumption
  | |- keeps _ (Bufferpool_get_highest_base_page_num _) => apply keeps_get_highest_base_page_num; assumption
  end.

Lemma keeps_get_highest_tail_page_num (cfg : Config) (I : Store → Prop) pr :
  table_only I → keeps I (Bufferpool_get_highest_tail_page_num pr).
Proof. intros HI. unfold Bufferpool_get_highest_tail_page_num. skeeps. Qed.

Ltac keeps_known ::=
  lazymatch goal with
  | |- keeps _ (Bufferpool_get_physical_page_helper _ _ _ _ _) => apply keeps_get_physical_page_helper; assumption
  | |- keeps _ (Bufferpool_get_physical_page _ _ _ _) => apply keeps_get_physical_page; assumption
  | |- keeps _ (Bufferpool_get_physical_page_no_add _ _ _ _) => apply keeps_get_physical_page_no_add; assumption
  | |- keeps _ (Bufferpool_get_page_helper _ _ _ _) => apply keeps_get_page_helper; assumption
  | |- keeps _ (Bufferpool_get_page _ _ _) => apply keeps_get_page; assumption
  | |- keeps _ (Bufferpool_get_page_no_add _ _ _) => apply keeps_get_page_no_add; assumption
  | |- keeps _ (unpack_location _) => apply keeps_unpack_location; assumption
  | |- keeps _ (Bufferpool_get_tps _ _ _) => apply keeps_get_tps; assumption
  | |- keeps _ (Bufferpool_get_num_updates _ _ _) => apply keeps_get_num_updates; assumption
  | |- keeps _ (Bufferpool_set_num_updates _ _ _ _) => apply keeps_set_num_updates; assumption
  | |- keeps _ (Bufferpool_get_record_column_val _ _ _) => apply keeps_get_record_column_val; assumption
  | |- keeps _ (Record_init _ _ _ _) => apply keeps_Record_init; assumption
  | |- keeps _ (Bufferpool_get_record _ _) => apply keeps_get_record; assumption
  | |- keeps _ (follow_indirection _ _ _ _) => apply keeps_follow_indirection; assumption
  | |- keeps _ (Table_get_record_version _ _ _) => apply keeps_get_record_version; assumption
  | |- keeps _ (Table_get_latest_record _ _) => apply keeps_get_latest_record; assumption
  | |- keeps _ (Table_get_record_column_version _ _ _ _) => apply keeps_get_record_column_version; assumption
  | |- keeps _ (Table_get_latest_column_val _ _ _) => apply keeps_get_latest_column_val; assumption
  | |- keeps _ (bump_pin_count _ _) => apply keeps_bump_pin_count; assumption
  | |- keeps _ (mark_dirty _) => apply keeps_mark_dirty; assumption
  | |- keeps _ (bump_num_records _) => apply keeps_bump_num_records; assumption
  | |- keeps _ (first_num_records _) => apply keeps_first_num_records; assumption
  | |- keeps _ (Bufferpool_get_highest_base_page_num _) => apply keeps_get_highest_base_page_num; assumption
  | |- keeps _ (Bufferpool_get_highest_tail_page_num _) => apply keeps_get_highest_tail_page_num; assumption
  end.

Lemma keeps_page_has_capacity (cfg : Config) (I : Store → Prop) pr pg :
  table_only I → keeps I (Bufferpool_page_has_capacity cfg pr pg).
Proof. intros HI. unfold Bufferpool_page_has_capacity. skeeps. Qed.

Ltac keeps_known ::=
  lazymatch goal with
  | |- keeps _ (Bufferpool_get_physical_page_helper _ _ _ _ _) => apply keeps_get_physical_page_helper; assumption
  | |- keeps _ (Bufferpool_get_physical_page _ _ _ _) => apply keeps_get_physical_page; assumption
  | |- keeps _ (Bufferpool_get_physical_page_no_add _ _ _ _) => apply keeps_get_physical_page_no_add; assumption
  | |- keeps _ (Bufferpool_get_page_helper _ _ _ _) => apply keeps_get_page_helper; assumption
  | |- keeps _ (Bufferpool_get_page _ _ _) => apply keeps_get_page; assumption
  | |- keeps _ (Bufferpool_get_page_no_add _ _ _) => apply keeps_get_page_no_add; assumption
  | |- keeps _ (unpack_location _) => apply keeps_unpack_location; assumption
  | |- keeps _ (Bufferpool_get_tps _ _ _) => apply keeps_get_tps; assumption
  | |- keeps _ (Bufferpool_get_num_updates _ _ _) => apply keeps_get_num_updates; assumption
  | |- keeps _ (Bufferpool_set_num_updates _ _ _ _) => apply keeps_set_num_updates; assumption
  | |- keeps _ (Bufferpool_get_record_column_val _ _ _) => apply keeps_get_record_column_val; assumption
  | |- keeps _ (Record_init _ _ _ _) => apply keeps_Record_init; assumption
  | |- keeps _ (Bufferpool_get_record _ _) => apply keeps_get_record; assumption
  | |- keeps _ (follow_indirection _ _ _ _) => apply keeps_follow_indirection; assumption
  | |- keeps _ (Table_get_record_version _ _ _) => apply keeps_get_record_version; assumption
  | |- keeps _ (Table_get_latest_record _ _) => apply keeps_get_latest_record; assumption
  | |- keeps _ (Table_get_record_column_version _ _ _ _) => apply keeps_get_record_column_version; assumption
  | |- keeps _ (Table_get_latest_column_val _ _ _) => apply keeps_get_latest_column_val; assumption
  | |- keeps _ (bump_pin_count _ _) => apply keeps_bump_pin_count; assumption
  | |- keeps _ (mark_dirty _) => apply keeps_mark_dirty; assumption
  | |- keeps _ (bump_num_records _) => apply keeps_bump_num_records; assumption
  | |- keeps _ (first_num_records _) => apply keeps_first_num_records; assumption
  | |- keeps _ (Bufferpool_get_highest_base_page_num _) => apply keeps_get_highest_base_page_num; assumption
  | |- keeps _ (Bufferpool_get_highest_tail_page_num _) => apply keeps_get_highest_tail_page_num; assumption
  | |- keeps _ (Bufferpool_page_has_capacity _ _ _) => apply keeps_page_has_capacity; assumption
  end.

Lemma keeps_page_range_has_capacity (cfg : Config) (I : Store → Prop) pr :
  table_only I → keeps I (Bufferpool_page_range_has_capacity cfg pr).
Proof. intros HI. unfold Bufferpool_page_range_has_capacity. skeeps. Qed.

Ltac keeps_known ::=
  lazymatch goal with
  | |- keeps _ (Bufferpool_get_physical_page_helper _ _ _ _ _) => apply keeps_get_physical_page_helper; assumption
  | |- keeps _ (Bufferpool_get_physical_page _ _ _ _) => apply keeps_get_physical_page; assumption
  | |- keeps _ (Bufferpool_get_physical_page_no_add _ _ _ _) => apply keeps_get_physical_page_no_add; assumption
  | |- keeps _ (Bufferpool_get_page_helper _ _ _ _) => apply keeps_get_page_helper; assumption
  | |- keeps _ (Bufferpool_get_page _ _ _) => apply keeps_get_page; assumption
  | |- keeps _ (Bufferpool_get_page_no_add _ _ _) => apply keeps_get_page_no_add; assumption
  | |- keeps _ (unpack_location _) => apply keeps_unpack_location; assumption
  | |- keeps _ (Bufferpool_get_tps _ _ _) => apply keeps_get_tps; assumption
  | |- keeps _ (Bufferpool_get_num_updates _ _ _) => apply keeps_get_num_updates; assumption
  | |- keeps _ (Bufferpool_set_num_updates _ _ _ _) => apply keeps_set_num_updates; assumption
  | |- keeps _ (Bufferpool_get_record_column_val _ _ _) => apply keeps_get_record_column_val; assumption
  | |- keeps _ (Record_init _ _ _ _) => apply keeps_Record_init; assumption
  | |- keeps _ (Bufferpool_get_record _ _) => apply keeps_get_record; assumption
  | |- keeps _ (follow_indirection _ _ _ _) => apply keeps_follow_indirection; assumption
  | |- keeps _ (Table_get_record_version _ _ _) => apply keeps_get_record_version; assumption
  | |- keeps _ (Table_get_latest_record _ _) => apply keeps_get_latest_record; assumption
  | |- keeps _ (Table_get_record_column_version _ _ _ _) => apply keeps_get_record_column_version; assumption
  | |- keeps _ (Table_get_latest_column_val _ _ _) => apply keeps_get_latest_column_val; assumption
  | |- keeps _ (bump_pin_count _ _) => apply keeps_bump_pin_count; assumption
  | |- keeps _ (mark_dirty _) => apply keeps_mark_dirty; assumption
  | |- keeps _ (bump_num_records _) => apply keeps_bump_num_records; assumption
  | |- keeps _ (first_num_records _) => apply keeps_first_num_records; assumption
  | |- keeps _ (Bufferpool_get_highest_base_page_num _) => apply keeps_get_highest_base_page_num; assumption
  | |- keeps _ (Bufferpool_get_highest_tail_page_num _) => apply keeps_get_highest_tail_page_num; assumption
  | |- keeps _ (Bufferpool_page_has_capacity _ _ _) => apply keeps_page_has_capacity; assumption
  | |- keeps _ (Bufferpool_page_range_has_capacity _ _) => apply keeps_page_range_has_capacity; assumption
  end.

Lemma keeps_pin_page (cfg : Config) (I : Store → Prop) cs :
  table_only I → keeps I (Bufferpool_pin_page cs).
Proof. intros HI. unfold Bufferpool_pin_page. skeeps. Qed.

Ltac keeps_known ::=
  lazymatch goal with
  | |- keeps _ (Bufferpool_get_physical_page_helper _ _ _ _ _) => apply keeps_get_physical_page_helper; assumption
  | |- keeps _ (Bufferpool_get_physical_page _ _ _ _) => apply keeps_get_physical_page; assumption
  | |- keeps _ (Bufferpool_get_physical_page_no_add _ _ _ _) => apply keeps_get_physical_page_no_add; assumption
  | |- keeps _ (Bufferpool_get_page_helper _ _ _ _) => apply keeps_get_page_helper; assumption
  | |- keeps _ (Bufferpool_get_page _ _ _) => apply keeps_get_page; assumption
  | |- keeps _ (Bufferpool_get_page_no_add _ _ _) => apply keeps_get_page_no_add; assumption
  | |- keeps _ (unpack_location _) => apply keeps_unpack_location; assumption
  | |- keeps _ (Bufferpool_get_tps _ _ _) => apply keeps_get_tps; assumption
  | |- keeps _ (Bufferpool_get_num_updates _ _ _) => apply keeps_get_num_updates; assumption
  | |- keeps _ (Bufferpool_set_num_updates _ _ _ _) => apply keeps_set_num_updates; assumption
  | |- keeps _ (Bufferpool_get_record_column_val _ _ _) => apply keeps_get_record_column_val; assumption
  | |- keeps _ (Record_init _ _ _ _) => apply keeps_Record_init; assumption
  | |- keeps _ (Bufferpool_get_record _ _) => apply keeps_get_record; assumption
  | |- keeps _ (follow_indirection _ _ _ _) => apply keeps_follow_indirection; assumption
  | |- keeps _ (Table_get_record_version _ _ _) => apply keeps_get_record_version; assumption
  | |- keeps _ (Table_get_latest_record _ _) => apply keeps_get_latest_record; assumption
  | |- keeps _ (Table_get_record_column_version _ _ _ _) => apply keeps_get_record_column_version; assumption
  | |- keeps _ (Table_get_latest_column_val _ _ _) => apply keeps_get_latest_column_val; assumption
  | |- keeps _ (bump_pin_count _ _) => apply keeps_bump_pin_count; assumption
  | |- keeps _ (mark_dirty _) => apply keeps_mark_dirty; assumption
  | |- keeps _ (bump_num_records _) => apply keeps_bump_num_records; assumption
  | |- keeps _ (first_num_records _) => apply keeps_first_num_records; assumption
  | |- keeps _ (Bufferpool_get_highest_base_page_num _) => apply keeps_get_highest_base_page_num; assumption
  | |- keeps _ (Bufferpool_get_highest_tail_page_num _) => apply keeps_get_highest_tail_page_num; assumption
  | |- keeps _ (Bufferpool_page_has_capacity _ _ _) => apply keeps_page_has_capacity; assumption
  | |- keeps _ (Bufferpool_page_range_has_capacity _ _) => apply keeps_page_range_has_capacity; assumption
  | |- keeps _ (Bufferpool_pin_page _) => apply keeps_pin_page; assumption
  end.

Lemma keeps_unpin_page (cfg : Config) (I : Store → Prop) cs :
  table_only I → keeps I (Bufferpool_unpin_page cs).
Proof. intros HI. unfold Bufferpool_unpin_page. skeeps. Qed.

Ltac keeps_known ::=
  lazymatch goal with
  | |- keeps _ (Bufferpool_get_physical_page_helper _ _ _ _ _) => apply keeps_get_physical_page_helper; assumption
  | |- keeps _ (Bufferpool_get_physical_page _ _ _ _) => apply keeps_get_physical_page; assumption
  | |- keeps _ (Bufferpool_get_physical_page_no_add _ _ _ _) => apply keeps_get_physical_page_no_add; assumption
  | |- keeps _ (Bufferpool_get_page_helper _ _ _ _) => apply keeps_get_page_helper; assumption
  | |- keeps _ (Bufferpool_get_page _ _ _) => apply keeps_get_page; assumption
  | |- keeps _ (Bufferpool_get_page_no_add _ _ _) => apply keeps_get_page_no_add; assumption
  | |- keeps _ (unpack_location _) => apply keeps_unpack_location; assumption
  | |- keeps _ (Bufferpool_get_tps _ _ _) => apply keeps_get_tps; assumption
  | |- keeps _ (Bufferpool_get_num_updates _ _ _) => apply keeps_get_num_updates; assumption
  | |- keeps _ (Bufferpool_set_num_updates _ _ _ _) => apply keeps_set_num_updates; assumption
  | |- keeps _ (Bufferpool_get_record_column_val _ _ _) => apply keeps_get_record_column_val; assumption
  | |- keeps _ (Record_init _ _ _ _) => apply keeps_Record_init; assumption
  | |- keeps _ (Bufferpool_get_record _ _) => apply keeps_get_record; assumption
  | |- keeps _ (follow_indirection _ _ _ _) => apply keeps_follow_indirection; assumption
  | |- keeps _ (Table_get_record_version _ _ _) => apply keeps_get_record_version; assumption
  | |- keeps _ (Table_get_latest_record _ _) => apply keeps_get_latest_record; assumption
  | |- keeps _ (Table_get_record_column_version _ _ _ _) => apply keeps_get_record_column_version; assumption
  | |- keeps _ (Table_get_latest_column_val _ _ _) => apply keeps_get_latest_column_val; assumption
  | |- keeps _ (bump_pin_count _ _) => apply keeps_bump_pin_count; assumption
  | |- keeps _ (mark_dirty _) => apply keeps_mark_dirty; assumption
  | |- keeps _ (bump_num_records _) => apply keeps_bump_num_records; assumption
  | |- keeps _ (first_num_records _) => apply keeps_first_num_records; assumption
  | |- keeps _ (Bufferpool_get_highest_base_page_num _) => apply keeps_get_highest_base_page_num; assumption
  | |- keeps _ (Bufferpool_get_highest_tail_page_num _) => apply keeps_get_highest_tail_page_num; assumption
  | |- keeps _ (Bufferpool_page_has_capacity _ _ _) => apply keeps_page_has_capacity; assumption
  | |- keeps _ (Bufferpool_page_range_has_capacity _ _) => apply keeps_page_range_has_capacity; assumption
  | |- keeps _ (Bufferpool_pin_page _) => apply keeps_pin_page; assumption
  | |- keeps _ (Bufferpool_unpin_page _) => apply keeps_unpin_page; assumption
  end.

Lemma keeps_Page_write (cfg : Config) (I : Store → Prop) cs r off :
  table_only I → keeps I (Page_write cfg cs r off).
Proof. intros HI. unfold Page_write. skeeps. Qed.

Ltac keeps_known ::=
  lazymatch goal with
  | |- keeps _ (Bufferpool_get_physical_page_helper _ _ _ _ _) => apply keeps_get_physical_page_helper; assumption
  | |- keeps _ (Bufferpool_get_physical_page _ _ _ _) => apply keeps_get_physical_page; assumption
  | |- keeps _ (Bufferpool_get_physical_page_no_add _ _ _ _) => apply keeps_get_physical_page_no_add; assumption
  | |- keeps _ (Bufferpool_get_page_helper _ _ _ _) => apply keeps_get_page_helper; assumption
  | |- keeps _ (Bufferpool_get_page _ _ _) => apply keeps_get_page; assumption
  | |- keeps _ (Bufferpool_get_page_no_add _ _ _) => apply keeps_get_page_no_add; assumption
  | |- keeps _ (unpack_location _) => apply keeps_unpack_location; assumption
  | |- keeps _ (Bufferpool_get_tps _ _ _) => apply keeps_get_tps; assumption
  | |- keeps _ (Bufferpool_get_num_updates _ _ _) => apply keeps_get_num_updates; assumption
  | |- keeps _ (Bufferpool_set_num_updates _ _ _ _) => apply keeps_set_num_updates; assumption
  | |- keeps _ (Bufferpool_get_record_column_val _ _ _) => apply keeps_get_record_column_val; assumption
  | |- keeps _ (Record_init _ _ _ _) => apply keeps_Record_init; assumption
  | |- keeps _ (Bufferpool_get_record _ _) => apply keeps_get_record; assumption
  | |- keeps _ (follow_indirection _ _ _ _) => apply keeps_follow_indirection; assumption
  | |- keeps _ (Table_get_record_version _ _ _) => apply keeps_get_record_version; assumption
  | |- keeps _ (Table_get_latest_record _ _) => apply keeps_get_latest_record; assumption
  | |- keeps _ (Table_get_record_column_version _ _ _ _) => apply keeps_get_record_column_version; assumption
  | |- keeps _ (Table_get_latest_column_val _ _ _) => apply keeps_get_latest_column_val; assumption
  | |- keeps _ (bump_pin_count _ _) => apply keeps_bump_pin_count; assumption
  | |- keeps _ (mark_dirty _) => apply keeps_mark_dirty; assumption
  | |- keeps _ (bump_num_records _) => apply keeps_bump_num_records; assumption
  | |- keeps _ (first_num_records _) => apply keeps_first_num_records; assumption
  | |- keeps _ (Bufferpool_get_highest_base_page_num _) => apply keeps_get_highest_base_page_num; assumption
  | |- keeps _ (Bufferpool_get_highest_tail_page_num _) => apply keeps_get_highest_tail_page_num; assumption
  | |- keeps _ (Bufferpool_page_has_capacity _ _ _) => apply keeps_page_has_capacity; assumption
  | |- keeps _ (Bufferpool_page_range_has_capacity _ _) => apply keeps_page_range_has_capacity; assumption
  | |- keeps _ (Bufferpool_pin_page _) => apply keeps_pin_page; assumption
  | |- keeps _ (Bufferpool_unpin_page _) => apply keeps_unpin_page; assumption
  | |- keeps _ (Page_write _ _ _ _) => apply keeps_Page_write; assumption
  end.

Lemma keeps_scan (cfg : Config) (I : Store → Prop) key c v :
  table_only I → keeps I (Table_scan cfg key c v).
Proof. intros HI. unfold Table_scan, Table_use_num_page_ranges_r. skeeps. Qed.

Ltac keeps_known ::=
  lazymatch goal with
  | |- keeps _ (Bufferpool_get_physical_page_helper _ _ _ _ _) => apply keeps_get_physical_page_helper; assumption
  | |- keeps _ (Bufferpool_get_physical_page _ _ _ _) => apply keeps_get_physical_page; assumption
  | |- keeps _ (Bufferpool_get_physical_page_no_add _ _ _ _) => apply keeps_get_physical_page_no_add; assumption
  | |- keeps _ (Bufferpool_get_page_helper _ _ _ _) => apply keeps_get_page_helper; assumption
  | |- keeps _ (Bufferpool_get_page _ _ _) => apply keeps_get_page; assumption
  | |- keeps _ (Bufferpool_get_page_no_add _ _ _) => apply keeps_get_page_no_add; assumption
  | |- keeps _ (unpack_location _) => apply keeps_unpack_location; assumption
  | |- keeps _ (Bufferpool_get_tps _ _ _) => apply keeps_get_tps; assumption
  | |- keeps _ (Bufferpool_get_num_updates _ _ _) => apply keeps_get_num_updates; assumption
  | |- keeps _ (Bufferpool_set_num_updates _ _ _ _) => apply keeps_set_num_updates; assumption
  | |- keeps _ (Bufferpool_get_record_column_val _ _ _) => apply keeps_get_record_column_val; assumption
  | |- keeps _ (Record_init _ _ _ _) => apply keeps_Record_init; assumption
  | |- keeps _ (Bufferpool_get_record _ _) => apply keeps_get_record; assumption
  | |- keeps _ (follow_indirection _ _ _ _) => apply keeps_follow_indirection; assumption
  | |- keeps _ (Table_get_record_version _ _ _) => apply keeps_get_record_version; assumption
  | |- keeps _ (Table_get_latest_record _ _) => apply keeps_get_latest_record; assumption
  | |- keeps _ (Table_get_record_column_version _ _ _ _) => apply keeps_get_record_column_version; assumption
  | |- keeps _ (Table_get_latest_column_val _ _ _) => apply keeps_get_latest_column_val; assumption
  | |- keeps _ (bump_pin_count _ _) => apply keeps_bump_pin_count; assumption
  | |- keeps _ (mark_dirty _) => apply keeps_mark_dirty; assumption
  | |- keeps _ (bump_num_records _) => apply keeps_bump_num_records; assumption
  | |- keeps _ (first_num_records _) => apply keeps_first_num_records; assumption
  | |- keeps _ (Bufferpool_get_highest_base_page_num _) => apply keeps_get_highest_base_page_num; assumption
  | |- keeps _ (Bufferpool_get_highest_tail_page_num _) => apply keeps_get_highest_tail_page_num; assumption
  | |- keeps _ (Bufferpool_page_has_capacity _ _ _) => apply keeps_page_has_capacity; assumption
  | |- keeps _ (Bufferpool_page_range_has_capacity _ _) => apply keeps_page_range_has_capacity; assumption
  | |- keeps _ (Bufferpool_pin_page _) => apply keeps_pin_page; assumption
  | |- keeps _ (Bufferpool_unpin_page _) => apply keeps_unpin_page; assumption
  | |- keeps _ (Page_write _ _ _ _) => apply keeps_Page_write; assumption
  | |- keeps _ (Table_scan _ _ _ _) => apply keeps_scan; assumption
  end.

Lemma keeps_project_record (cfg : Config) (I : Store → Prop) proj r :
  table_only I → keeps I (project_record proj r).
Proof. intros HI. unfold project_record. skeeps. Qed.

Ltac keeps_known ::=
  lazymatch goal with
  | |- keeps _ (Bufferpool_get_physical_page_helper _ _ _ _ _) => apply keeps_get_physical_page_helper; assumption
  | |- keeps _ (Bufferpool_get_physical_page _ _ _ _) => apply keeps_get_physical_page; assumption
  | |- keeps _ (Bufferpool_get_physical_page_no_add _ _ _ _) => apply keeps_get_physical_page_no_add; assumption
  | |- keeps _ (Bufferpool_get_page_helper _ _ _ _) => apply keeps_get_page_helper; assumption
  | |- keeps _ (Bufferpool_get_page _ _ _) => apply keeps_get_page; assumption
  | |- keeps _ (Bufferpool_get_page_no_add _ _ _) => apply keeps_get_page_no_add; assumption
  | |- keeps _ (unpack_location _) => apply keeps_unpack_location; assumption
  | |- keeps _ (Bufferpool_get_tps _ _ _) => apply keeps_get_tps; assumption
  | |- keeps _ (Bufferpool_get_num_updates _ _ _) => apply keeps_get_num_updates; assumption
  | |- keeps _ (Bufferpool_set_num_updates _ _ _ _) => apply keeps_set_num_updates; assumption
  | |- keeps _ (Bufferpool_get_record_column_val _ _ _) => apply keeps_get_record_column_val; assumption
  | |- keeps _ (Record_init _ _ _ _) => apply keeps_Record_init; assumption
  | |- keeps _ (Bufferpool_get_record _ _) => apply keeps_get_record; assumption
  | |- keeps _ (follow_indirection _ _ _ _) => apply keeps_follow_indirection; assumption
  | |- keeps _ (Table_get_record_version _ _ _) => apply keeps_get_record_version; assumption
  | |- keeps _ (Table_get_latest_record _ _) => apply keeps_get_latest_record; assumption
  | |- keeps _ (Table_get_record_column_version _ _ _ _) => apply keeps_get_record_column_version; assumption
  | |- keeps _ (Table_get_latest_column_val _ _ _) => apply keeps_get_latest_column_val; assumption
  | |- keeps _ (bump_pin_count _ _) => apply keeps_bump_pin_count; assumption
  | |- keeps _ (mark_dirty _) => apply keeps_mark_dirty; assumption
  | |- keeps _ (bump_num_records _) => apply keeps_bump_num_records; assumption
  | |- keeps _ (first_num_records _) => apply keeps_first_num_records; assumption
  | |- keeps _ (Bufferpool_get_highest_base_page_num _) => apply keeps_get_highest_base_page_num; assumption
  | |- keeps _ (Bufferpool_get_highest_tail_page_num _) => apply keeps_get_highest_tail_page_num; assumption
  | |- keeps _ (Bufferpool_page_has_capacity _ _ _) => apply keeps_page_has_capacity; assumption
  | |- keeps _ (Bufferpool_page_range_has_capacity _ _) => apply keeps_page_range_has_capacity; assumption
  | |- keeps _ (Bufferpool_pin_page _) => apply keeps_pin_page; assumption
  | |- keeps _ (Bufferpool_unpin_page _) => apply keeps_unpin_page; assumption
  | |- keeps _ (Page_write _ _ _ _) => apply keeps_Page_write; assumption
  | |- keeps _ (Table_scan _ _ _ _) => apply keeps_scan; assumption
  | |- keeps _ (project_record _ _) => apply keeps_project_record; assumption
  end.

Lemma keeps_select_by_scan (cfg : Config) (I : Store → Prop) key c proj v :
  table_only I → keeps I (select_by_scan cfg key c proj v).
Proof. intros HI. unfold select_by_scan. skeeps. Qed.

Ltac keeps_known ::=
  lazymatch goal with
  | |- keeps _ (Bufferpool_get_physical_page_helper _ _ _ _ _) => apply keeps_get_physical_page_helper; assumption
  | |- keeps _ (Bufferpool_get_physical_page _ _ _ _) => apply keeps_get_physical_page; assumption
  | |- keeps _ (Bufferpool_get_physical_page_no_add _ _ _ _) => apply keeps_get_physical_page_no_add; assumption
  | |- keeps _ (Bufferpool_get_page_helper _ _ _ _) => apply keeps_get_page_helper; assumption
  | |- keeps _ (Bufferpool_get_page _ _ _) => apply keeps_get_page; assumption
  | |- keeps _ (Bufferpool_get_page_no_add _ _ _) => apply keeps_get_page_no_add; assumption
  | |- keeps _ (unpack_location _) => apply keeps_unpack_location; assumption
  | |- keeps _ (Bufferpool_get_tps _ _ _) => apply keeps_get_tps; assumption
  | |- keeps _ (Bufferpool_get_num_updates _ _ _) => apply keeps_get_num_updates; assumption
  | |- keeps _ (Bufferpool_set_num_updates _ _ _ _) => apply keeps_set_num_updates; assumption
  | |- keeps _ (Bufferpool_get_record_column_val _ _ _) => apply keeps_get_record_column_val; assumption
  | |- keeps _ (Record_init _ _ _ _) => apply keeps_Record_init; assumption
  | |- keeps _ (Bufferpool_get_record _ _) => apply keeps_get_record; assumption
  | |- keeps _ (follow_indirection _ _ _ _) => apply keeps_follow_indirection; assumption
  | |- keeps _ (Table_get_record_version _ _ _) => apply keeps_get_record_version; assumption
  | |- keeps _ (Table_get_latest_record _ _) => apply keeps_get_latest_record; assumption
  | |- keeps _ (Table_get_record_column_version _ _ _ _) => apply keeps_get_record_column_version; assumption
  | |- keeps _ (Table_get_latest_column_val _ _ _) => apply keeps_get_latest_column_val; assumption
  | |- keeps _ (bump_pin_count _ _) => apply keeps_bump_pin_count; assumption
  | |- keeps _ (mark_dirty _) => apply keeps_mark_dirty; assumption
  | |- keeps _ (bump_num_records _) => apply keeps_bump_num_records; assumption
  | |- keeps _ (first_num_records _) => apply keeps_first_num_records; assumption
  | |- keeps _ (Bufferpool_get_highest_base_page_num _) => apply keeps_get_highest_base_page_num; assumption
  | |- keeps _ (Bufferpool_get_highest_tail_page_num _) => apply keeps_get_highest_tail_page_num; assumption
  | |- keeps _ (Bufferpool_page_has_capacity _ _ _) => apply keeps_page_has_capacity; assumption
  | |- keeps _ (Bufferpool_page_range_has_capacity _ _) => apply keeps_page_range_has_capacity; assumption
  | |- keeps _ (Bufferpool_pin_page _) => apply keeps_pin_page; assumption
  | |- keeps _ (Bufferpool_unpin_page _) => apply keeps_unpin_page; assumption
  | |- keeps _ (Page_write _ _ _ _) => apply keeps_Page_write; assumption
  | |- keeps _ (Table_scan _ _ _ _) => apply keeps_scan; assumption
  | |- keeps _ (project_record _ _) => apply keeps_project_record; assumption
  | |- keeps _ (select_by_scan _ _ _ _ _) => apply keeps_select_by_scan; assumption
  end.

Lemma keeps_select_from_index (cfg : Config) (I : Store → Prop) key c proj v :
  table_only I → keeps I (select_from_index cfg key c proj v).
Proof. intros HI. unfold select_from_index, index_of. skeeps. Qed.

Ltac keeps_known ::=
  lazymatch goal with
  | |- keeps _ (Bufferpool_get_physical_page_helper _ _ _ _ _) => apply keeps_get_physical_page_helper; assumption
  | |- keeps _ (Bufferpool_get_physical_page _ _ _ _) => apply keeps_get_physical_page; assumption
  | |- keeps _ (Bufferpool_get_physical_page_no_add _ _ _ _) => apply keeps_get_physical_page_no_add; assumption
  | |- keeps _ (Bufferpool_get_page_helper _ _ _ _) => apply keeps_get_page_helper; assumption
  | |- keeps _ (Bufferpool_get_page _ _ _) => apply keeps_get_page; assumption
  | |- keeps _ (Bufferpool_get_page_no_add _ _ _) => apply keeps_get_page_no_add; assumption
  | |- keeps _ (unpack_location _) => apply keeps_unpack_location; assumption
  | |- keeps _ (Bufferpool_get_tps _ _ _) => apply keeps_get_tps; assumption
  | |- keeps _ (Bufferpool_get_num_updates _ _ _) => apply keeps_get_num_updates; assumption
  | |- keeps _ (Bufferpool_set_num_updates _ _ _ _) => apply keeps_set_num_updates; assumption
  | |- keeps _ (Bufferpool_get_record_column_val _ _ _) => apply keeps_get_record_column_val; assumption
  | |- keeps _ (Record_init _ _ _ _) => apply keeps_Record_init; assumption
  | |- keeps _ (Bufferpool_get_record _ _) => apply keeps_get_record; assumption
  | |- keeps _ (follow_indirection _ _ _ _) => apply keeps_follow_indirection; assumption
  | |- keeps _ (Table_get_record_version _ _ _) => apply keeps_get_record_version; assumption
  | |- keeps _ (Table_get_latest_record _ _) => apply keeps_get_latest_record; assumption
  | |- keeps _ (Table_get_record_column_version _ _ _ _) => apply keeps_get_record_column_version; assumption
  | |- keeps _ (Table_get_latest_column_val _ _ _) => apply keeps_get_latest_column_val; assumption
  | |- keeps _ (bump_pin_count _ _) => apply keeps_bump_pin_count; assumption
  | |- keeps _ (mark_dirty _) => apply keeps_mark_dirty; assumption
  | |- keeps _ (bump_num_records _) => apply keeps_bump_num_records; assumption
  | |- keeps _ (first_num_records _) => apply keeps_first_num_records; assumption
  | |- keeps _ (Bufferpool_get_highest_base_page_num _) => apply keeps_get_highest_base_page_num; assumption
  | |- keeps _ (Bufferpool_get_highest_tail_page_num _) => apply keeps_get_highest_tail_page_num; assumption
  | |- keeps _ (Bufferpool_page_has_capacity _ _ _) => apply keeps_page_has_capacity; assumption
  | |- keeps _ (Bufferpool_page_range_has_capacity _ _) => apply keeps_page_range_has_capacity; assumption
  | |- keeps _ (Bufferpool_pin_page _) => apply keeps_pin_page; assumption
  | |- keeps _ (Bufferpool_unpin_page _) => apply keeps_unpin_page; assumption
  | |- keeps _ (Page_write _ _ _ _) => apply keeps_Page_write; assumption
  | |- keeps _ (Table_scan _ _ _ _) => apply keeps_scan; assumption
  | |- keeps _ (project_record _ _) => apply keeps_project_record; assumption
  | |- keeps _ (select_by_scan _ _ _ _ _) => apply keeps_select_by_scan; assumption
  | |- keeps _ (select_from_index _ _ _ _ _) => apply keeps_select_from_index; assumption
  end.

(** * query.py: select and update *)









Lemma bind_get {St B} (k : St → M St B) s : bind get k s = k s s.
Proof. done. Qed.

Lemma bind_ret {St A B} (a : A) (k : A → M St B) s : bind (ret a) k s = k a s.
Proof. done. Qed.

Section C7.
Context (cfg : Config).




Lemma locate_absent s column value ix :
  py_nth (indices s) column = Some ix →
  (∀ d, ix = Some d → d !! value = None) →
  Index_locate column value s = Ok None s.
Proof.
  intros Hix Habs. unfold Index_locate, index_of, bind, get.
  rewrite Hix. simpl.
  destruct ix as [d|]; [|done]. by rewrite (Habs d eq_refl).
Qed.

(** C10: [update] with a primary key that the key index does not hold
    returns [True] and changes nothing in the table, the pool or on disk. *)
Theorem update_absent_key s primary_key columns ix :
  py_nth (indices s) (DATA_COL_START + table_key s) = Some ix →
  (∀ d, ix = Some d → d !! primary_key = None) →
  Query_update cfg primary_key columns s = Ok true s.
Proof.
  intros Hix Habs. unfold Query_update.
  destruct (Nat.eqb _ _); [done|].
  rewrite bind_get.
  by rewrite (bind_eq _ _ _ _ _ (locate_absent _ _ _ _ Hix Habs)).
Qed.

End C7.

(** * Runs of transactions *)

Lemma acquire_exclusive_lock_grants_witness :
  lm_wf two_readers ∧
  ∃ ok lm', acquire_exclusive_lock [1; 3] (Some 1) two_readers = (ok, lm') ∧
    (ok = true ↔ ∀ k, k ∈ [1; 3] → no_other_holder (Some 1) two_readers k) ∧
    (ok = true → ∀ k, k ∈ [1; 3] → locks lm' !! k = Some [(X_lock, Some 1)]) ∧
    (ok = false →
       ∃ pre k post, [1; 3] = pre ++ k :: post ∧
         (∀ k', k' ∈ pre → no_other_holder (Some 1) two_readers k') ∧
         ¬ no_other_holder (Some 1) two_readers k ∧
         acquire_exclusive_lock pre (Some 1) two_readers = (true, lm')).
Proof.
  split; [compute_done|].
  apply (acquire_exclusive_lock_grants [1; 3] (Some 1) two_readers).
  compute_done.
Defined.

Example exclusive_upgrade :
  acquire_exclusive_lock [1; 3] (Some 1) two_readers =
  (true, {| locks := {[1 := [(X_lock, Some 1)]; 3 := [(X_lock, Some 1)];
                       5 := [(S_lock, Some 2)]]};
            lock_owners := {[Some 1 := [1; 3]; Some 2 := [5]]} |}).
Proof. vm_compute. reflexivity. Qed.

Example exclusive_conflict :
  acquire_exclusive_lock [3; 5; 7] (Some 1) two_readers =
  (false, snd (acquire_exclusive_lock [3] (Some 1) two_readers)).
Proof. vm_compute. reflexivity. Qed.





(** * bufferpool.py and page.py *)

(** C9: [write] at an offset of [max_records] or more releases
    [self.lock], which it never acquired: on a page whose lock is free it
    raises [RuntimeError] and returns nothing. *)
Theorem write_out_of_range_raises (cfg : Config) (value offset : Z)
    (p : PhysicalPage) :
  max_records cfg ≤ offset → lock p = false →
  PhysicalPage_write cfg value offset p = Err RuntimeError.
Proof.
  intros Ho Hl. unfold PhysicalPage_write.
  destruct (offset >=? max_records cfg) eqn:E; [|lia].
  unfold bind, lock_release. rewrite Hl. reflexivity.
Qed.

Lemma write_out_of_range_raises_witness :
  PhysicalPage_write example_config 7 2 (PhysicalPage_init example_config)
  = Err RuntimeError.
Proof.
  apply (write_out_of_range_raises example_config 7 2
           (PhysicalPage_init example_config)).
  - vm_compute. discriminate.
  - reflexivity.
Defined.

(** Taking and giving back the lock of a path in [self.page_locks]. *)
Lemma take_page_lock (s : Store) (p : path) :
  page_locks s !! p ≠ Some true →
  match page_locks s !! p with
  | Some true => raise Deadlock
  | _ => modify (with_page_locks (<[p := true]> (page_locks s)))
  end s = Ok tt (with_page_locks (<[p := true]> (page_locks s)) s).
Proof. intros H. by destruct (page_locks s !! p) as [[|]|]. Qed.

Lemma page_lock_release_held (s : Store) (p : path) :
  page_locks s !! p = Some true →
  page_lock_release p s
  = Ok tt (with_page_locks (<[p := false]> (page_locks s)) s).
Proof. intros H. unfold page_lock_release. rewrite bind_get, H. done. Qed.

(** C5: [get_physical_page] on a page that is cached returns it and
    leaves [lru_pages] as it was: the path keeps its place in the queue. *)
Theorem cache_hit_keeps_lru_order (cfg : Config) (pr pg col : Z) (s : Store)
    (r : nat) :
  pages s !! (pr, pg, col) = Some r →
  page_locks s !! (pr, pg, col) ≠ Some true →
  ∃ s', Bufferpool_get_physical_page cfg pr pg col s = Ok r s' ∧
        pages s' = pages s ∧ lru_pages s' = lru_pages s.
Proof.
  intros Hp Hl.
  unfold Bufferpool_get_physical_page, Bufferpool_get_physical_page_helper.
  rewrite bind_get, (bind_eq _ _ _ _ _ (take_page_lock s _ Hl)), bind_get.
  cbn [pages with_page_locks]. rewrite Hp.
  erewrite bind_eq; [|apply page_lock_release_held; cbn; apply lookup_insert_eq].
  eexists. split; [reflexivity|]. done.
Qed.

Lemma cache_hit_keeps_lru_order_witness :
  ∃ s', Bufferpool_get_physical_page small_pool_config 0 0 0 two_cached_pages
          = Ok 0%nat s' ∧
        pages s' = pages two_cached_pages ∧
        lru_pages s' = lru_pages two_cached_pages.
Proof.
  apply (cache_hit_keeps_lru_order small_pool_config 0 0 0 two_cached_pages).
  - vm_compute. reflexivity.
  - vm_compute. discriminate.
Defined.

Example two_cached_pages_lru :
  lru_pages two_cached_pages = [(0, 0, 0); (0, 0, 1)].
Proof. vm_compute. reflexivity. Qed.

Lemma find_victim_all_pinned (s : Store) (l : list path) :
  forallb (pinned s) l = true → find_victim l s = Ok None s.
Proof.
  induction l as [|p l IH]; [done|].
  cbn [forallb find_victim]. intros [H1 H2]%andb_prop.
  rewrite bind_get. unfold pinned in H1.
  destruct (pages s !! p) as [r|]; [|done]. cbn [from_option].
  rewrite bind_ret. unfold bind at 1, deref.
  destruct (heap s !! r) as [pg|]; [|done].
  destruct (pin_count pg =? 0); [done|]. auto.
Qed.

Lemma evict_all_pinned (s : Store) :
  evict_lock s = false → max_capacity s ≤ Z.of_nat (size (pages s)) →
  all_pinned s →
  Bufferpool_evict s = Ok (PyBool false) (with_evict_lock true s).
Proof.
  intros He Hc Ha. unfold Bufferpool_evict. rewrite bind_get, He.
  unfold bind at 1, modify at 1.
  destruct (Z.of_nat (size (pages s)) <? max_capacity s) eqn:E; [lia|].
  rewrite (bind_eq _ _ _ _ _
             (find_victim_all_pinned (with_evict_lock true s) _ Ha)).
  reflexivity.
Qed.

Lemma fetch_phys_page_ok (cfg : Config) (p : path) (s : Store)
    (bytes : list byte) :
  disk s !! p = Some bytes → bytes ≠ [] →
  ∃ pg, Bufferpool_fetch_phys_page cfg p s
        = Ok (length (heap s))
             (with_heap (heap s ++ [pg])
                (with_fetch_log (fetch_log s ++ [p]) s)) ∧
        data pg = bytes ∧ pin_count pg = 0 ∧ is_dirty pg = false.
Proof.
  intros Hd Hb. unfold Bufferpool_fetch_phys_page. rewrite bind_get, Hd.
  destruct bytes as [|b bytes]; [done|]. cbn [length Nat.eqb].
  eexists. split; [reflexivity|]. done.
Qed.

(** C6: when the pool is full and every cached page is pinned,
    [get_physical_page] of a page that is not cached still admits it: the
    pool then holds one page more than [max_capacity], and [evict_lock]
    stays held. *)
Theorem pinned_pool_overflows (cfg : Config) (pr pg col : Z) (s : Store)
    (bytes : list byte) :
  pages s !! (pr, pg, col) = None →
  page_locks s !! (pr, pg, col) ≠ Some true →
  evict_lock s = false →
  Z.of_nat (size (pages s)) = max_capacity s →
  all_pinned s →
  disk s !! (pr, pg, col) = Some bytes → bytes ≠ [] →
  ∃ r s', Bufferpool_get_physical_page cfg pr pg col s = Ok r s' ∧
          pages s' = <[(pr, pg, col) := r]> (pages s) ∧
          Z.of_nat (size (pages s')) = max_capacity s + 1 ∧
          max_capacity s' = max_capacity s ∧
          evict_lock s' = true.
Proof.
  intros Hp Hl He Hc Ha Hd Hb.
  unfold Bufferpool_get_physical_page, Bufferpool_get_physical_page_helper.
  rewrite bind_get, (bind_eq _ _ _ _ _ (take_page_lock s _ Hl)), bind_get.
  cbn [pages with_page_locks]. rewrite Hp.
  unfold Bufferpool_has_capacity at 1. unfold bind at 1, gets at 1.
  cbn [pages with_page_locks max_capacity]. rewrite Hc, Z.eqb_refl.
  cbn [negb andb].
  set (s1 := with_page_locks _ s).
  assert (Hev : bind Bufferpool_evict (λ _, ret ()) s1
                 = Ok () (with_evict_lock true s1)).
  { rewrite (bind_eq _ _ _ _ _
               (evict_all_pinned s1 He ltac:(cbn; lia) Ha)). done. }
  rewrite (bind_eq _ _ _ _ _ Hev).
  destruct (fetch_phys_page_ok cfg (pr, pg, col) (with_evict_lock true s1)
              bytes Hd Hb) as (pg' & Hf & _).
  rewrite (bind_eq _ _ _ _ _ Hf). unfold bind at 1, modify at 1.
  erewrite bind_eq;
    [|apply page_lock_release_held; cbn; apply lookup_insert_eq].
  eexists _, _. split; [reflexivity|]. cbn.
  split_and!; try done.
  rewrite map_size_insert_None by done. lia.
Qed.

Lemma pinned_pool_overflows_witness :
  ∃ r s', Bufferpool_get_physical_page small_pool_config 0 0 2
            two_pinned_pages = Ok r s' ∧
          pages s' = <[(0, 0, 2) := r]> (pages two_pinned_pages) ∧
          Z.of_nat (size (pages s')) = max_capacity two_pinned_pages + 1 ∧
          max_capacity s' = max_capacity two_pinned_pages ∧
          evict_lock s' = true.
Proof.
  apply (pinned_pool_overflows small_pool_config 0 0 2 two_pinned_pages
           (default [] (disk two_pinned_pages !! (0, 0, 2)))).
  - vm_compute. reflexivity.
  - vm_compute. discriminate.
  - vm_compute. reflexivity.
  - vm_compute. reflexivity.
  - vm_compute. reflexivity.
  - vm_compute. reflexivity.
  - vm_compute. discriminate.
Defined.

Example two_pinned_pages_capacity :
  max_capacity two_pinned_pages = 2 ∧ size (pages two_pinned_pages) = 2%nat.
Proof. vm_compute. done. Qed.

(** * Runs of the worker, of merge and of select *)

(** C2: a worker whose one transaction ends with the integrity
    violation [-1] reports [result = 1]. *)
Theorem worker_counts_integrity_violation :
  (∃ t' s', Transaction_run duplicate_insert duplicate_insert_state
            = Ok (PyInt (-1), t') s') ∧
  ∃ w' s', TransactionWorker_run 1 (TransactionWorker_init [duplicate_insert])
             duplicate_insert_state = Ok w' s' ∧
           stats w' = [true] ∧ result w' = 1.
Proof.
  split.
  - eexists _, _.
    apply (run_eq _ _ (PyNone, Transaction_init)); [by vm_compute|].
    apply injective_projections; [by vm_compute|reflexivity].
  - eexists _, _. split.
    + apply (run_eq _ _ (TransactionWorker_init []));
        [by vm_compute|reflexivity].
    + by vm_compute.
Qed.

(** C4: with the full tail pages 16 (rids 1, 2) and 17 (rids 3, 4) and
    a TPS of 0, merging base page 0 reads the files of tail page 17 twice
    and those of tail page 16 never. *)
Theorem merge_reads_newest_tail_page_twice :
  value_of [] (let* pg := Bufferpool_get_page example_config 0 16 in
               Page_get_rids_in_page example_config pg) merge_input = [1; 2] ∧
  value_of [] (let* pg := Bufferpool_get_page example_config 0 17 in
               Page_get_rids_in_page example_config pg) merge_input = [3; 4] ∧
  value_of 1 (Bufferpool_get_tps example_config 0 0) merge_input = 0 ∧
  succeeds (Table_merge_helper example_config 0 0) merge_input = true ∧
  fetch_log merge_output =
    fetch_log merge_input ++
    [(0, 0, 0); (0, 0, 1); (0, 0, 2); (0, 0, 3); (0, 0, 4); (0, 0, 5);
     (0, 17, 0); (0, 17, 1); (0, 17, 2); (0, 17, 3); (0, 17, 4); (0, 17, 5);
     (0, 17, 1); (0, 17, 2); (0, 17, 3); (0, 17, 4); (0, 17, 5)].
Proof. by vm_compute. Qed.





Lemma update_absent_key_witness :
  Query_update example_config 5 [None; Some 3; None] (store one_record_state)
  = Ok true (store one_record_state).
Proof.
  apply (update_absent_key example_config (store one_record_state) 5
           [None; Some 3; None] one_record_key_index).
  - vm_compute. reflexivity.
  - intros d Hd. vm_compute in Hd. injection Hd as <-. vm_compute. reflexivity.
Defined.

Lemma worker_counts_every_transaction_witness :
  result (value_of (TransactionWorker_init [])
            (TransactionWorker_run 1 (TransactionWorker_init [duplicate_insert]))
            duplicate_insert_state)
  = Z.of_nat (length (transactions (TransactionWorker_init [duplicate_insert]))).
Proof.
  apply (worker_counts_every_transaction 1
           (TransactionWorker_init [duplicate_insert]) duplicate_insert_state
           _ (state_after
                (TransactionWorker_run 1
                   (TransactionWorker_init [duplicate_insert]))
                duplicate_insert_state)).
  - reflexivity.
  - apply (run_eq _ _ (TransactionWorker_init [])); [by vm_compute|reflexivity].
Defined.

(** * lock_manager.py: shared locks and release *)

(** ** Shared locks *)

Lemma shared_scan_reject t l :
  shared_scan t l = SharedReject → ¬ Forall (λ e, e.1 = X_lock → e.2 = t) l.
Proof.
  induction l as [|[m o] l IH]; simpl; [done|].
  destruct (bool_decide (o = t)) eqn:Ho; [done|].
  apply bool_decide_eq_false in Ho. destruct m; simpl.
  - intros Hs HF. inversion HF; subst. by apply IH.
  - intros _ HF. inversion HF as [|?? H1 ?]; subst. by specialize (H1 eq_refl).
Qed.

Lemma shared_scan_held t l :
  shared_scan t l = SharedAlreadyHeld → t ∈ l.*2.
Proof.
  induction l as [|[m o] l IH]; simpl; [done|].
  destruct (bool_decide (o = t)) eqn:Ho.
  { apply bool_decide_eq_true in Ho as ->. set_solver. }
  destruct m; simpl; [|done]. set_solver.
Qed.

Lemma lock_list_wf_foreign_exclusive t l :
  lock_list_wf l → t ∈ l.*2 → Forall (λ e, e.1 = X_lock → e.2 = t) l.
Proof.
  intros (Hne & Hnd & Hx) Ht. apply Forall_forall. intros e He Hm.
  rewrite Forall_forall in Hx. specialize (Hx e He Hm).
  destruct l as [|e' [|]]; simpl in *; try done.
  apply list_elem_of_singleton in He as ->. set_solver.
Qed.

Lemma prefix_holder (t : txn_id) (l1 l2 : list (lock_mode * txn_id)) :
  l1 `prefix_of` l2 → t ∈ l1.*2 → t ∈ l2.*2.
Proof.
  intros Hp (e & -> & He)%list_elem_of_fmap. apply list_elem_of_fmap.
  exists e. split; [done|]. by eapply elem_of_prefix.
Qed.

(** One key of a shared request. *)
Lemma acquire_shared_lock_cons key keys t lm :
  acquire_shared_lock (key :: keys) t lm =
  match locks lm !! key with
  | None => acquire_shared_lock keys t
              (add_lock_owner key t (set_locks key [(S_lock, t)] lm))
  | Some l =>
      match shared_scan t l with
      | SharedReject => (false, lm)
      | SharedAlreadyHeld => acquire_shared_lock keys t lm
      | SharedGrant =>
          acquire_shared_lock keys t
            (add_lock_owner key t (set_locks key (l ++ [(S_lock, t)]) lm))
      end
  end.
Proof. reflexivity. Qed.

Lemma locks_on_grant k t l lm k' :
  locks_on lm k = l →
  locks_on (add_lock_owner k t (set_locks k (l ++ [(S_lock, t)]) lm)) k' =
  if decide (k = k') then l ++ [(S_lock, t)] else locks_on lm k'.
Proof.
  intros <-. unfold locks_on. rewrite locks_add_lock_owner. simpl.
  rewrite lookup_insert. by case_decide.
Qed.

Lemma acquire_shared_lock_spec keys t lm :
  lm_wf lm →
  ∃ ok lm', acquire_shared_lock keys t lm = (ok, lm') ∧
    (ok = true ↔ ∀ k, k ∈ keys → no_foreign_exclusive t lm k) ∧
    (ok = true → ∀ k, k ∈ keys → t ∈ (locks_on lm' k).*2) ∧
    (∀ k, locks_on lm k `prefix_of` locks_on lm' k) ∧
    (∀ k, no_foreign_exclusive t lm' k ↔ no_foreign_exclusive t lm k).
Proof.
  revert lm. induction keys as [|k keys IH]; intros lm Hwf.
  { exists true, lm. split_and!; try done.
    - split; [|done]. intros _ k. set_solver.
    - intros _ k. set_solver. }
  rewrite acquire_shared_lock_cons.
  assert (Hstep : ∀ l, locks_on lm k = l →
            Forall (λ e, e.1 = S_lock ∧ e.2 ≠ t) l →
            lm_wf (add_lock_owner k t (set_locks k (l ++ [(S_lock, t)]) lm)) →
            ∃ ok lm',
              acquire_shared_lock keys t
                (add_lock_owner k t (set_locks k (l ++ [(S_lock, t)]) lm))
              = (ok, lm') ∧
              (ok = true ↔ ∀ k0, k0 ∈ k :: keys → no_foreign_exclusive t lm k0) ∧
              (ok = true → ∀ k0, k0 ∈ k :: keys → t ∈ (locks_on lm' k0).*2) ∧
              (∀ k0, locks_on lm k0 `prefix_of` locks_on lm' k0) ∧
              (∀ k0, no_foreign_exclusive t lm' k0 ↔ no_foreign_exclusive t lm k0)).
  { intros l Hl Hs Hwf1.
    set (lm1 := add_lock_owner k t (set_locks k (l ++ [(S_lock, t)]) lm)) in *.
    assert (Hpre : ∀ k0, locks_on lm k0 `prefix_of` locks_on lm1 k0).
    { intros k0. unfold lm1. rewrite (locks_on_grant _ _ _ _ _ Hl).
      case_decide; [subst; by apply prefix_app_r|reflexivity]. }
    assert (Hnf : ∀ k0, no_foreign_exclusive t lm1 k0
                        ↔ no_foreign_exclusive t lm k0).
    { intros k0. unfold no_foreign_exclusive. fold (locks_on lm1 k0).
      fold (locks_on lm k0). unfold lm1. rewrite (locks_on_grant _ _ _ _ _ Hl).
      case_decide; [subst k0|reflexivity]. rewrite Forall_app.
      rewrite Hl. split; [by intros [? _]|]. intros H. split; [done|].
      by repeat constructor. }
    assert (Hk : no_foreign_exclusive t lm k).
    { unfold no_foreign_exclusive. fold (locks_on lm k). rewrite Hl.
      eapply Forall_impl; [exact Hs|]. intros e [He _] He'. congruence. }
    destruct (IH lm1 Hwf1) as (ok & lm' & E & Hok & Hheld & Hpre' & Hnf').
    exists ok, lm'. split_and!; [done| | | |].
    - rewrite Hok. split.
      + intros H k0 [->|Hk0]%elem_of_cons; [done|]. apply Hnf. auto.
      + intros H k0 Hk0. apply Hnf, H. set_solver.
    - intros Hok' k0 [->|Hk0]%elem_of_cons; [|auto].
      apply (prefix_holder _ _ _ (Hpre' k)). unfold lm1.
      rewrite (locks_on_grant _ _ _ _ _ Hl), decide_True by done.
      rewrite fmap_app. set_solver.
    - intros k0. etrans; [apply Hpre|apply Hpre'].
    - intros k0. by rewrite Hnf'. }
  destruct (locks lm !! k) as [l|] eqn:Hk.
  - destruct (shared_scan t l) eqn:Hs.
    + exists false, lm. split_and!; try done.
      split; [done|]. intros H. exfalso.
      apply (shared_scan_reject _ _ Hs).
      specialize (H k ltac:(set_solver)). unfold no_foreign_exclusive in H.
      by rewrite Hk in H.
    + destruct (IH lm Hwf) as (ok & lm' & E & Hok & Hheld & Hpre & Hnf).
      assert (Ht : t ∈ l.*2) by by apply shared_scan_held.
      exists ok, lm'. split_and!; try done.
      * rewrite Hok. split; [|set_solver].
        intros H k0 [->|Hk0]%elem_of_cons; [|auto].
        unfold no_foreign_exclusive. rewrite Hk. simpl.
        apply lock_list_wf_foreign_exclusive; [|done].
        apply lm_wf_lookup in Hwf as (H1 & _). eauto.
      * intros Hok' k0 [->|Hk0]%elem_of_cons; [|auto].
        apply (prefix_holder _ _ _ (Hpre k)). unfold locks_on. by rewrite Hk.
    + apply Hstep.
      * unfold locks_on. by rewrite Hk.
      * by apply shared_scan_grant.
      * by apply lm_wf_share.
  - replace [(S_lock, t)] with ([] ++ [(S_lock, t)]) by done.
    apply Hstep.
    + unfold locks_on. by rewrite Hk.
    + constructor.
    + by apply lm_wf_grant_new.
Qed.

(** X1: on a well-formed lock table [acquire_shared_lock keys t] answers
    [True] exactly when no other transaction holds an exclusive lock on
    a requested rid; [t] then holds a lock on every requested rid.
    Whatever the answer, every lock list keeps its entries, in place: no
    lock is dropped or downgraded. *)
Theorem acquire_shared_lock_grants (keys : list Z) (t : txn_id)
    (lm : LockManager) :
  lm_wf lm →
  ∃ ok lm', acquire_shared_lock keys t lm = (ok, lm') ∧
    (ok = true ↔ ∀ k, k ∈ keys → no_foreign_exclusive t lm k) ∧
    (ok = true → ∀ k, k ∈ keys → t ∈ (locks_on lm' k).*2) ∧
    (∀ k, locks_on lm k `prefix_of` locks_on lm' k).
Proof.
  intros Hwf.
  destruct (acquire_shared_lock_spec keys t lm Hwf)
    as (ok & lm' & H1 & H2 & H3 & H4 & _).
  by exists ok, lm'.
Qed.

Lemma acquire_shared_lock_grants_witness :
  ∃ ok lm', acquire_shared_lock [1; 5; 9] (Some 1) two_readers = (ok, lm') ∧
    (ok = true ↔ ∀ k, k ∈ [1; 5; 9] → no_foreign_exclusive (Some 1) two_readers k) ∧
    (ok = true → ∀ k, k ∈ [1; 5; 9] → Some 1 ∈ (locks_on lm' k).*2) ∧
    (∀ k, locks_on two_readers k `prefix_of` locks_on lm' k).
Proof.
  apply (acquire_shared_lock_grants [1; 5; 9] (Some 1) two_readers).
  compute_done.
Defined.

(** X2: the lock table stays well formed under both kinds of request,
    granted or not: no rid with an empty lock list, no transaction twice
    on a rid, an exclusive lock alone on its rid, and [lock_owners] in
    step with [locks]. *)
Theorem lock_table_stays_well_formed (keys : list Z) (t : txn_id)
    (lm : LockManager) :
  lm_wf lm →
  lm_wf (snd (acquire_shared_lock keys t lm)) ∧
  lm_wf (snd (acquire_exclusive_lock keys t lm)).
Proof.
  intros Hwf. split.
  - by apply acquire_shared_lock_wf.
  - by apply acquire_exclusive_lock_wf.
Qed.

Lemma lock_table_stays_well_formed_witness :
  lm_wf (snd (acquire_shared_lock [1; 5] (Some 3) two_readers)) ∧
  lm_wf (snd (acquire_exclusive_lock [1; 5] (Some 3) two_readers)).
Proof.
  apply (lock_table_stays_well_formed [1; 5] (Some 3) two_readers).
  compute_done.
Defined.

(** X3: on a well-formed lock table [release_held_locks t] does not
    raise; it removes the entries of [t] from every lock list, deletes
    the lists that become empty, leaves the entries of the other
    transactions as they are, and forgets [t] in [lock_owners]. *)
Theorem release_held_locks_drops_own_locks (t : txn_id) (lm : LockManager) :
  lm_wf lm →
  ∃ lm', release_held_locks t lm = Ok () lm' ∧ lm_wf lm' ∧
         lock_owners lm' = delete t (lock_owners lm) ∧
         ∀ k, locks lm' !! k = released t (locks lm !! k).
Proof. apply release_held_locks_spec. Qed.

Lemma release_held_locks_drops_own_locks_witness :
  ∃ lm', release_held_locks (Some 1) two_readers = Ok () lm' ∧ lm_wf lm' ∧
         lock_owners lm' = delete (Some 1) (lock_owners two_readers) ∧
         ∀ k, locks lm' !! k = released (Some 1) (locks two_readers !! k).
Proof.
  apply (release_held_locks_drops_own_locks (Some 1) two_readers).
  compute_done.
Defined.

(** * int.to_bytes and int.from_bytes *)

Lemma bind_eq_val {St A B} (m : M St A) (k : A → M St B) (s : St) (a : A) :
  m s = Ok a s → bind m k s = k a s.
Proof. unfold bind. by intros ->. Qed.

(** ** The integer codec *)

Lemma Z_of_byte_of_Z (z : Z) : Z_of_byte (byte_of_Z z) = z mod 256.
Proof.
  unfold Z_of_byte, byte_of_Z.
  assert (Hr : 0 ≤ z mod 256 < 256) by (apply Z.mod_pos_bound; lia).
  destruct (Byte.of_N (Z.to_N (z mod 256))) as [b|] eqn:E.
  - apply Byte.to_of_N in E. rewrite E. lia.
  - apply Byte.of_N_None_iff in E. lia.
Qed.

Lemma Z_of_byte_range (b : byte) : 0 ≤ Z_of_byte b < 256.
Proof. unfold Z_of_byte. pose proof (Byte.to_N_bounded b). lia. Qed.

Lemma length_be_bytes (n : nat) (z : Z) : length (be_bytes n z) = n.
Proof.
  revert z. induction n as [|n IH]; intros z; simpl; [done|].
  rewrite length_app, IH. simpl. lia.
Qed.

Lemma be_unsigned_app (l : list byte) (b : byte) :
  be_unsigned (l ++ [b]) = be_unsigned l * 256 + Z_of_byte b.
Proof. unfold be_unsigned. by rewrite fold_left_app. Qed.

Lemma be_unsigned_be_bytes (n : nat) (z : Z) :
  be_unsigned (be_bytes n z) = z mod 256 ^ Z.of_nat n.
Proof.
  revert z. induction n as [|n IH]; intros z.
  - simpl. by rewrite Z.mod_1_r.
  - cbn [be_bytes]. rewrite be_unsigned_app, IH, Z_of_byte_of_Z.
    rewrite Nat2Z.inj_succ, Z.pow_succ_r by lia.
    assert (0 < 256 ^ Z.of_nat n) by (apply Z.pow_pos_nonneg; lia).
    rewrite Z.rem_mul_r by lia. lia.
Qed.

Lemma be_unsigned_range (l : list byte) :
  0 ≤ be_unsigned l < 256 ^ Z.of_nat (length l).
Proof.
  induction l as [|b l IH] using rev_ind; [simpl; unfold be_unsigned; simpl; lia|].
  rewrite be_unsigned_app, length_app. simpl.
  replace (Z.of_nat (length l + 1)) with (Z.succ (Z.of_nat (length l))) by lia.
  rewrite Z.pow_succ_r by lia. pose proof (Z_of_byte_range b). nia.
Qed.

Lemma pow_256 (n : Z) : 0 ≤ n → 256 ^ n = 2 ^ (8 * n).
Proof. intros Hn. rewrite Z.pow_mul_r by lia. done. Qed.

(** Signed round trip: what [to_bytes(len, "big", signed=True)] writes,
    [from_bytes(..., signed=True)] reads back. *)
Lemma from_bytes_be_bytes (n : nat) (z : Z) :
  (0 < n)%nat →
  - 2 ^ (8 * Z.of_nat n - 1) ≤ z < 2 ^ (8 * Z.of_nat n - 1) →
  from_bytes (be_bytes n z) = z.
Proof.
  intros Hn Hz. unfold from_bytes.
  rewrite length_be_bytes, be_unsigned_be_bytes.
  destruct (8 * Z.of_nat n =? 0) eqn:E0; [lia|].
  rewrite pow_256 by lia.
  assert (Hp : 2 ^ (8 * Z.of_nat n) = 2 * 2 ^ (8 * Z.of_nat n - 1)).
  { rewrite <- Z.pow_succ_r by lia. f_equal. lia. }
  assert (Hpos : 0 < 2 ^ (8 * Z.of_nat n - 1)) by (apply Z.pow_pos_nonneg; lia).
  destruct (Z_lt_le_dec z 0) as [Hneg|Hnn].
  - assert (Hm : z mod 2 ^ (8 * Z.of_nat n) = z + 2 ^ (8 * Z.of_nat n)).
    { symmetry. apply (Z.mod_unique _ _ (-1)); lia. }
    rewrite Hm. destruct (_ <? _) eqn:E; lia.
  - rewrite Z.mod_small by lia. destruct (_ <? _) eqn:E; lia.
Qed.

Lemma to_bytes_signed_Some (len z : Z) :
  - 2 ^ (8 * len - 1) ≤ z < 2 ^ (8 * len - 1) →
  to_bytes len true z = Some (be_bytes (Z.to_nat len) z).
Proof.
  intros Hz. unfold to_bytes.
  destruct (- 2 ^ (8 * len - 1) <=? z) eqn:E1; [|lia].
  destruct (z <? 2 ^ (8 * len - 1)) eqn:E2; [|lia]. done.
Qed.

Lemma to_bytes_signed_None (len z : Z) :
  ¬ (- 2 ^ (8 * len - 1) ≤ z < 2 ^ (8 * len - 1)) →
  to_bytes len true z = None.
Proof.
  intros Hz. unfold to_bytes.
  destruct (- 2 ^ (8 * len - 1) <=? z) eqn:E1;
    destruct (z <? 2 ^ (8 * len - 1)) eqn:E2; try done. lia.
Qed.

(** The values that fit a column of [W] bytes. *)
Lemma fits_encode (cfg : Config) {St} (z : Z) (s : St) :
  fits cfg z →
  encode cfg true z s = Ok (be_bytes (Z.to_nat (COLUMN_SIZE cfg)) z) s.
Proof. intros Hz. unfold encode. by rewrite to_bytes_signed_Some. Qed.

Lemma not_fits_encode (cfg : Config) {St} (z : Z) (s : St) :
  ¬ fits cfg z → encode cfg true z s = Err OverflowError.
Proof. intros Hz. unfold encode. by rewrite to_bytes_signed_None. Qed.

(** * Slices *)

(** ** Slices of a [bytearray] *)

Section Slices.
Context {A : Type}.
Implicit Types l v : list A.

Lemma py_index_in_range (n i : Z) : 0 ≤ i ≤ n → py_index n i = i.
Proof. intros H. unfold py_index. destruct (i <? 0) eqn:E; lia. Qed.

Lemma py_slice_in_range l (a b : Z) :
  0 ≤ a ≤ b → b ≤ Z.of_nat (length l) →
  py_slice l a b = take (Z.to_nat (b - a)) (drop (Z.to_nat a) l).
Proof.
  intros Ha Hb. unfold py_slice. by rewrite !py_index_in_range by lia.
Qed.

Lemma py_slice_assign_in_range l (a b : Z) v :
  0 ≤ a ≤ b → b ≤ Z.of_nat (length l) →
  py_slice_assign l a b v
  = take (Z.to_nat a) l ++ v ++ drop (Z.to_nat b) l.
Proof.
  intros Ha Hb. unfold py_slice_assign. rewrite !py_index_in_range by lia.
  by rewrite Z.max_r by lia.
Qed.

Lemma length_py_slice l (a b : Z) :
  0 ≤ a ≤ b → b ≤ Z.of_nat (length l) →
  length (py_slice l a b) = Z.to_nat (b - a).
Proof.
  intros Ha Hb. rewrite py_slice_in_range by done.
  rewrite length_take, length_drop. lia.
Qed.

Lemma length_py_slice_assign l (a b : Z) v :
  0 ≤ a ≤ b → b ≤ Z.of_nat (length l) →
  Z.of_nat (length v) = b - a →
  length (py_slice_assign l a b v) = length l.
Proof.
  intros Ha Hb Hv. rewrite py_slice_assign_in_range by done.
  rewrite !length_app, length_take, length_drop. lia.
Qed.

Lemma lookup_py_slice_assign l (a b : Z) v (j : nat) :
  0 ≤ a ≤ b → b ≤ Z.of_nat (length l) →
  Z.of_nat (length v) = b - a →
  py_slice_assign l a b v !! j =
  if decide (Z.to_nat a ≤ j < Z.to_nat b)%nat then v !! (j - Z.to_nat a)%nat
  else l !! j.
Proof.
  intros Ha Hb Hv. rewrite py_slice_assign_in_range by done.
  destruct (decide (j < Z.to_nat a)%nat) as [H1|H1].
  { rewrite lookup_app_l by (rewrite length_take; lia).
    rewrite lookup_take_lt by lia. rewrite decide_False by lia. done. }
  rewrite lookup_app_r by (rewrite length_take; lia).
  rewrite length_take, Nat.min_l by lia.
  destruct (decide (j < Z.to_nat b)%nat) as [H2|H2].
  { rewrite lookup_app_l by lia. rewrite decide_True by lia. done. }
  rewrite lookup_app_r by lia. rewrite lookup_drop, decide_False by lia.
  f_equal. lia.
Qed.

Lemma lookup_py_slice l (a b : Z) (i : nat) :
  0 ≤ a ≤ b → b ≤ Z.of_nat (length l) →
  py_slice l a b !! i =
  if decide (i < Z.to_nat (b - a))%nat then l !! (Z.to_nat a + i)%nat else None.
Proof.
  intros Ha Hb. rewrite py_slice_in_range by done.
  case_decide.
  - rewrite lookup_take_lt by lia. by rewrite lookup_drop.
  - apply lookup_ge_None. rewrite length_take, length_drop. lia.
Qed.

(** Reading the slice that was assigned. *)
Lemma py_slice_assign_same l (a b : Z) v :
  0 ≤ a ≤ b → b ≤ Z.of_nat (length l) →
  Z.of_nat (length v) = b - a →
  py_slice (py_slice_assign l a b v) a b = v.
Proof.
  intros Ha Hb Hv. apply list_eq. intros i.
  rewrite lookup_py_slice by (rewrite ?length_py_slice_assign; lia).
  case_decide as Hi.
  - rewrite lookup_py_slice_assign by done. rewrite decide_True by lia.
    f_equal. lia.
  - symmetry. apply lookup_ge_None. lia.
Qed.

(** Reading a slice that lies beside the one that was assigned. *)
Lemma py_slice_assign_other l (a b : Z) v (c d : Z) :
  0 ≤ a ≤ b → b ≤ Z.of_nat (length l) →
  Z.of_nat (length v) = b - a →
  0 ≤ c ≤ d → d ≤ Z.of_nat (length l) →
  d ≤ a ∨ b ≤ c →
  py_slice (py_slice_assign l a b v) c d = py_slice l c d.
Proof.
  intros Ha Hb Hv Hc Hd Hdis. apply list_eq. intros i.
  rewrite !lookup_py_slice by (rewrite ?length_py_slice_assign; lia).
  case_decide as Hi; [|done].
  rewrite lookup_py_slice_assign by done. rewrite decide_False by lia. done.
Qed.

End Slices.

(** * page.py *)

(** ** page.py: [PhysicalPage] *)

Section PhysicalPages.
Context (cfg : Config) (Hcfg : cfg_ok cfg).

Lemma max_records_nonneg : 0 ≤ max_records cfg.
Proof.
  destruct Hcfg. unfold max_records, PHYSICAL_PAGE_METADATA_SIZE.
  apply Z.div_pos; lia.
Qed.

Lemma slot_bounds (offset : Z) :
  0 ≤ offset < max_records cfg →
  3 * COLUMN_SIZE cfg ≤ COLUMN_SIZE cfg * offset + 3 * COLUMN_SIZE cfg ∧
  COLUMN_SIZE cfg * (offset + 1) + 3 * COLUMN_SIZE cfg ≤ PAGE_SIZE cfg.
Proof.
  destruct Hcfg as [HW HP]. unfold max_records, PHYSICAL_PAGE_METADATA_SIZE.
  intros Ho. split; [nia|].
  pose proof (Z.mul_div_le (PAGE_SIZE cfg - 3 * COLUMN_SIZE cfg)
                (COLUMN_SIZE cfg) HW). nia.
Qed.

Lemma length_encoded (z : Z) :
  Z.of_nat (length (be_bytes (Z.to_nat (COLUMN_SIZE cfg)) z)) = COLUMN_SIZE cfg.
Proof. destruct Hcfg. rewrite length_be_bytes. lia. Qed.

Lemma from_bytes_encoded (z : Z) :
  fits cfg z → from_bytes (be_bytes (Z.to_nat (COLUMN_SIZE cfg)) z) = z.
Proof.
  destruct Hcfg. intros Hz. apply from_bytes_be_bytes; [lia|].
  unfold fits in Hz. by rewrite Z2Nat.id by lia.
Qed.

(** [write] in range: the slot holds the value, the other slots are
    untouched, the header holds the three counters, the page is dirty. *)
Lemma PhysicalPage_write_spec (value offset : Z) (p : PhysicalPage) :
  length (data p) = Z.to_nat (PAGE_SIZE cfg) →
  0 ≤ offset < max_records cfg →
  fits cfg value → fits cfg (num_records p) → fits cfg (tps p) →
  fits cfg (num_updates p) →
  ∃ d, PhysicalPage_write cfg value offset p
       = Ok (PyInt offset) (pp_with_is_dirty true (pp_with_data d p)) ∧
       length d = length (data p) ∧
       slot cfg d offset = value ∧
       (∀ o, 0 ≤ o < max_records cfg → o ≠ offset →
             slot cfg d o = slot cfg (data p) o) ∧
       header_of cfg d = (num_records p, tps p, num_updates p).
Proof.
  intros Hlen Ho Hv Hn Ht Hu. destruct Hcfg as [HW HP].
  pose proof (slot_bounds offset Ho) as [Hs1 Hs2].
  unfold PhysicalPage_write.
  destruct (offset >=? max_records cfg) eqn:E; [lia|].
  unfold bind at 1, get at 1.
  rewrite (bind_eq_val _ _ _ _ (fits_encode cfg value p Hv)).
  rewrite (bind_eq_val _ _ _ _ (fits_encode cfg (num_records p) p Hn)).
  rewrite (bind_eq_val _ _ _ _ (fits_encode cfg (tps p) p Ht)).
  rewrite (bind_eq_val _ _ _ _ (fits_encode cfg (num_updates p) p Hu)).
  unfold bind, put, ret.
  unfold PHYSICAL_PAGE_METADATA_SIZE, NUM_RECORDS_START, NUM_RECORDS_END,
    TPS_START, TPS_END, NUM_UPDATES_START, NUM_UPDATES_END.
  set (W := COLUMN_SIZE cfg) in *.
  set (enc := be_bytes (Z.to_nat W)).
  assert (Hel : ∀ z, Z.of_nat (length (enc z)) = W)
    by (intros z; apply length_encoded).
  set (d1 := py_slice_assign (data p) (W * offset + 3 * W)
               (W * (offset + 1) + 3 * W) (enc value)).
  set (d2 := py_slice_assign d1 0 W (enc (num_records p))).
  set (d3 := py_slice_assign d2 W (2 * W) (enc (tps p))).
  set (d4 := py_slice_assign d3 (2 * W) (3 * W) (enc (num_updates p))).
  assert (Hl0 : Z.of_nat (length (data p)) = PAGE_SIZE cfg) by lia.
  assert (Hl1 : length d1 = length (data p))
    by (apply length_py_slice_assign; rewrite ?Hel; lia).
  assert (Hl2 : length d2 = length (data p))
    by (unfold d2; rewrite length_py_slice_assign; rewrite ?Hel; lia).
  assert (Hl3 : length d3 = length (data p))
    by (unfold d3; rewrite length_py_slice_assign; rewrite ?Hel; lia).
  assert (Hl4 : length d4 = length (data p))
    by (unfold d4; rewrite length_py_slice_assign; rewrite ?Hel; lia).
  assert (Hslot : ∀ o, 0 ≤ o < max_records cfg →
            py_slice d4 (W * o + 3 * W) (W * (o + 1) + 3 * W)
            = py_slice d1 (W * o + 3 * W) (W * (o + 1) + 3 * W)).
  { intros o Hoo. pose proof (slot_bounds o Hoo) as [Ho1 Ho2]. fold W in Ho1, Ho2.
    unfold d4. rewrite py_slice_assign_other by (rewrite ?Hel; lia).
    unfold d3. rewrite py_slice_assign_other by (rewrite ?Hel; lia).
    unfold d2. rewrite py_slice_assign_other by (rewrite ?Hel; lia).
    done. }
  exists d4. split_and!; [done|done| | |].
  - unfold slot, PHYSICAL_PAGE_METADATA_SIZE. fold W. rewrite Hslot by done.
    unfold d1. rewrite py_slice_assign_same by (rewrite ?Hel; lia).
    by apply from_bytes_encoded.
  - intros o Hoo Hne. unfold slot, PHYSICAL_PAGE_METADATA_SIZE. fold W.
    rewrite Hslot by done.
    pose proof (slot_bounds o Hoo) as [Ho1 Ho2]. fold W in Ho1, Ho2.
    unfold d1. rewrite py_slice_assign_other by (rewrite ?Hel; nia). done.
  - unfold header_of, NUM_RECORDS_START, NUM_RECORDS_END, TPS_START, TPS_END,
      NUM_UPDATES_START, NUM_UPDATES_END. fold W.
    replace (py_slice d4 0 W) with (enc (num_records p)).
    2:{ unfold d4. rewrite py_slice_assign_other by (rewrite ?Hel; lia).
        unfold d3. rewrite py_slice_assign_other by (rewrite ?Hel; lia).
        unfold d2. rewrite py_slice_assign_same by (rewrite ?Hel; lia). done. }
    replace (py_slice d4 W (2 * W)) with (enc (tps p)).
    2:{ unfold d4. rewrite py_slice_assign_other by (rewrite ?Hel; lia).
        unfold d3. rewrite py_slice_assign_same by (rewrite ?Hel; lia). done. }
    replace (py_slice d4 (2 * W) (3 * W)) with (enc (num_updates p)).
    2:{ unfold d4. rewrite py_slice_assign_same by (rewrite ?Hel; lia). done. }
    unfold enc, W. by rewrite !from_bytes_encoded.
Qed.

Lemma unlock_lock (p : PhysicalPage) :
  lock p = false → pp_with_lock false (pp_with_lock true p) = p.
Proof. destruct p. simpl. by intros ->. Qed.

Lemma PhysicalPage_read_val_spec (offset : Z) (p : PhysicalPage) :
  lock p = false →
  PhysicalPage_read_val cfg offset p = Ok (slot cfg (data p) offset) p.
Proof.
  intros Hl. unfold PhysicalPage_read_val, bind, lock_acquire, get,
    lock_release, ret. rewrite Hl. simpl. by rewrite unlock_lock.
Qed.

Lemma PhysicalPage_data_to_int_array_spec (p : PhysicalPage) :
  lock p = false →
  PhysicalPage_data_to_int_array cfg p
  = Ok (List.map (slot cfg (data p)) (py_range 0 (num_records p))) p.
Proof.
  intros Hl. unfold PhysicalPage_data_to_int_array, bind, lock_acquire, get,
    lock_release, ret. rewrite Hl. simpl. by rewrite unlock_lock.
Qed.

(** [change_val] in range: the slot holds the value, the other slots and
    the fields other than [data] are untouched; the header bytes and the
    dirty flag are not updated. *)
Lemma PhysicalPage_change_val_spec (new_val offset : Z) (p : PhysicalPage) :
  length (data p) = Z.to_nat (PAGE_SIZE cfg) →
  0 ≤ offset < max_records cfg →
  fits cfg new_val → lock p = false →
  ∃ d, PhysicalPage_change_val cfg new_val offset p
       = Ok () (pp_with_data d p) ∧
       length d = length (data p) ∧
       slot cfg d offset = new_val ∧
       (∀ o, 0 ≤ o < max_records cfg → o ≠ offset →
             slot cfg d o = slot cfg (data p) o) ∧
       header_of cfg d = header_of cfg (data p).
Proof.
  intros Hlen Ho Hv Hl. destruct Hcfg as [HW HP].
  pose proof (slot_bounds offset Ho) as [Hs1 Hs2].
  unfold PhysicalPage_change_val.
  unfold bind at 1, lock_acquire. rewrite Hl.
  unfold bind at 1, get at 1.
  rewrite (bind_eq_val _ _ _ _ (fits_encode cfg new_val _ Hv)).
  unfold bind, put, lock_release. cbn [lock pp_with_lock pp_with_data].
  unfold PHYSICAL_PAGE_METADATA_SIZE. cbn [data pp_with_lock].
  set (W := COLUMN_SIZE cfg) in *.
  set (enc := be_bytes (Z.to_nat W)).
  assert (Hel : ∀ z, Z.of_nat (length (enc z)) = W)
    by (intros z; apply length_encoded).
  assert (Hl0 : Z.of_nat (length (data p)) = PAGE_SIZE cfg) by lia.
  exists (py_slice_assign (data p) (W * offset + 3 * W)
            (W * (offset + 1) + 3 * W) (enc new_val)).
  split_and!.
  - f_equal. destruct p; simpl in *. by subst.
  - apply length_py_slice_assign; rewrite ?Hel; lia.
  - unfold slot, PHYSICAL_PAGE_METADATA_SIZE. fold W.
    rewrite py_slice_assign_same by (rewrite ?Hel; lia).
    by apply from_bytes_encoded.
  - intros o Hoo Hne. unfold slot, PHYSICAL_PAGE_METADATA_SIZE. fold W.
    pose proof (slot_bounds o Hoo) as [Ho1 Ho2]. fold W in Ho1, Ho2.
    rewrite py_slice_assign_other by (rewrite ?Hel; nia). done.
  - unfold header_of, NUM_RECORDS_START, NUM_RECORDS_END, TPS_START, TPS_END,
      NUM_UPDATES_START, NUM_UPDATES_END. fold W.
    rewrite !py_slice_assign_other by (rewrite ?Hel; lia). done.
Qed.

(** X4: a [write] in range returns the offset; [read_val] then gives the
    value back at that offset and what it gave before at the others, and
    the page is dirty. *)
Theorem write_then_read_val (value offset : Z) (p : PhysicalPage) :
  length (data p) = Z.to_nat (PAGE_SIZE cfg) → lock p = false →
  0 ≤ offset < max_records cfg →
  fits cfg value → fits cfg (num_records p) → fits cfg (tps p) →
  fits cfg (num_updates p) →
  ∃ p', PhysicalPage_write cfg value offset p = Ok (PyInt offset) p' ∧
        PhysicalPage_read_val cfg offset p' = Ok value p' ∧
        (∀ o, 0 ≤ o < max_records cfg → o ≠ offset →
              PhysicalPage_read_val cfg o p'
              = Ok (slot cfg (data p) o) p') ∧
        is_dirty p' = true ∧ length (data p') = length (data p).
Proof.
  intros Hlen Hl Ho Hv Hn Ht Hu.
  destruct (PhysicalPage_write_spec value offset p Hlen Ho Hv Hn Ht Hu)
    as (d & Hw & Hld & Hs & Hoth & _).
  eexists. split; [exact Hw|].
  split_and!; try done.
  - rewrite PhysicalPage_read_val_spec by done. simpl. by rewrite Hs.
  - intros o Hoo Hne. rewrite PhysicalPage_read_val_spec by done. simpl.
    by rewrite Hoth.
Qed.

(** X5: a [write] in range of a value that does not fit [COLUMN_SIZE]
    signed bytes raises [OverflowError]. *)
Theorem write_overflow (value offset : Z) (p : PhysicalPage) :
  offset < max_records cfg → ¬ fits cfg value →
  PhysicalPage_write cfg value offset p = Err OverflowError.
Proof.
  intros Ho Hv. unfold PhysicalPage_write.
  destruct (offset >=? max_records cfg) eqn:E; [lia|].
  unfold bind at 1, get at 1.
  unfold bind at 1. by rewrite (not_fits_encode cfg value p Hv).
Qed.

(** X6: [change_val] in range overwrites one slot: [read_val] gives the
    new value there and the old values elsewhere; the header bytes and
    every field other than [data], the dirty flag among them, stay as
    they were. *)
Theorem change_val_then_read_val (new_val offset : Z) (p : PhysicalPage) :
  length (data p) = Z.to_nat (PAGE_SIZE cfg) → lock p = false →
  0 ≤ offset < max_records cfg → fits cfg new_val →
  ∃ d, PhysicalPage_change_val cfg new_val offset p
       = Ok () (pp_with_data d p) ∧
       PhysicalPage_read_val cfg offset (pp_with_data d p)
       = Ok new_val (pp_with_data d p) ∧
       (∀ o, 0 ≤ o < max_records cfg → o ≠ offset →
             PhysicalPage_read_val cfg o (pp_with_data d p)
             = Ok (slot cfg (data p) o) (pp_with_data d p)) ∧
       header_of cfg d = header_of cfg (data p) ∧
       length d = length (data p).
Proof.
  intros Hlen Hl Ho Hv.
  destruct (PhysicalPage_change_val_spec new_val offset p Hlen Ho Hv Hl)
    as (d & Hw & Hld & Hs & Hoth & Hh).
  exists d. split; [exact Hw|].
  split_and!; try done.
  - rewrite PhysicalPage_read_val_spec by done. simpl. by rewrite Hs.
  - intros o Hoo Hne. rewrite PhysicalPage_read_val_spec by done. simpl.
    by rewrite Hoth.
Qed.

End PhysicalPages.

Lemma write_then_read_val_witness :
  ∃ p', PhysicalPage_write example_config 7 1 (PhysicalPage_init example_config)
        = Ok (PyInt 1) p' ∧
        PhysicalPage_read_val example_config 1 p' = Ok 7 p' ∧
        (∀ o, 0 ≤ o < max_records example_config → o ≠ 1 →
              PhysicalPage_read_val example_config o p'
              = Ok (slot example_config
                      (data (PhysicalPage_init example_config)) o) p') ∧
        is_dirty p' = true ∧
        length (data p') = length (data (PhysicalPage_init example_config)).
Proof.
  apply (write_then_read_val example_config ltac:(compute_done) 7 1
           (PhysicalPage_init example_config)); compute_done.
Defined.

Lemma write_overflow_witness :
  PhysicalPage_write example_config (2 ^ 63) 1
    (PhysicalPage_init example_config) = Err OverflowError.
Proof.
  apply (write_overflow example_config (2 ^ 63) 1
           (PhysicalPage_init example_config)); compute_done.
Defined.

Lemma change_val_then_read_val_witness :
  ∃ d, PhysicalPage_change_val example_config (-3) 0
         (PhysicalPage_init example_config)
       = Ok () (pp_with_data d (PhysicalPage_init example_config)) ∧
       PhysicalPage_read_val example_config 0
         (pp_with_data d (PhysicalPage_init example_config))
       = Ok (-3) (pp_with_data d (PhysicalPage_init example_config)) ∧
       (∀ o, 0 ≤ o < max_records example_config → o ≠ 0 →
             PhysicalPage_read_val example_config o
               (pp_with_data d (PhysicalPage_init example_config))
             = Ok (slot example_config
                     (data (PhysicalPage_init example_config)) o)
                  (pp_with_data d (PhysicalPage_init example_config))) ∧
       header_of example_config d
       = header_of example_config (data (PhysicalPage_init example_config)) ∧
       length d = length (data (PhysicalPage_init example_config)).
Proof.
  apply (change_val_then_read_val example_config ltac:(compute_done) (-3) 0
           (PhysicalPage_init example_config)); compute_done.
Defined.

(** * bufferpool.py: admission and eviction *)

(** ** bufferpool.py: fetching a page *)

Lemma fetch_phys_page_eq (cfg : Config) (p : path) (s : Store)
    (bytes : list byte) :
  disk s !! p = Some bytes → bytes ≠ [] →
  Bufferpool_fetch_phys_page cfg p s
  = Ok (length (heap s))
       (with_heap (heap s ++ [page_of_bytes cfg bytes])
          (with_fetch_log (fetch_log s ++ [p]) s)).
Proof.
  intros Hd Hb. unfold Bufferpool_fetch_phys_page. rewrite bind_get, Hd.
  destruct bytes as [|b bytes]; [done|]. reflexivity.
Qed.

Lemma get_physical_page_hit (cfg : Config) (pr pg col : Z) (s : Store)
    (r : nat) :
  pages s !! (pr, pg, col) = Some r →
  page_locks s !! (pr, pg, col) ≠ Some true →
  Bufferpool_get_physical_page cfg pr pg col s
  = Ok r (lock_cycled (pr, pg, col) s).
Proof.
  intros Hp Hl.
  unfold Bufferpool_get_physical_page, Bufferpool_get_physical_page_helper.
  rewrite bind_get, (bind_eq _ _ _ _ _ (take_page_lock s _ Hl)), bind_get.
  cbn [pages with_page_locks]. rewrite Hp.
  erewrite bind_eq; [|apply page_lock_release_held; cbn; apply lookup_insert_eq].
  reflexivity.
Qed.

Lemma get_physical_page_miss (cfg : Config) (pr pg col : Z) (s : Store)
    (bytes : list byte) :
  pages s !! (pr, pg, col) = None →
  page_locks s !! (pr, pg, col) ≠ Some true →
  Z.of_nat (size (pages s)) ≠ max_capacity s →
  disk s !! (pr, pg, col) = Some bytes → bytes ≠ [] →
  Bufferpool_get_physical_page cfg pr pg col s
  = Ok (length (heap s)) (admitted cfg (pr, pg, col) bytes s).
Proof.
  intros Hp Hl Hc Hd Hb.
  unfold Bufferpool_get_physical_page, Bufferpool_get_physical_page_helper.
  rewrite bind_get, (bind_eq _ _ _ _ _ (take_page_lock s _ Hl)), bind_get.
  cbn [pages with_page_locks]. rewrite Hp.
  unfold Bufferpool_has_capacity at 1. unfold bind at 1, gets at 1.
  cbn [pages with_page_locks max_capacity].
  destruct (Z.of_nat (size (pages s)) =? max_capacity s) eqn:E; [lia|].
  cbn [negb andb]. rewrite bind_ret.
  set (s1 := with_page_locks _ s).
  rewrite (bind_eq _ _ _ _ _ (fetch_phys_page_eq cfg _ s1 bytes Hd Hb)).
  unfold bind at 1, modify at 1.
  erewrite bind_eq;
    [|apply page_lock_release_held; cbn; apply lookup_insert_eq].
  reflexivity.
Qed.

(** ** bufferpool.py: eviction *)

Lemma find_victim_first_unpinned (s : Store) (pre post : list path)
    (v : path) (r : nat) (pg : PhysicalPage) :
  forallb (pinned s) pre = true →
  pages s !! v = Some r → heap s !! r = Some pg → pin_count pg = 0 →
  find_victim (pre ++ v :: post) s = Ok (Some (v, r)) s.
Proof.
  intros Hpre Hv Hr Hpin. induction pre as [|p pre IH].
  - cbn [app find_victim]. rewrite bind_get, Hv. cbn [from_option].
    rewrite bind_ret. unfold bind at 1, deref. rewrite Hr, Hpin. done.
  - cbn [forallb] in Hpre. apply andb_prop in Hpre as [H1 H2].
    cbn [app find_victim]. rewrite bind_get. unfold pinned in H1.
    destruct (pages s !! p) as [r'|]; [|done]. cbn [from_option].
    rewrite bind_ret. unfold bind at 1, deref.
    destruct (heap s !! r') as [pg'|]; [|done].
    destruct (pin_count pg' =? 0); [done|]. auto.
Qed.

Lemma list_remove_middle {A} `{EqDecision A} (x : A) (pre post : list A) :
  x ∉ pre → list_remove x (pre ++ x :: post) = Some (pre ++ post).
Proof.
  intros Hx. induction pre as [|y pre IH]; simpl.
  - by rewrite decide_True.
  - rewrite decide_False by set_solver. rewrite IH by set_solver. done.
Qed.

Lemma write_phys_page_to_disk_ok (v : path) (s : Store) (r : nat)
    (pg : PhysicalPage) (old : list byte) :
  disk s !! v = Some old → old ≠ [] →
  pages s !! v = Some r → heap s !! r = Some pg →
  (length (data pg) ≤ length old)%nat →
  Bufferpool_write_phys_page_to_disk v s
  = Ok () (with_disk (<[v := data pg ++ drop (length (data pg)) old]> (disk s))
             s).
Proof.
  intros Hd Ho Hv Hr Hlen. unfold Bufferpool_write_phys_page_to_disk.
  rewrite bind_get, Hd. destruct old as [|b old]; [done|].
  cbn [length Nat.eqb]. rewrite Hv. cbn [from_option]. rewrite bind_ret.
  unfold bind at 1, deref. rewrite Hr.
  destruct (_ <? _)%nat eqn:E; [|done].
  apply Nat.ltb_lt in E. simpl in *. lia.
Qed.

Lemma evict_first_unpinned (s : Store) (pre post : list path) (v : path)
    (r : nat) (pg : PhysicalPage) :
  evict_lock s = false →
  max_capacity s ≤ Z.of_nat (size (pages s)) →
  lru_pages s = pre ++ v :: post →
  forallb (pinned s) pre = true → v ∉ pre →
  pages s !! v = Some r → heap s !! r = Some pg → pin_count pg = 0 →
  is_Some (page_locks s !! v) →
  (is_dirty pg = true →
     ∃ old, disk s !! v = Some old ∧ old ≠ [] ∧
            (length (data pg) ≤ length old)%nat) →
  Bufferpool_evict s
  = Ok PyNone
      (with_page_locks (delete v (page_locks s))
         (with_lru_pages (pre ++ post)
            (with_pages (delete v (pages s))
               (with_disk (written_back s v pg) s)))).
Proof.
  intros He Hc Hlru Hpre Hnin Hv Hr Hpin [lk Hlk] Hdirty.
  unfold Bufferpool_evict. rewrite bind_get, He.
  unfold bind at 1, modify at 1.
  destruct (Z.of_nat (size (pages s)) <? max_capacity s) eqn:E; [lia|].
  rewrite Hlru.
  rewrite (bind_eq _ _ _ _ _
             (find_victim_first_unpinned (with_evict_lock true s)
                pre post v r pg Hpre Hv Hr Hpin)).
  unfold bind at 1, deref. cbn [heap with_evict_lock]. rewrite Hr.
  unfold written_back.
  destruct (is_dirty pg) eqn:Ed.
  - destruct (Hdirty eq_refl) as (old & Hd & Ho & Hlen).
    rewrite (bind_eq _ _ _ _ _
               (write_phys_page_to_disk_ok v (with_evict_lock true s)
                  r pg old Hd Ho Hv Hr Hlen)).
    unfold bind at 1, modify at 1. rewrite bind_get.
    cbn [lru_pages with_pages with_disk with_evict_lock]. rewrite Hlru.
    rewrite (list_remove_middle _ _ _ Hnin). cbn [from_option].
    rewrite bind_ret. unfold bind at 1, modify at 1. rewrite bind_get.
    cbn [page_locks with_lru_pages with_pages with_disk with_evict_lock].
    rewrite Hlk. rewrite Hd. unfold bind, modify, ret.
    destruct s; simpl in *; subst. reflexivity.
  - rewrite bind_ret.
    unfold bind at 1, modify at 1. rewrite bind_get.
    cbn [lru_pages with_pages with_disk with_evict_lock]. rewrite Hlru.
    rewrite (list_remove_middle _ _ _ Hnin). cbn [from_option].
    rewrite bind_ret. unfold bind at 1, modify at 1. rewrite bind_get.
    cbn [page_locks with_lru_pages with_pages with_disk with_evict_lock].
    rewrite Hlk. unfold bind, modify, ret.
    destruct s; simpl in *; subst. reflexivity.
Qed.

(** X7: [get_physical_page] of a page that is not cached, while the pool
    has room: the file is read once, the new page object holds its bytes
    and the counters of its header, is clean and unpinned, and is
    admitted under its path at the back of [lru_pages]; nothing is
    evicted and the files are not written. *)
Theorem get_physical_page_miss_admits (cfg : Config) (pr pg col : Z)
    (s : Store) (bytes : list byte) :
  pages s !! (pr, pg, col) = None →
  page_locks s !! (pr, pg, col) ≠ Some true →
  Z.of_nat (size (pages s)) ≠ max_capacity s →
  disk s !! (pr, pg, col) = Some bytes → bytes ≠ [] →
  ∃ r s', Bufferpool_get_physical_page cfg pr pg col s = Ok r s' ∧
          heap s' = heap s ++ [page_of_bytes cfg bytes] ∧
          heap s' !! r = Some (page_of_bytes cfg bytes) ∧
          pages s' = <[(pr, pg, col) := r]> (pages s) ∧
          lru_pages s' = lru_pages s ++ [(pr, pg, col)] ∧
          fetch_log s' = fetch_log s ++ [(pr, pg, col)] ∧
          disk s' = disk s.
Proof.
  intros Hp Hl Hc Hd Hb. eexists _, _.
  split; [by apply (get_physical_page_miss cfg pr pg col s bytes)|].
  cbn. split_and!; try done.
  rewrite lookup_app_r by done. by rewrite Nat.sub_diag.
Qed.

Lemma get_physical_page_miss_admits_witness :
  ∃ r s', Bufferpool_get_physical_page small_pool_config 0 0 1 one_cached_page
          = Ok r s' ∧
          heap s' = heap one_cached_page ++
                    [page_of_bytes small_pool_config
                       (replicate 40 Byte.x00)] ∧
          heap s' !! r = Some (page_of_bytes small_pool_config
                                 (replicate 40 Byte.x00)) ∧
          pages s' = <[(0, 0, 1) := r]> (pages one_cached_page) ∧
          lru_pages s' = lru_pages one_cached_page ++ [(0, 0, 1)] ∧
          fetch_log s' = fetch_log one_cached_page ++ [(0, 0, 1)] ∧
          disk s' = disk one_cached_page.
Proof.
  apply (get_physical_page_miss_admits small_pool_config 0 0 1 one_cached_page
           (replicate 40 Byte.x00)).
  - vm_compute. reflexivity.
  - vm_compute. discriminate.
  - vm_compute. discriminate.
  - vm_compute. reflexivity.
  - vm_compute. discriminate.
Defined.

(** X8: when the pool is full, [__evict] takes the first path of
    [lru_pages] whose page has a pin count of 0: it writes the page to
    its file if it is dirty, removes the path from the pool, from
    [lru_pages] and from [page_locks], and gives [evict_lock] back; the
    other pages stay. *)
Theorem evict_takes_first_unpinned (s : Store) (pre post : list path)
    (v : path) (r : nat) (pg : PhysicalPage) :
  evict_lock s = false →
  max_capacity s ≤ Z.of_nat (size (pages s)) →
  lru_pages s = pre ++ v :: post →
  forallb (pinned s) pre = true → v ∉ pre →
  pages s !! v = Some r → heap s !! r = Some pg → pin_count pg = 0 →
  is_Some (page_locks s !! v) →
  (is_dirty pg = true →
     ∃ old, disk s !! v = Some old ∧ old ≠ [] ∧
            (length (data pg) ≤ length old)%nat) →
  ∃ s', Bufferpool_evict s = Ok PyNone s' ∧
        pages s' = delete v (pages s) ∧
        lru_pages s' = pre ++ post ∧
        page_locks s' = delete v (page_locks s) ∧
        disk s' = written_back s v pg ∧
        evict_lock s' = false ∧ heap s' = heap s.
Proof.
  intros He Hc Hlru Hpre Hnin Hv Hr Hpin Hlk Hdirty. eexists.
  split; [by apply (evict_first_unpinned s pre post v r pg)|].
  cbn. by rewrite He.
Qed.

Lemma evict_takes_first_unpinned_witness :
  ∃ s', Bufferpool_evict two_cached_pages = Ok PyNone s' ∧
        pages s' = delete (0, 0, 0) (pages two_cached_pages) ∧
        lru_pages s' = [] ++ [(0, 0, 1)] ∧
        page_locks s' = delete (0, 0, 0) (page_locks two_cached_pages) ∧
        disk s' = written_back two_cached_pages (0, 0, 0)
                    (page_of_bytes small_pool_config (replicate 40 Byte.x00)) ∧
        evict_lock s' = false ∧ heap s' = heap two_cached_pages.
Proof.
  apply (evict_takes_first_unpinned two_cached_pages [] [(0, 0, 1)] (0, 0, 0)
           0%nat (page_of_bytes small_pool_config (replicate 40 Byte.x00))).
  - vm_compute. reflexivity.
  - vm_compute. discriminate.
  - vm_compute. reflexivity.
  - reflexivity.
  - apply not_elem_of_nil.
  - vm_compute. reflexivity.
  - vm_compute. reflexivity.
  - vm_compute. reflexivity.
  - vm_compute. eauto.
  - vm_compute. discriminate.
Defined.

(** * transaction.py: the outcomes of run *)

(** ** transaction.py: the end of [run] *)

Lemma Transaction_release_ok (t : Transaction) (s : TxnState) :
  is_Some (id t) → lm_wf (lock_manager s) →
  ∃ lm', Transaction_release t s
         = Ok () {| store := store s; lock_manager := lm';
                    num_transactions := num_transactions s |} ∧
         lm_wf lm' ∧
         lock_owners lm' = delete (id t) (lock_owners (lock_manager s)) ∧
         ∀ k, locks lm' !! k = released (id t) (locks (lock_manager s) !! k).
Proof.
  intros [n Hn] Hwf.
  destruct (release_held_locks_spec (id t) (lock_manager s) Hwf)
    as (lm' & Hrel & Hwf' & Hown & Hlk).
  exists lm'. split_and!; try done.
  unfold Transaction_release. rewrite Hn. rewrite Hn in Hrel.
  unfold on_lock_manager, zoom. by rewrite Hrel.
Qed.

Lemma released_none_left (t : txn_id) (lm lm' : LockManager) :
  lm_wf lm →
  (∀ k, locks lm' !! k = released t (locks lm !! k)) →
  ∀ k l, locks lm' !! k = Some l → t ∉ l.*2.
Proof.
  intros Hwf Hlk k l. rewrite Hlk. unfold released.
  destruct (locks lm !! k) as [l0|]; [|done].
  destruct (Nat.eqb _ _); [done|]. intros [= <-].
  intros (e & He & Hin)%list_elem_of_fmap.
  apply elem_of_drop_owner in Hin as [_ Hne]. congruence.
Qed.

(** X9: when the pre-acquire phase meets a lock conflict, [run] returns
    [False] without running a query: the table is as the lock phase left
    it, and the transaction holds no lock. *)
Theorem run_lock_conflict (t : Transaction) (s : TxnState)
    (t1 : Transaction) (s1 : TxnState) :
  is_Some (id t) → lm_wf (lock_manager s) →
  Transaction_acquire_all_locks t s = Ok (PyBool false, t1) s1 →
  ∃ s', Transaction_run t s = Ok (PyBool false, t1) s' ∧
        store s' = store s1 ∧ lm_wf (lock_manager s') ∧
        ∀ k l, locks (lock_manager s') !! k = Some l → id t ∉ l.*2.
Proof.
  intros Hid Hwf Hacq.
  assert (lm_wf (lock_manager s1)) as Hwf1
    by (eapply (keeps_acquire_from); eauto).
  assert (id t1 = id t) as Hid1 by (eapply acquire_from_id; eauto).
  destruct (Transaction_release_ok t1 s1) as (lm' & Hrel & Hwf' & _ & Hlk);
    [by rewrite Hid1|done|].
  unfold Transaction_run. rewrite (bind_eq _ _ _ _ _ Hacq). simpl.
  assert (Hab : Transaction_abort t1 s1 = Ok (PyBool false) _)
    by (unfold Transaction_abort; by rewrite (bind_eq _ _ _ _ _ Hrel)).
  rewrite (bind_eq _ _ _ _ _ Hab).
  eexists. split; [reflexivity|]. simpl. split; [done|split; [done|]].
  rewrite <- Hid1. by apply (released_none_left _ (lock_manager s1)).
Qed.

(** X10: when every lock is taken and every query answers something
    truthy, [run] commits: it returns [True], the table is as the queries
    left it, and the transaction holds no lock. *)
Theorem run_commits (t : Transaction) (s : TxnState)
    (t1 : Transaction) (s1 s2 : TxnState) :
  is_Some (id t) → lm_wf (lock_manager s) →
  Transaction_acquire_all_locks t s = Ok (PyBool true, t1) s1 →
  run_queries (queries t1) s1 = Ok true s2 →
  ∃ s', Transaction_run t s = Ok (PyBool true, t1) s' ∧
        store s' = store s2 ∧ lm_wf (lock_manager s') ∧
        ∀ k l, locks (lock_manager s') !! k = Some l → id t ∉ l.*2.
Proof.
  intros Hid Hwf Hacq Hrun.
  assert (lm_wf (lock_manager s1)) as Hwf1
    by (eapply (keeps_acquire_from); eauto).
  assert (id t1 = id t) as Hid1 by (eapply acquire_from_id; eauto).
  pose proof (run_queries_frame _ _ _ _ Hrun) as Hlm.
  destruct (Transaction_release_ok t1 s2) as (lm' & Hrel & Hwf' & _ & Hlk);
    [by rewrite Hid1|by rewrite Hlm|].
  unfold Transaction_run. rewrite (bind_eq _ _ _ _ _ Hacq). simpl.
  rewrite (bind_eq _ _ _ _ _ Hrun). simpl.
  assert (Hab : Transaction_commit t1 s2 = Ok (PyBool true) _)
    by (unfold Transaction_commit; by rewrite (bind_eq _ _ _ _ _ Hrel)).
  rewrite (bind_eq _ _ _ _ _ Hab).
  eexists. split; [reflexivity|]. simpl. split; [done|split; [done|]].
  rewrite <- Hid1. apply (released_none_left _ (lock_manager s2)); [|done].
  by rewrite Hlm.
Qed.

(** X11: whatever [run] returns, the transaction holds no lock
    afterwards, [lock_owners] has forgotten it, and the lock table is well
    formed. *)
Theorem run_releases_every_lock (t : Transaction) (s : TxnState) (v : pyval)
    (t' : Transaction) (s' : TxnState) :
  is_Some (id t) → lm_wf (lock_manager s) →
  Transaction_run t s = Ok (v, t') s' →
  lm_wf (lock_manager s') ∧
  lock_owners (lock_manager s') !! id t = None ∧
  ∀ k l, locks (lock_manager s') !! k = Some l → id t ∉ l.*2.
Proof.
  intros Hid Hwf H. unfold Transaction_run in H.
  apply bind_ok in H as ([g t1] & s1 & Hacq & H).
  assert (lm_wf (lock_manager s1)) as Hwf1
    by (eapply (keeps_acquire_from); eauto).
  assert (id t1 = id t) as Hid1 by (eapply acquire_from_id; eauto).
  assert (Hfin : ∀ s2 (u : unit) s3, lock_manager s2 = lock_manager s1 →
            Transaction_release t1 s2 = Ok u s3 →
            lm_wf (lock_manager s3) ∧
            lock_owners (lock_manager s3) !! id t = None ∧
            ∀ k l, locks (lock_manager s3) !! k = Some l → id t ∉ l.*2).
  { intros s2 u s3 Hlm Hr.
    destruct (Transaction_release_ok t1 s2) as (lm' & Hrel & Hwf' & Hown & Hlk);
      [by rewrite Hid1|by rewrite Hlm|].
    rewrite Hrel in Hr. injection Hr as _ <-. simpl. split; [done|split].
    - rewrite Hown, Hid1. apply lookup_delete_eq.
    - rewrite <- Hid1. apply (released_none_left _ (lock_manager s2)); [|done].
      by rewrite Hlm. }
  destruct (py_eq g (PyBool false)).
  { unfold Transaction_abort in H.
    apply bind_ok in H as (v0 & s2 & H & H2).
    apply bind_ok in H as (u & s3 & Hr & H3).
    injection H3 as <- <-. injection H2 as _ _ <-. eauto. }
  destruct (py_eq g (PyInt (-1))).
  { apply bind_ok in H as (u & s3 & Hr & H3).
    injection H3 as _ _ <-. eauto. }
  apply bind_ok in H as (ok & s2 & Hrun & H).
  pose proof (run_queries_frame _ _ _ _ Hrun) as Hlm.
  destruct ok.
  - unfold Transaction_commit in H.
    apply bind_ok in H as (v0 & s3 & H & H2).
    apply bind_ok in H as (u & s4 & Hr & H3).
    injection H3 as <- <-. injection H2 as _ _ <-. eauto.
  - unfold Transaction_abort in H.
    apply bind_ok in H as (v0 & s3 & H & H2).
    apply bind_ok in H as (u & s4 & Hr & H3).
    injection H3 as <- <-. injection H2 as _ _ <-. eauto.
Qed.

Lemma one_update_is_refused :
  Transaction_acquire_all_locks one_update one_update_state =
  Ok (PyBool false, one_update_refused) one_update_refused_state.
Proof.
  unfold one_update_refused_state.
  apply (run_eq _ _ (PyNone, Transaction_init)).
  - vm_compute. reflexivity.
  - apply injective_projections; [vm_compute; reflexivity | reflexivity].
Qed.

Lemma run_lock_conflict_witness :
  ∃ s', Transaction_run one_update one_update_state
        = Ok (PyBool false, one_update_refused) s' ∧
        store s' = store one_update_refused_state ∧
        lm_wf (lock_manager s') ∧
        ∀ k l, locks (lock_manager s') !! k = Some l →
               id one_update ∉ l.*2.
Proof.
  apply (run_lock_conflict one_update one_update_state one_update_refused
           one_update_refused_state).
  - vm_compute. eauto.
  - compute_done.
  - exact one_update_is_refused.
Defined.

Lemma one_insert_takes_its_lock :
  Transaction_acquire_all_locks one_insert one_insert_state =
  Ok (PyBool true, one_insert_locked) one_insert_locked_state.
Proof.
  unfold one_insert_locked_state.
  apply (run_eq _ _ (PyNone, Transaction_init)).
  - vm_compute. reflexivity.
  - apply injective_projections; [vm_compute; reflexivity | reflexivity].
Qed.

Lemma one_insert_succeeds :
  run_queries (queries one_insert_locked) one_insert_locked_state =
  Ok true one_insert_ran_state.
Proof.
  unfold one_insert_ran_state.
  apply (run_eq _ _ false); vm_compute; reflexivity.
Qed.

Lemma run_commits_witness :
  ∃ s', Transaction_run one_insert one_insert_state
        = Ok (PyBool true, one_insert_locked) s' ∧
        store s' = store one_insert_ran_state ∧
        lm_wf (lock_manager s') ∧
        ∀ k l, locks (lock_manager s') !! k = Some l →
               id one_insert ∉ l.*2.
Proof.
  apply (run_commits one_insert one_insert_state one_insert_locked
           one_insert_locked_state one_insert_ran_state).
  - vm_compute. eauto.
  - compute_done.
  - exact one_insert_takes_its_lock.
  - exact one_insert_succeeds.
Defined.

Lemma run_releases_every_lock_witness :
  lm_wf (lock_manager (state_after (Transaction_run one_insert)
                         one_insert_state)) ∧
  lock_owners (lock_manager (state_after (Transaction_run one_insert)
                               one_insert_state)) !! id one_insert = None ∧
  ∀ k l, locks (lock_manager (state_after (Transaction_run one_insert)
                                one_insert_state)) !! k = Some l →
         id one_insert ∉ l.*2.
Proof.
  apply (run_releases_every_lock one_insert one_insert_state
           (fst (value_of (PyNone, Transaction_init)
                   (Transaction_run one_insert) one_insert_state))
           (snd (value_of (PyNone, Transaction_init)
                   (Transaction_run one_insert) one_insert_state))).
  - vm_compute. eauto.
  - compute_done.
  - rewrite <- surjective_pairing.
    apply (run_eq _ _ (PyNone, Transaction_init)); [by vm_compute|reflexivity].
Defined.





(** * query.py: edge cases *)

(** ** query.py: keys that the index does or does not hold *)

Section Queries.
Context (cfg : Config).

Lemma index_of_eq (s : Store) (column : Z) ix :
  py_nth (indices s) column = Some ix → index_of column s = Ok ix s.
Proof. intros H. unfold index_of. rewrite bind_get, H. done. Qed.

Lemma is_indexed_eq (s : Store) (column : Z) d :
  py_nth (indices s) column = Some (Some d) →
  Index_is_indexed column s = Ok true s.
Proof.
  intros H. unfold Index_is_indexed.
  by rewrite (bind_eq _ _ _ _ _ (index_of_eq _ _ _ H)).
Qed.

Lemma locate_eq (s : Store) (column value : Z) d :
  py_nth (indices s) column = Some (Some d) →
  Index_locate column value s = Ok (d !! value) s.
Proof.
  intros H. unfold Index_locate.
  by rewrite (bind_eq _ _ _ _ _ (index_of_eq _ _ _ H)).
Qed.

(** X13: [select_version] on an indexed column, for a key that the index
    does not hold, returns the empty list and changes nothing. *)
Theorem select_version_absent_key (s : Store)
    (search_key search_key_index : Z) (projected : list Z) (version : Z) d :
  py_nth (indices s) (search_key_index + DATA_COL_START) = Some (Some d) →
  d !! search_key = None →
  Query_select_version cfg search_key search_key_index projected version s
  = Ok [] s.
Proof.
  intros Hix Hd. unfold Query_select_version.
  rewrite (bind_eq _ _ _ _ _ (index_of_eq _ _ _ Hix)).
  unfold select_from_index.
  rewrite (bind_eq _ _ _ _ _ (index_of_eq _ _ _ Hix)). cbn [from_option].
  rewrite bind_ret, Hd. done.
Qed.

(** X14: [increment] for a key that the key index does not hold raises
    [IndexError] (from [select(...)[0]]); it does not return [False]. *)
Theorem increment_absent_key (s : Store) (key column : Z) d :
  py_nth (indices s) (table_key s + DATA_COL_START) = Some (Some d) →
  d !! key = None →
  Query_increment cfg key column s = Err IndexError.
Proof.
  intros Hix Hd. unfold Query_increment. rewrite bind_get.
  unfold Query_select.
  rewrite (bind_eq _ _ _ _ _
             (select_version_absent_key s key (table_key s) _ 0 d Hix Hd)).
  done.
Qed.

(** X15: [insert] of a record whose primary key the key index already
    holds returns [False] and changes nothing: no rid is drawn, no page
    is fetched or written. *)
Theorem insert_duplicate_key (s : Store) (columns : list Z) (k : Z) d rids :
  py_nth (indices s) (DATA_COL_START + table_key s) = Some (Some d) →
  py_nth columns (table_key s) = Some k →
  d !! k = Some rids →
  Query_insert cfg columns s = Ok false s.
Proof.
  intros Hix Hk Hd. unfold Query_insert. rewrite bind_get.
  rewrite (bind_eq _ _ _ _ _ (is_indexed_eq _ _ _ Hix)).
  cbn beta iota. rewrite Hk. cbn [from_option].
  erewrite bind_eq;
    [|rewrite bind_ret;
      rewrite (bind_eq _ _ _ _ _ (locate_eq _ _ k _ Hix)); reflexivity].
  rewrite Hd. rewrite bool_decide_eq_true_2 by done. done.
Qed.

(** X16: [delete] of a primary key that the key index does not hold
    returns [False] and changes nothing. *)
Theorem delete_absent_key (fuel : nat) (s : Store) (primary_key : Z) d :
  py_nth (indices s) (DATA_COL_START + table_key s) = Some (Some d) →
  d !! primary_key = None →
  Query_delete cfg fuel primary_key s = Ok false s.
Proof.
  intros Hix Hd. unfold Query_delete. rewrite bind_get.
  rewrite (bind_eq _ _ _ _ _ (is_indexed_eq _ _ _ Hix)).
  cbn [negb]. rewrite bind_ret.
  rewrite (bind_eq _ _ _ _ _ (locate_eq _ _ primary_key _ Hix)).
  by rewrite Hd.
Qed.

Lemma sum_keys_none_found (s : Store) (keys : list Z) (agg version : Z)
    (total found : Z) d :
  py_nth (indices s) (DATA_COL_START + table_key s) = Some (Some d) →
  (∀ k, k ∈ keys → d !! k = None) →
  sum_keys cfg keys agg version total found s = Ok (total, found) s.
Proof.
  intros Hix Hd. induction keys as [|k keys IH]; [done|].
  cbn [sum_keys]. rewrite bind_get.
  rewrite (bind_eq _ _ _ _ _ (index_of_eq _ _ _ Hix)). cbn [from_option].
  rewrite bind_ret. rewrite (Hd k) by set_solver. apply IH.
  intros k' Hk'. apply Hd. set_solver.
Qed.

(** X17: [sum_version] over a range of which the key index holds no
    key returns [False] and changes nothing. *)
Theorem sum_version_none_found (s : Store) (start_range end_range agg
    version : Z) d :
  py_nth (indices s) (DATA_COL_START + table_key s) = Some (Some d) →
  (∀ k, start_range ≤ k ≤ end_range → d !! k = None) →
  Query_sum_version cfg start_range end_range agg version s
  = Ok (PyBool false) s.
Proof.
  intros Hix Hd. unfold Query_sum_version.
  assert (Hr : ∀ k, k ∈ py_range start_range (end_range + 1) → d !! k = None).
  { intros k Hk. apply Hd. unfold py_range in Hk.
    apply list_elem_of_In, in_map_iff in Hk as (i & <- & Hi).
    apply in_seq in Hi. lia. }
  by rewrite (bind_eq _ _ _ _ _
                (sum_keys_none_found s _ agg version 0 0 d Hix Hr)).
Qed.

End Queries.

Lemma one_record_keys_eq : one_record_keys = {[1 := [0]]}.
Proof. vm_compute. reflexivity. Qed.

Lemma select_version_absent_key_witness :
  Query_select_version example_config 5 0 [1; 1; 1] 0 (store one_record_state)
  = Ok [] (store one_record_state).
Proof.
  apply (select_version_absent_key example_config (store one_record_state)
           5 0 [1; 1; 1] 0 one_record_keys).
  - vm_compute. reflexivity.
  - vm_compute. reflexivity.
Defined.

Lemma increment_absent_key_witness :
  Query_increment example_config 5 1 (store one_record_state) = Err IndexError.
Proof.
  apply (increment_absent_key example_config (store one_record_state) 5 1
           one_record_keys).
  - vm_compute. reflexivity.
  - vm_compute. reflexivity.
Defined.

Lemma insert_duplicate_key_witness :
  Query_insert example_config [1; 11; 21] (store one_record_state)
  = Ok false (store one_record_state).
Proof.
  apply (insert_duplicate_key example_config (store one_record_state)
           [1; 11; 21] 1 one_record_keys [0]).
  - vm_compute. reflexivity.
  - reflexivity.
  - vm_compute. reflexivity.
Defined.

Lemma delete_absent_key_witness :
  Query_delete example_config 3 5 (store one_record_state)
  = Ok false (store one_record_state).
Proof.
  apply (delete_absent_key example_config 3 (store one_record_state) 5
           one_record_keys).
  - vm_compute. reflexivity.
  - vm_compute. reflexivity.
Defined.

Lemma sum_version_none_found_witness :
  Query_sum_version example_config 5 9 1 0 (store one_record_state)
  = Ok (PyBool false) (store one_record_state).
Proof.
  apply (sum_version_none_found example_config (store one_record_state)
           5 9 1 0 one_record_keys).
  - vm_compute. reflexivity.
  - intros k Hk. rewrite one_record_keys_eq. apply lookup_singleton_ne. lia.
Defined.
